(** * classy: taxonomic classification of asteroid spectra

    A shallow embedding of the classification code of the [classy] package
    ([classy/taxonomies/tholen.py], [demeo.py], [mahlke.py]) and the
    properties of it that the design document states.

    Conventions of the embedding.

    - A Python float is a value of [float]: NaN, the two infinities, or a
      finite number, which is an exact rational.  Comparisons follow
      IEEE 754 (every comparison with NaN is false); rounding is not
      modelled.
    - A [Spectrum] is a Python object with attributes attached at run time:
      it is a finite map from attribute names to values.  Reading an
      attribute that is absent raises [AttributeError].
    - A function that reads or writes the spectrum, logs, or calls a
      collaborator is a computation in the monad [M]: it takes the world
      (the attributes and the trace of events so far) and gives a result or
      an exception, and the world after it.  An exception keeps every write
      that happened before it, as in Python.
    - Names of third-party libraries ([np], [pd]) and of the package logger
      stand for these libraries.  Reference data that is read from disk
      (the ECAS table, the fitted mixture model) and numpy's transcendental
      functions are parameters. *)

From Stdlib Require Import QArith Qabs Qround Lqa ZArith String List Bool Lia.
From stdpp Require Import base option list gmap strings pretty.

Open Scope Q_scope.
Open Scope string_scope.

(** ** Python values *)

Module Py.

Inductive float : Type :=
| NaN
| NInf
| Fin (q : Q)
| PInf.

Coercion Fin : Q >-> float.

Definition Qltb (x y : Q) : bool := negb (Qle_bool y x).

Definition isnan (a : float) : bool :=
  match a with NaN => true | _ => false end.

Definition isfinite (a : float) : bool :=
  match a with Fin _ => true | _ => false end.

(** [a < b] *)
Definition flt (a b : float) : bool :=
  match a, b with
  | NaN, _ | _, NaN => false
  | NInf, NInf => false
  | NInf, _ => true
  | Fin _, NInf => false
  | Fin x, Fin y => Qltb x y
  | Fin _, PInf => true
  | PInf, _ => false
  end.

(** [a <= b] *)
Definition fle (a b : float) : bool :=
  match a, b with
  | NaN, _ | _, NaN => false
  | NInf, _ => true
  | Fin _, NInf => false
  | Fin x, Fin y => Qle_bool x y
  | Fin _, PInf => true
  | PInf, PInf => true
  | PInf, _ => false
  end.

(** [a == b] *)
Definition feq (a b : float) : bool :=
  match a, b with
  | NInf, NInf | PInf, PInf => true
  | Fin x, Fin y => Qeq_bool x y
  | _, _ => false
  end.

Definition fopp (a : float) : float :=
  match a with
  | NaN => NaN
  | NInf => PInf
  | Fin x => Fin (- x)
  | PInf => NInf
  end.

Definition fadd (a b : float) : float :=
  match a, b with
  | NaN, _ | _, NaN => NaN
  | NInf, PInf | PInf, NInf => NaN
  | NInf, _ | _, NInf => NInf
  | PInf, _ | _, PInf => PInf
  | Fin x, Fin y => Fin (x + y)
  end.

Definition fsub (a b : float) : float := fadd a (fopp b).

(** The infinity with the sign of [q] times the sign [pos]; NaN for zero. *)
Definition inf_times (pos : bool) (q : Q) : float :=
  if Qeq_bool q 0 then NaN
  else if Bool.eqb pos (Qltb 0 q) then PInf else NInf.

Definition fmul (a b : float) : float :=
  match a, b with
  | NaN, _ | _, NaN => NaN
  | Fin x, Fin y => Fin (x * y)
  | PInf, Fin y => inf_times true y
  | NInf, Fin y => inf_times false y
  | Fin x, PInf => inf_times true x
  | Fin x, NInf => inf_times false x
  | PInf, PInf | NInf, NInf => PInf
  | PInf, NInf | NInf, PInf => NInf
  end.

Declare Scope float_scope.
Delimit Scope float_scope with F.
Bind Scope float_scope with float.

Notation "a <? b" := (flt a b) (at level 70, no associativity) : float_scope.
Notation "a <=? b" := (fle a b) (at level 70, no associativity) : float_scope.
Notation "a >? b" := (flt b a) (at level 70, no associativity) : float_scope.
Notation "a >=? b" := (fle b a) (at level 70, no associativity) : float_scope.
Notation "a =? b" := (feq a b) (at level 70, no associativity) : float_scope.
Notation "a + b" := (fadd a b) : float_scope.
Notation "a - b" := (fsub a b) : float_scope.
Notation "a * b" := (fmul a b) : float_scope.

(** A value held by an attribute or returned by a function. *)
#[warnings="-register-all"] Inductive value : Type :=
| VNone
| VBool (b : bool)
| VNum (x : float)
| VStr (s : string)
| VArr (a : list float)
| VFrame (cols : list (string * value)).

(** A piece of a formatted message: literal text, or a value put in by an
    f-string. *)
Inductive frag : Type :=
| Txt (s : string)
| Val (v : value).

Definition message := list frag.

Inductive exn : Type :=
| AttributeError (attr : string)
| NameError (name : string)
| ValueError (msg : message)
| TypeError (what : string)
| IndexError (what : string)
| KeyError (key : string).

Inductive level : Type := DEBUG | INFO | WARNING.

(** What a run leaves behind besides the attributes: log records, printed
    lines, calls of collaborators that are not part of the classifier, and
    stops at [breakpoint()]. *)
Inductive event : Type :=
| Log (l : level) (msg : message)
| Printed (s : string)
| Call (callee : string)
| Breakpoint.

Inductive result (A : Type) : Type :=
| Ok (a : A)
| Raise (e : exn).
Arguments Ok {A} a.
Arguments Raise {A} e.

Record world : Type := World {
  attrs : gmap string value;
  trace : list event
}.

Definition M (A : Type) : Type := world -> result A * world.

#[export] Instance M_ret : MRet M := fun A a w => (Ok a, w).

#[export] Instance M_bind : MBind M := fun A B f m w =>
  match m w with
  | (Ok a, w') => f a w'
  | (Raise e, w') => (Raise e, w')
  end.

Definition raise {A : Type} (e : exn) : M A := fun w => (Raise e, w).

(** [spec.a] *)
Definition getattr (a : string) : M value := fun w =>
  match attrs w !! a with
  | Some v => (Ok v, w)
  | None => (Raise (AttributeError a), w)
  end.

(** [spec.a = v] *)
Definition setattr (a : string) (v : value) : M unit := fun w =>
  (Ok tt, World (<[a := v]> (attrs w)) (trace w)).

Definition emit (e : event) : M unit := fun w =>
  (Ok tt, World (attrs w) (trace w ++ [e])).

(** The call of a method of the spectrum that is not part of the
    classifier: it sees the attributes and gives a value back. *)
Definition method {A : Type} (f : gmap string value -> A) : M A := fun w =>
  (Ok (f (attrs w)), w).

Definition as_num (v : value) : M float :=
  match v with
  | VNum x => mret x
  | _ => raise (TypeError "float expected")
  end.

Definition as_arr (v : value) : M (list float) :=
  match v with
  | VArr a => mret a
  | _ => raise (TypeError "array expected")
  end.

Definition as_str (v : value) : M string :=
  match v with
  | VStr s => mret s
  | _ => raise (TypeError "str expected")
  end.

(** [a[0]] *)
Definition index0 (a : list float) : M float :=
  match a with
  | x :: _ => mret x
  | [] => raise (IndexError "index 0 is out of bounds")
  end.

(** The truth value Python gives to [v] in a condition. *)
Definition truthy (v : value) : M bool :=
  match v with
  | VNone => mret false
  | VBool b => mret b
  | VNum x => mret (negb (feq x (Fin 0)))
  | VStr s => mret (negb (String.eqb s EmptyString))
  | VArr [] => mret false
  | VArr [x] => mret (negb (feq x (Fin 0)))
  | VArr _ => raise (ValueError [Txt "The truth value of an array with more than one element is ambiguous"])
  | VFrame _ => raise (ValueError [Txt "The truth value of a DataFrame is ambiguous"])
  end.

Definition num_attr (a : string) : M float := getattr a ≫= as_num.
Definition arr_attr (a : string) : M (list float) := getattr a ≫= as_arr.

(** The attributes after a run, and what the run appended to the trace. *)
Definition run {A : Type} (m : M A) (w : world) : result A := fst (m w).
Definition after {A : Type} (m : M A) (w : world) : world := snd (m w).

End Py.

Import Py.
Open Scope float_scope.

(** ** The numpy operations the classifiers use *)

Module Np.

Definition lift {A : Type} (r : result A) : M A := fun w => (r, w).

(** [np.arange(start, stop, step)]: [ceil((stop - start) / step)] values
    [start + i * step]. *)
Definition arange (start stop step : Q) : list float :=
  let n := Z.to_nat (Qceiling ((stop - start) / step)) in
  map (fun i : nat => Fin (Qred (start + inject_Z (Z.of_nat i) * step))) (seq 0 n).

Definition fmin2 (a b : float) : float :=
  if isnan a then a else if isnan b then b else if b <? a then b else a.

Definition fmax2 (a b : float) : float :=
  if isnan a then a else if isnan b then b else if b >? a then b else a.

(** [a.min()] and [a.max()]: NaN if the array holds one, an error on an
    empty array. *)
Definition amin (a : list float) : result float :=
  match a with
  | [] => Raise (ValueError [Txt "zero-size array to reduction operation minimum which has no identity"])
  | x :: a' => Ok (fold_left fmin2 a' x)
  end.

Definition amax (a : list float) : result float :=
  match a with
  | [] => Raise (ValueError [Txt "zero-size array to reduction operation maximum which has no identity"])
  | x :: a' => Ok (fold_left fmax2 a' x)
  end.

Fixpoint zip_with_f (f : float -> float -> float) (a b : list float) : list float :=
  match a, b with
  | x :: a', y :: b' => f x y :: zip_with_f f a' b'
  | _, _ => []
  end.

(** [a - b] on one-dimensional arrays, with numpy's broadcasting of an
    array of one element. *)
Definition sub (a b : list float) : result (list float) :=
  if (length a =? length b)%nat then Ok (zip_with_f fsub a b)
  else match a, b with
       | [x], _ => Ok (map (fun y => x - y) b)
       | _, [y] => Ok (map (fun x => x - y) a)
       | _, _ => Raise (ValueError [Txt "operands could not be broadcast together"])
       end.

(** [a -= b]: the result has the shape of [a]. *)
Definition isub (a b : list float) : result (list float) :=
  if (length a =? length b)%nat then Ok (zip_with_f fsub a b)
  else match b with
       | [y] => Ok (map (fun x => x - y) a)
       | _ => Raise (ValueError [Txt "operands could not be broadcast together"])
       end.

Definition fsum (a : list float) : float := fold_left fadd a (Fin 0).

Definition dot (a b : list float) : float := fsum (zip_with_f fmul a b).

(** [m @ v] for a matrix given by its rows. *)
Definition matvec (m : list (list float)) (v : list float) : result (list float) :=
  if forallb (fun row => (length row =? length v)%nat) m
  then Ok (map (fun row => dot row v) m)
  else Raise (ValueError [Txt "matmul: input operands have a mismatch in their core dimension"]).

(** [a != b] between two arrays taken as wholes. *)
Fixpoint array_eq (a b : list float) : bool :=
  match a, b with
  | [], [] => true
  | x :: a', y :: b' => feq x y && array_eq a' b'
  | _, _ => false
  end.

Section Sqrt.

(** The square root on the finite non-negative numbers. *)
Variable sqrtQ : Q -> Q.

Definition fsqrt (a : float) : float :=
  match a with
  | NaN | NInf => NaN
  | Fin q => if Qltb q 0 then NaN else Fin (sqrtQ q)
  | PInf => PInf
  end.

(** [np.linalg.norm(a)]: the Euclidean norm of a one-dimensional array. *)
Definition norm (a : list float) : float := fsqrt (dot a a).

End Sqrt.

(** [np.argmin]: the first index that holds the least value; the first NaN
    if there is one.  The loop keeps the current least value [best], found
    at [best_i], and looks at index [i] next. *)
Fixpoint argmin_from (best_i : nat) (best : float) (i : nat) (a : list float) : nat :=
  match a with
  | [] => best_i
  | x :: a' =>
      if isnan best then best_i
      else if negb (x >=? best) then argmin_from i x (S i) a'
      else argmin_from best_i best (S i) a'
  end.

Definition argmin (a : list float) : result nat :=
  match a with
  | [] => Raise (ValueError [Txt "attempt to get argmin of an empty sequence"])
  | x :: a' => Ok (argmin_from 0 x 1 a')
  end.

(** [np.argmax], with the same treatment of ties and of NaN. *)
Fixpoint argmax_from (best_i : nat) (best : float) (i : nat) (a : list float) : nat :=
  match a with
  | [] => best_i
  | x :: a' =>
      if isnan best then best_i
      else if negb (x <=? best) then argmax_from i x (S i) a'
      else argmax_from best_i best (S i) a'
  end.

Definition argmax (a : list float) : result nat :=
  match a with
  | [] => Raise (ValueError [Txt "attempt to get argmax of an empty sequence"])
  | x :: a' => Ok (argmax_from 0 x 1 a')
  end.

(** [np.round(a, 3)] on a finite number: the nearest multiple of 0.001,
    the even one of two that are equally near. *)
Definition round3 (x : float) : float :=
  match x with
  | Fin q =>
      let t := (q * 1000)%Q in
      let f := Qfloor t in
      let r := (t - inject_Z f)%Q in
      let n := if Qltb r (1 # 2) then f
               else if Qltb (1 # 2) r then (f + 1)%Z
               else if Z.even f then f else (f + 1)%Z in
      Fin (Qred (inject_Z n / 1000)%Q)
  | _ => x
  end.

(** A comprehension whose body runs in [M]. *)
Fixpoint for_each {A B : Type} (body : A -> M B) (l : list A) : M (list B) :=
  match l with
  | [] => mret []
  | x :: l' => y ← body x; ys ← for_each body l'; mret (y :: ys)
  end.

End Np.

(** ** Tholen 1984 ([classy/taxonomies/tholen.py]) *)

Module Tholen.

(** Central wavelengths of the ECAS colours *)
Definition WAVE : list float :=
  [Fin 0.337; Fin 0.359; Fin 0.437; Fin 0.550; Fin 0.701; Fin 0.853; Fin 0.948; Fin 1.041].

(** A row of the table that [load_classification] reads from
    [ecas/ecas_scores.csv]: the columns the classifier uses. *)
Record ecas_row : Type := EcasRow {
  PC1 : float; PC2 : float; PC3 : float; PC4 : float;
  PC5 : float; PC6 : float; PC7 : float;
  class_ : string
}.

(** [tholen[["PC1", "PC2", "PC3", "PC4", "PC5", "PC6", "PC7"]].values] *)
Definition values (r : ecas_row) : list float :=
  [PC1 r; PC2 r; PC3 r; PC4 r; PC5 r; PC6 r; PC7 r].

Definition str_in (s : string) (l : list string) : bool :=
  existsb (String.eqb s) l.

(** [class_[0]] of a string of two characters *)
Definition first_letter (s : string) : string :=
  match s with
  | String c _ => String c EmptyString
  | EmptyString => EmptyString
  end.

(** Resolve ambiguity the simple way: of a class of two letters keep the
    first. *)
Definition one_letter (class_ : string) : string :=
  if (String.length class_ =? 2)%nat then first_letter class_ else class_.

Section DecisionTree.

(** The table [load_classification()] returns. *)
Variable tholen : list ecas_row.
(** [np.log10] and the square root inside [np.linalg.norm]. *)
Variable log10 : float -> float.
Variable sqrtQ : Q -> Q.

(** [tholen.loc[i, "class_"]] *)
Definition loc_class (i : nat) : M string :=
  match tholen !! i with
  | Some r => mret (class_ r)
  | None => raise (IndexError "class_")
  end.

(** The list [distances]. *)
Definition distances : M (list float) :=
  Np.for_each
    (fun ecas_scores =>
       tholen_scores ← arr_attr "tholen_scores";
       d ← Np.lift (Np.sub tholen_scores ecas_scores);
       mret (Np.norm sqrtQ d))
    (map values tholen).

(** The class of the closest asteroid in PC space, before any
    disambiguation. *)
Definition closest_class : M string :=
  ds ← distances;
  i ← Np.lift (Np.argmin ds);
  loc_class i.

(** The albedo decision tree, entered with the class of the closest
    asteroid after its reduction to one letter. *)
Definition albedo_tree (class_ : string) : M string :=
  if str_in class_ ["E"; "M"; "P"; "X"] then
    pV ← num_attr "pV";
    if isnan pV then mret "X"
    else if (-2.5) * log10 pV >? 3 then mret "P"
    else if (-2.5) * log10 pV >? 1.4 then mret "M"
    else mret "E"
  else
    reassigned ←
      (if str_in class_ ["C"; "F"; "B"; "G"] then
         pV ← num_attr "pV";
         mret ((-2.5) * log10 pV <=? 1.4)
       else mret false);
    if reassigned : bool then mret "E"
    else if str_in class_ ["C"; "B"] then
      pV ← num_attr "pV";
      if (-2.5) * log10 pV >? 3 then mret "C" else mret "B"
    else mret class_.

Definition decision_tree : M string :=
  class_ ← closest_class;
  albedo_tree (one_letter class_).

End DecisionTree.

End Tholen.

(** ** DeMeo+ 2009 ([classy/taxonomies/demeo.py]) *)

Module Demeo.

(** Central wavelengths of the VisNIR spectra *)
Definition WAVE : list float := Np.arange 0.45 2.5 0.05.

(** Data mean of DeMeo+ 09 reflectance spectra *)
Definition DATA_MEAN : list float := map Fin [
  0.8840578; 0.94579985; 1.04016798; 1.07630094; 1.10387232; 1.10729138; 1.07101476;
  1.02252107; 0.99167561; 0.98766575; 1.00292349; 1.02223844; 1.04660108; 1.07201578;
  1.08967345; 1.10014259; 1.11101667; 1.12359452; 1.13128556; 1.13642896; 1.13467689;
  1.12810013; 1.11471935; 1.09802574; 1.07842635; 1.06127665; 1.04536074; 1.03360292;
  1.02395605; 1.01587389; 1.01034821; 1.00915786; 1.01078308; 1.01245031; 1.01298133;
  1.01314109; 1.01236654; 1.01140562; 1.01090655; 1.00955344
]%Q.

Definition EIGENVECTORS : list (list float) := map (map Fin) [
  [
    (-0.0766); (-0.0391); 0.0438; 0.0876; 0.1256; 0.1466; 0.1271; 0.0888; 0.0680;
    0.0857; 0.1371; 0.1921; 0.2322; 0.2566; 0.2704; 0.2787; 0.2849; 0.2852; 0.2782;
    0.2641; 0.2427; 0.2154; 0.1841; 0.1531; 0.1247; 0.1002; 0.0804; 0.0665; 0.0570;
    0.0513; 0.0502; 0.0538; 0.0607; 0.0690; 0.0778; 0.0859; 0.0934; 0.0997; 0.1050;
    0.1090
  ];
  [
    (-0.0643); (-0.0279); 0.0176; 0.0343; 0.0471; 0.0096; (-0.1186); (-0.2673);
    (-0.3645); (-0.3743); (-0.2899); (-0.1527); (-0.0381); 0.0306; 0.0708; 0.1053;
    0.1385; 0.1598; 0.1645; 0.1520; 0.1192; 0.0689; 0.0089; (-0.0514); (-0.1069);
    (-0.1532); (-0.1884); (-0.2136); (-0.2283); (-0.2317); (-0.2233); (-0.2023);
    (-0.1706); (-0.1302); (-0.0852); (-0.0406); 0.0023; 0.0438; 0.0832; 0.1177
  ];
  [
    (-0.2724); (-0.1270); 0.1128; 0.2104; 0.2726; 0.2475; 0.1486; 0.0420; (-0.0385);
    (-0.1168); (-0.2083); (-0.2809); (-0.2747); (-0.2169); (-0.1713); (-0.1427);
    (-0.1031); (-0.0407); 0.0243; 0.0930; 0.1562; 0.2021; 0.2231; 0.2215; 0.2043;
    0.1784; 0.1508; 0.1225; 0.0923; 0.0617; 0.0346; 0.0136; (-0.0038); (-0.0229);
    (-0.0447); (-0.0678); (-0.0911); (-0.1153); (-0.1389); (-0.1580)
  ];
  [
    0.3046; 0.1525; (-0.1486); (-0.2677); (-0.3386); (-0.3284); (-0.2392); (-0.1453);
    (-0.0921); (-0.0505); (-0.0289); (-0.0277); (-0.0160); 0.0077; 0.0304; 0.0450;
    0.0608; 0.0842; 0.1104; 0.1387; 0.1609; 0.1752; 0.1804; 0.1714; 0.1550; 0.1421;
    0.1279; 0.1095; 0.0868; 0.0610; 0.0358; 0.0103; (-0.0162); (-0.0476); (-0.0838);
    (-0.1225); (-0.1644); (-0.2068); (-0.2445); (-0.2708)
  ];
  [
    (-0.5174); (-0.1876); 0.0593; 0.0754; 0.0523; (-0.0231); (-0.1466); (-0.2569);
    (-0.2293); (-0.0657); 0.1077; 0.1717; 0.1685; 0.1611; 0.1463; 0.1061; 0.0533;
    0.0090; (-0.0429); (-0.0868); (-0.1188); (-0.1250); (-0.1158); (-0.0940);
    (-0.0757); (-0.0525); (-0.0271); 0.0104; 0.0473; 0.0785; 0.1050; 0.1249; 0.1241;
    0.0916; 0.0354; (-0.0327); (-0.1126); (-0.1993); (-0.2884); (-0.3767)
  ]
]%Q.

(** The lines of the decision tree; each gives [pc1] for a [pc2]. *)
Definition alpha (pc2 : float) : float := (-3) * pc2 - 0.28.
Definition beta (pc2 : float) : float := (-3) * pc2 + 0.35.
Definition gamma (pc2 : float) : float := (-3) * pc2 + 1.0.
Definition delta (pc2 : float) : float := (-3) * pc2 + 1.5.
Definition epsilon (pc2 : float) : float := Fin (1 / 3) * pc2 + 0.55.
Definition zeta (pc2 : float) : float := Fin (1 / 3) * pc2 - 0.10.
Definition eta (pc2 : float) : float := Fin (1 / 3) * pc2 - 0.40.
Definition theta (pc2 : float) : float := (-3) * pc2 + 0.7.

(** [logger.warning(msg)] *)
Definition warning (msg : message) : M unit := emit (Log WARNING msg).

(** [spec.class_demeo = c] followed by [return]. *)
Definition assign (c : string) : M value :=
  setattr "class_demeo" (VStr c);; mret VNone.

(** [spec.class_demeo = c], a warning whose text starts with the name of
    the spectrum, and [return]. *)
Definition assign_warn (c : string) (text : string) : M value :=
  setattr "class_demeo" (VStr c);;
  name ← getattr "name";
  warning [Val name; Txt text];;
  mret VNone.

(** [is_classifiable(spec)] *)
Definition is_classifiable : M bool :=
  wave ← arr_attr "wave";
  lo ← Np.lift (Np.amin wave);
  wave_lo ← Np.lift (Np.amin WAVE);
  out ←
    (if lo >? wave_lo then mret true
     else
       hi ← Np.lift (Np.amax wave);
       wave_hi ← Np.lift (Np.amax WAVE);
       mret (hi <? wave_hi));
  if out : bool then
    name ← getattr "name";
    lo ← Np.lift (Np.amin wave);
    hi ← Np.lift (Np.amax wave);
    emit (Log DEBUG [Txt "["; Val name;
                     Txt "]: Insufficient wavelength range for DeMeo taxonomy (";
                     Val (VNum lo); Txt " - "; Val (VNum hi); Txt ")"]);;
    mret false
  else mret true.

Definition demeo_s_complex : M value :=
  pc1 ← num_attr "pc0_demeo";
  pc2 ← num_attr "pc1_demeo";
  pc3 ← num_attr "pc2_demeo";
  pc4 ← num_attr "pc3_demeo";
  slope ← arr_attr "slope" ≫= index0;
  if (pc1 <? beta pc2) && (pc1 >? delta pc2) then
    if slope >=? 0.25 then assign "Sw" else assign "S"
  else if (pc1 >=? alpha pc2) && (pc1 <? beta pc2) && (pc1 >? eta pc2) && (pc1 <=? zeta pc2) then
    if slope >=? 0.25 then assign "Sqw" else assign "Sq"
  else if (pc1 >=? beta pc2) && (pc1 <? gamma pc2) && (pc1 >? eta pc2) && (pc1 <=? epsilon pc2) then
    if slope >=? 0.25 then assign "Srw" else assign "Sr"
  else if (pc1 >=? beta pc2) && (pc1 >? epsilon pc2) && (pc1 <? gamma pc2) then
    if slope >=? 0.25 then assign "Svw" else assign "Sv"
  else
    setattr "class_demeo" (VStr "S");;
    warning [Txt "DeMeo class is indeterminate S-complex member after VisIR resolution"];;
    mret VNone.

Definition demeo_c_and_x_complexes : M value :=
  pc1 ← num_attr "pc0_demeo";
  pc2 ← num_attr "pc1_demeo";
  pc3 ← num_attr "pc2_demeo";
  pc4 ← num_attr "pc3_demeo";
  pc5 ← num_attr "pc4_demeo";
  slope ← arr_attr "slope" ≫= index0;
  if (-0.2 <? slope) && (slope <? 0) && (-1.2 <? pc1) && (pc1 <? 0) && (pc4 <? 0) then
    assign "B"
  else if (0.2 <? slope) && (slope <? 0.38) then
    assign_warn "X" ": DeMeo+ 09 class is either X (no feature), Xk (0.8-1mu feature), Xe (0.49 mu feature), or C (1-1.3mu feature)"
  else
    cgh ←
      (if (0.01 <? pc4) && (pc4 <? 0.14) && (-0.75 <? pc1) && (pc1 <? -0.27) then
         refl0 ← arr_attr "refl" ≫= index0;
         mret (refl0 <? 0.92)
       else mret false);
    if cgh : bool then
      wave0 ← arr_attr "wave" ≫= index0;
      if negb (wave0 =? 0.45) then
        emit (Printed "First wavelength bin has to be at 0.45mu in DeMeo classification.");;
        assign EmptyString
      else
        assign_warn "Cgh" ": DeMeo+ 09 class is either Cgh (feature at 0.7mu) or Xk (0.8-1mu feature)"
    else if (0.01 <? pc4) && (pc4 <? 0.14) && (-0.75 <? pc1) && (pc1 <? -0.27) then
      assign_warn "Ch" ": DeMeo+ 09 class is either Ch (feature at 0.7mu) or Xk (0.8-1mu feature)"
    else if (-0.04 <? pc4) && (pc4 <? 0.02) && (-0.07 <? pc5) && (pc5 <? -0.04) then
      assign "Cb"
    else if (-0.85 <? pc1) && (pc1 <? -0.45) && (-0.06 <? pc5) && (pc5 <? -0.02) then
      assign_warn "C" ": DeMeo+ 09 class is either C (no feature), Ch (feature at 0.7mu), or Xk (0.8-1mu feature)"
    else if (0.02 <=? pc5) && (pc5 <? 0.1) && (-0.6 <? pc1) && (pc1 <? -0.16) then
      assign_warn "Cg" ": DeMeo+ 09 class is either Cg (no feature), Cgh (feature at 0.7mu), or Xk (0.8-1mu feature)"
    else if (-0.45 <=? pc1) && (pc1 <? 0.1) && (-0.06 <? pc5) && (pc5 <? 0.05) then
      assign_warn "Xk" ": DeMeo+ 09 class is either Xk, Xc, Xe, X, Ch."
    else if (-0.1 <=? pc1) && (pc1 <? 0.3) && (-0.5 <? pc2) && (pc2 <? -0.2) then
      assign_warn "Xe" ": DeMeo+ 09 class is either Xe or L."
    else
      setattr "class_demeo" (VStr EmptyString);;
      warning [Txt "DeMeo class is indeterminate C/X-complex member after VisIR resolution"];;
      mret VNone.

(** The part of [decision_tree] under the comment [# Vis-IR step 3]. *)
Definition vis_ir_step3 (pc1 pc2 pc3 slope : float) : M value :=
  if (0.38 <=? slope) && (slope <? 1.5) && (-0.44 <? pc1) && (pc1 <? 0.4) then
    assign_warn "D" ": DeMeo+ 09 class is either D (no 1mu feature) or A type (1 mu feature)"
  else if (0.25 <? slope) && (slope <? 0.38) && (-0.28 <? pc2) && (pc2 <? -0.2)
          && (-0.2 <? pc3) && (pc3 <? -0.12) then
    assign "T"
  else if (0.07 <? pc1) && (pc1 <? 1.0) && (-0.5 <? pc2) && (pc2 <? -0.15) then
    assign_warn "L" ": DeMeo+ 09 class is either L (no 0.49mu feature) or Xe type (0.49 mu feature)"
  else if (-0.075 <? pc3) && (pc3 <? 0.14) && (-0.2 <=? pc2) && (pc2 <? -0.1)
          && (-0.8 <? pc1) && (pc1 <? -0.1) then
    assign_warn "K" ": DeMeo+ 09 class is either K (no 0.49mu feature) or Xe type (0.49 mu feature)"
  else demeo_c_and_x_complexes.

(** The part under [# Vis-IR step 2], and step 3 when the point does not
    lie above the alpha line. *)
Definition vis_ir_step2 (pc1 pc2 pc3 slope : float) : M value :=
  if pc1 >? alpha pc2 then
    if pc1 >=? gamma pc2 then
      if slope >=? 0.25 then assign "Vw" else assign "V"
    else if (pc1 <=? eta pc2) && (pc1 >=? theta pc2) && (pc1 <? delta pc2) then
      assign "O"
    else if (pc1 <=? eta pc2) && (pc1 >=? alpha pc2) && (pc1 <? theta pc2) then
      if slope >=? 0.25 then assign "Qw" else assign "Q"
    else if (pc1 >=? eta pc2) && (pc1 >=? gamma pc2) && (pc1 <? delta pc2) then
      assign "R"
    else demeo_s_complex
  else vis_ir_step3 pc1 pc2 pc3 slope.

(** [pc1, pc2, pc3, pc4 = spec.scores_demeo[:4]] *)
Definition unpack4 (a : list float) : M (float * float * float * float) :=
  match take 4 a with
  | [a1; a2; a3; a4] => mret (a1, a2, a3, a4)
  | _ => raise (ValueError [Txt "not enough values to unpack (expected 4)"])
  end.

(** The part of [decision_tree] under [# Vis-IR step 1], and the steps
    after it when it returns no class. *)
Definition vis_ir_step1 (pc1 pc2 pc3 slope : float) : M value :=
  if (pc1 <? -0.3) && (pc2 >=? 0.2) && (slope >=? 0.4) then
    if (0.55 <=? slope) && (slope <? 1.5) then assign "A"
    else if (0.4 <=? slope) && (slope <? 0.55) then assign "Sa"
    else
      warning [Txt "DeMeo class is indeterminate after VisIR step 1"];;
      setattr "class_demeo" (VStr EmptyString);;
      vis_ir_step2 pc1 pc2 pc3 slope
  else vis_ir_step2 pc1 pc2 pc3 slope.

(** Implements the class decision tree given in Table B in Appendix B of
    DeMeo+ 2009. *)
Definition decision_tree : M value :=
  '(pc1, pc2, pc3, pc4) ← arr_attr "scores_demeo" ≫= unpack4;
  slope ← arr_attr "slope" ≫= index0;
  vis_ir_step1 pc1 pc2 pc3 slope.

Definition add_classification_results : M unit := mret tt.

(** [np.concatenate([spec.refl[:2], spec.refl[3:]])], from the two readings
    of [spec.refl]. *)
Definition without_third (head tail : list float) : list float :=
  (take 2 head ++ drop 3 tail)%list.

(** The first block of [classify]: a spectrum that is not marked as
    preprocessed is let through with a warning when its wavelengths are
    those of the grid, and refused otherwise.  The comparison
    [spec.wave != WAVE] is taken between the arrays as wholes. *)
Definition check_preprocessed : M unit :=
  preprocessed ← getattr "is_preprocessed_demeo" ≫= truthy;
  if negb preprocessed then
    name ← getattr "name";
    warning [Txt "["; Val name;
             Txt "]: Classifying following DeMeo+ 2009 but not preprocessed yet."];;
    wave ← arr_attr "wave";
    if negb (Np.array_eq wave WAVE) then
      name ← getattr "name";
      raise (ValueError [Txt "["; Val name;
                         Txt "]: The wavelength bins do not match the DeMeo+ 2009 sampling."])
    else mret tt
  else mret tt.

(** The block under [# Extract the reflectance and demean following
    DeMeo+ 2009]; [breakpoint()] stops for the debugger and goes on. *)
Definition demeaned : M (list float) :=
  head ← arr_attr "refl";
  tail ← arr_attr "refl";
  let refl := without_third head tail in
  emit Breakpoint;;
  Np.lift (Np.isub refl DATA_MEAN).

Section Classify.

(** The name [data] on the right of [EIGENVECTORS @ data.T] is bound
    nowhere in the module.  The array it stands for is a parameter;
    [None] is the module as it is written, where reading the name raises
    [NameError]. *)
Variable data : option (list float).

Definition classify : M unit :=
  check_preprocessed;;
  refl ← demeaned;
  (* Compute scores *)
  data ← match data with
         | Some d => mret d
         | None => raise (NameError "data")
         end;
  scores ← Np.lift (Np.matvec EIGENVECTORS data);
  setattr "scores_demeo" (VArr scores);;
  (* And compute the class *)
  class ← decision_tree;
  setattr "class_demeo" class;;
  add_classification_results.

End Classify.

End Demeo.

(** ** Mahlke+ 2022 ([classy/taxonomies/mahlke.py]) *)

Module Mahlke.

Definition LIMIT_VIS : Q := 0.45.
Definition LIMIT_NIR : Q := 2.45.
Definition STEP_NIR : Q := 0.05.
Definition STEP_VIS : Q := 0.025.
Definition VIS_NIR_TRANSITION : Q := 1.05.

Definition WAVE_GRID_VIS : list float :=
  Np.arange LIMIT_VIS (VIS_NIR_TRANSITION + STEP_VIS)%Q STEP_VIS.
Definition WAVE_GRID_NIR : list float :=
  Np.arange (VIS_NIR_TRANSITION + STEP_NIR)%Q (LIMIT_NIR + STEP_NIR)%Q STEP_NIR.
Definition WAVE : list float :=
  map Np.round3 (WAVE_GRID_VIS ++ WAVE_GRID_NIR)%list.

(** The fitted mixture of common factor analysers, as far as [classify]
    uses it.  One observation goes in, one row comes out. *)
Record MCFA : Type := {
  n_factors : nat;
  n_components : nat;
  predict_proba : list float -> list float;
  impute : list float -> list float;
  transform : list float -> list float
}.

(** A data frame of one row: its columns in order, each with its one value. *)
Definition frame := list (string * value).

(** [df[col] = v] *)
Fixpoint set_col (col : string) (v : value) (df : frame) : frame :=
  match df with
  | [] => [(col, v)]
  | (c, x) :: df' =>
      if String.eqb c col then (c, v) :: df' else (c, x) :: set_col col v df'
  end.

(** [df[col].values[0]] *)
Fixpoint get_col (col : string) (df : frame) : result value :=
  match df with
  | [] => Raise (KeyError col)
  | (c, x) :: df' => if String.eqb c col then Ok x else get_col col df'
  end.

(** [a[:, i]] on an array of one row *)
Definition column (a : list float) (i : nat) : result value :=
  match a !! i with
  | Some x => Ok (VNum x)
  | None => Raise (IndexError "index is out of bounds for axis 1")
  end.

Definition as_frame (v : value) : M frame :=
  match v with
  | VFrame df => mret df
  | _ => raise (TypeError "DataFrame expected")
  end.

(** A [for] loop over [l] whose body runs in [M] and updates [acc]. *)
Fixpoint for_loop {A B : Type} (body : B -> A -> M B) (l : list A) (acc : B) : M B :=
  match l with
  | [] => mret acc
  | x :: l' => acc' ← body acc x; for_loop body l' acc'
  end.

Section Classify.

(** What [mcfa.from_file] gives for the packaged model file. *)
Variable mcfa_from_file : result MCFA.
(** [defs.COLUMNS["all"]] and [defs.CLASSES] *)
Variable COLUMNS_all : list string.
Variable CLASSES : list string.
(** [decision_tree.assign_classes] *)
Variable assign_classes : frame -> frame.
(** The method [add_feature_flags] of the spectrum, which sees the
    attributes of the spectrum. *)
Variable add_feature_flags : gmap string value -> frame -> frame.

(** [data.load("mcfa")], which is [data._load_mcfa()] *)
Definition load_mcfa : M MCFA :=
  emit (Call "mcfa.from_file");;
  Np.lift mcfa_from_file.

(** The test that guards [classify]. *)
Definition out_of_range : M bool :=
  lo ← arr_attr "wave" ≫= (fun a => Np.lift (Np.amin a));
  if lo >=? 2.45 then mret true
  else
    hi ← arr_attr "wave" ≫= (fun a => Np.lift (Np.amax a));
    mret (hi <=? 0.45).

(** [classify] once the model is loaded. *)
Definition classify_with (model : MCFA) : M unit :=
  (* Get only the classification columns *)
  refl_pre ← arr_attr "refl_pre";
  pV_pre ← num_attr "pV_pre";
  let data_input := (refl_pre ++ [pV_pre])%list in
  let input_data : frame :=
    fold_left (fun df '(col, val) => set_col col (VNum val) df)
              (zip COLUMNS_all data_input) [] in
  (* Compute responsibility matrix based on observed values only *)
  emit (Call "model.predict_proba");;
  setattr "responsibility" (VArr (predict_proba model data_input));;
  (* Compute latent scores *)
  emit (Call "model.impute");;
  setattr "data_imputed" (VArr (impute model data_input));;
  data_imputed ← arr_attr "data_imputed";
  emit (Call "model.transform");;
  setattr "data_latent" (VArr (transform model data_imputed));;
  (* Add latent scores and responsibility to input data *)
  input_data ←
    for_loop (fun df factor =>
                data_latent ← arr_attr "data_latent";
                z ← Np.lift (column data_latent factor);
                mret (set_col ("z" ++ pretty factor) z df))
             (seq 0 (n_factors model)) input_data;
  responsibility ← arr_attr "responsibility";
  cluster ← Np.lift (Np.argmax responsibility);
  let input_data := set_col "cluster" (VNum (Fin (inject_Z (Z.of_nat cluster)))) input_data in
  input_data ←
    for_loop (fun df i =>
                responsibility ← arr_attr "responsibility";
                r ← Np.lift (column responsibility i);
                mret (set_col ("cluster_" ++ pretty i) r df))
             (seq 0 (n_components model)) input_data;
  (* Add asteroid classes based on decision tree *)
  emit (Call "decision_tree.assign_classes");;
  setattr "data_classified" (VFrame (assign_classes input_data));;
  for_loop (fun (_ : unit) class_ =>
              data_classified ← getattr "data_classified" ≫= as_frame;
              c ← Np.lift (get_col ("class_" ++ class_) data_classified);
              setattr ("class_" ++ class_) c)
           CLASSES tt;;
  (* Detect features *)
  data_classified ← getattr "data_classified" ≫= as_frame;
  emit (Call "spec.add_feature_flags");;
  flagged ← method (fun self => add_feature_flags self data_classified);
  setattr "data_classified" (VFrame flagged);;
  data_classified ← getattr "data_classified" ≫= as_frame;
  c ← Np.lift (get_col "class_" data_classified);
  setattr "class_" c;;
  emit (Printed "Add feature flag -> probability conversion here");;
  emit (Printed "Ch -> C, B, P").

(** [classify] after the test of the wavelength range. *)
Definition classify_in_range : M unit :=
  (* Instantiate MCFA model instance if not done yet *)
  model ← load_mcfa;
  classify_with model.

Definition classify : M unit :=
  reject ← out_of_range;
  if reject : bool then
    name ← getattr "name";
    emit (Log INFO [Val name;
                    Txt ":  Cannot classify following Mahlke+ 2022 - insufficient wavelength coverage."]);;
    setattr "class_mahlke" (VStr EmptyString)
  else classify_in_range.

End Classify.

End Mahlke.


(** ** What a computation reads and writes *)

Section Dependence.

(** The attributes left out of the comparison of two worlds. *)
Variable K : string -> Prop.

Definition agree (w1 w2 : world) : Prop :=
  forall k, ~ K k -> attrs w1 !! k = attrs w2 !! k.

(** [m] is determined by the attributes outside [K]: from two worlds that
    agree there it gives the same result and appends the same events, the
    worlds still agree afterwards, and an attribute in [K] is either
    written with the same value in both runs or left alone in both. *)
Definition det {A : Type} (m : M A) : Prop :=
  forall w1 w2, agree w1 w2 ->
    fst (m w1) = fst (m w2)
    /\ agree (snd (m w1)) (snd (m w2))
    /\ (exists ev, trace (snd (m w1)) = (trace w1 ++ ev)%list
                   /\ trace (snd (m w2)) = (trace w2 ++ ev)%list)
    /\ (forall k, K k ->
          attrs (snd (m w1)) !! k = attrs (snd (m w2)) !! k
          \/ (attrs (snd (m w1)) !! k = attrs w1 !! k
              /\ attrs (snd (m w2)) !! k = attrs w2 !! k)).

(** [m] assigns no attribute outside [K]. *)
Definition writes_only {A : Type} (m : M A) : Prop :=
  forall w k, ~ K k -> attrs (snd (m w)) !! k = attrs w !! k.

End Dependence.

(** [m] leaves the world as it found it. *)
Definition reads_only {A : Type} (m : M A) : Prop :=
  forall w, snd (m w) = w.

(** ** Stand-ins for numpy's functions in the examples *)

(** The square root to six decimals, rounded down; exact on the squares
    of numbers with at most six decimals. *)
Definition sqrt_floor (q : Q) : Q :=
  Qmake (Z.sqrt (Qnum q * Zpos (Qden q) * 10 ^ 12)) (Qden q * 10 ^ 6).

Fixpoint log10_up (fuel : nat) (q : Q) (k : Z) : Z :=
  match fuel with
  | O => k
  | S fuel' => if Qle_bool 10 q then log10_up fuel' (Qred (q / 10)) (k + 1) else k
  end.

Fixpoint log10_down (fuel : nat) (q : Q) (k : Z) : Z :=
  match fuel with
  | O => k
  | S fuel' => if Qltb q 1 then log10_down fuel' (Qred (q * 10)) (k - 1) else k
  end.

(** The decimal logarithm rounded down to an integer; exact on the powers
    of ten.  NaN goes to NaN, zero to minus infinity, a negative number to
    NaN, as [np.log10] does. *)
Definition log10_floor (x : float) : float :=
  match x with
  | NaN | NInf => NaN
  | PInf => PInf
  | Fin q =>
      if Qltb q 0 then NaN
      else if Qeq_bool q 0 then NInf
      else Fin (inject_Z (if Qle_bool 1 q then log10_up 400 q 0 else log10_down 400 q 0))
  end.

(** ** The Euclidean distance the Tholen classifier takes *)

Definition distance (sqrtQ : Q -> Q) (scores : list float) (r : Tholen.ecas_row) : float :=
  Np.norm sqrtQ (Np.zip_with_f fsub scores (Tholen.values r)).

Definition finite_row (r : Tholen.ecas_row) : Prop :=
  Forall (fun x => isfinite x = true) (Tholen.values r).

(** Example data: a table of three observations, and spectra. *)
Definition row_of (pcs : list Q) (c : string) : Tholen.ecas_row :=
  match map Fin pcs with
  | [a; b; c1; d; e; f; g] => Tholen.EcasRow a b c1 d e f g c
  | _ => Tholen.EcasRow NaN NaN NaN NaN NaN NaN NaN c
  end.

Definition ecas_example : list Tholen.ecas_row :=
  [ row_of [1; 0; 0; 0; 0; 0; 0] "S";
    row_of [0; 2; 0; 0; 0; 0; 0] "MU";
    row_of [0; 0; 3; 0; 0; 0; 0] "C";
    row_of [0; 0; 0; 4; 0; 0; 0] "G" ].


Definition spectrum (fields : list (string * value)) : world :=
  World (list_to_map fields) [].

(** Differences and sums of squares of finite vectors, on the rationals. *)
Fixpoint diffs (a b : list Q) : list Q :=
  match a, b with
  | x :: a', y :: b' => (x + - y)%Q :: diffs a' b'
  | _, _ => []
  end.

Definition squares (ds : list Q) : list Q := map (fun d => (d * d)%Q) ds.

Fixpoint Qsum (l : list Q) : Q :=
  match l with
  | [] => 0%Q
  | x :: l' => (x + Qsum l')%Q
  end.

Definition finite (l : list float) : Prop := Forall (fun x => isfinite x = true) l.

(** A spectrum whose scores are those of the second row of [ecas_example],
    with an albedo of 0.01, and one at the third row with no albedo known. *)
Definition spectrum_MU : world :=
  spectrum [("tholen_scores", VArr (map Fin [0; 2; 0; 0; 0; 0; 0]%Q));
            ("pV", VNum (Fin 0.01))].

Definition spectrum_C_nan : world :=
  spectrum [("tholen_scores", VArr (map Fin [0; 0; 3; 0; 0; 0; 0]%Q));
            ("pV", VNum NaN)].



(** ** Attributes the DeMeo classifier assigns *)

Definition is_class_demeo (k : string) : Prop := k = "class_demeo".

Definition is_demeo_result (k : string) : Prop :=
  k = "scores_demeo" \/ k = "class_demeo".


Definition no_attribute (k : string) : Prop := False.

(** ** What a run that returns leaves behind *)

(** Every run of [m] that starts in a world with [I] and returns keeps [I],
    and leaves a class [c] in [class_demeo] and new events [ev] with
    [ok c ev]. *)
Definition outcome (I : world -> Prop) (ok : string -> list event -> Prop)
    {A : Type} (m : M A) : Prop :=
  forall w a w', I w -> m w = (Ok a, w') ->
    I w' /\ exists c ev,
      attrs w' !! "class_demeo" = Some (VStr c)
      /\ trace w' = (trace w ++ ev)%list
      /\ ok c ev.

(** [I] does not depend on [class_demeo] or on the trace. *)
Definition stable (I : world -> Prop) : Prop :=
  forall w w', agree is_class_demeo w w' -> I w -> I w'.


(** The classes with and without the mark of weathering, and what is asked
    of the slope [s] when the tree leaves the class [c]. *)
Definition weathered_classes : list string := ["Vw"; "Qw"; "Sw"; "Sqw"; "Srw"; "Svw"].



(** The classes the DeMeo tree assigns without a sub-tree. *)
Definition direct_classes : list string :=
  ["A"; "Sa"; "Vw"; "V"; "O"; "Qw"; "Q"; "R"; "D"; "T"; "L"; "K"].

Definition no_pc0 (w : world) : Prop := attrs w !! "pc0_demeo" = None.

Definition directly_ok (c : string) (ev : list event) : Prop := In c direct_classes.

Definition any_world (w : world) : Prop := True.



(** A spectrum above the gamma line with a slope of 0.3. *)
Definition spectrum_Vw : world :=
  spectrum [("scores_demeo", VArr (map Fin [2; 0; 0; 0; 0]%Q));
            ("slope", VArr [Fin 0.3])].





(** The components the sub-trees read from attributes of their own. *)
Definition pc_attributes : list string :=
  ["pc0_demeo"; "pc1_demeo"; "pc2_demeo"; "pc3_demeo"; "pc4_demeo"].

(** A preprocessed spectrum of 41 points with a slope of 0.6, and an array
    for the name [data] that puts it in the range of the first step. *)
Definition spectrum_A : world :=
  spectrum [("is_preprocessed_demeo", VBool true);
            ("name", VStr "Ceres");
            ("refl", VArr (repeat (Fin 1) 41));
            ("slope", VArr [Fin 0.6])].

Definition data_A : list float := repeat (Fin (-1)) 40.

(** [m] returns nothing: every [return] in it is bare. *)
Definition returns_none (m : M value) : Prop :=
  forall w v w', m w = (Ok v, w') -> v = VNone.

(** ** The grid and the vectors of the DeMeo projection *)

(** 0.45 to 2.45 microns in steps of 0.05. *)
Definition demeo_grid : list Q :=
  [0.45; 0.50; 0.55; 0.60; 0.65; 0.70; 0.75; 0.80; 0.85; 0.90; 0.95;
   1.00; 1.05; 1.10; 1.15; 1.20; 1.25; 1.30; 1.35; 1.40; 1.45; 1.50;
   1.55; 1.60; 1.65; 1.70; 1.75; 1.80; 1.85; 1.90; 1.95; 2.00; 2.05;
   2.10; 2.15; 2.20; 2.25; 2.30; 2.35; 2.40; 2.45]%Q.

(** The index in [spec.refl] of the entry that comes to stand at index [i]
    once the third entry is left out. *)
Definition kept (i : nat) : nat := if (i <? 2)%nat then i else S i.

(** A preprocessed spectrum of 40 points. *)
Definition spectrum_40 : world :=
  spectrum [("is_preprocessed_demeo", VBool true);
            ("name", VStr "Ceres");
            ("refl", VArr (repeat (Fin 1) 40));
            ("slope", VArr [Fin 0.6])].

(** ** Example data for the Mahlke classifier *)

(** A model of two components and one factor, with fixed answers. *)
Definition toy_mcfa : Mahlke.MCFA := {|
  Mahlke.n_factors := 1;
  Mahlke.n_components := 2;
  Mahlke.predict_proba := fun _ => [Fin 0.25; Fin 0.75];
  Mahlke.impute := fun x => x;
  Mahlke.transform := fun _ => [Fin 0]
|}.

Definition toy_assign_classes (df : Mahlke.frame) : Mahlke.frame :=
  Mahlke.set_col "class_" (VStr "S") (Mahlke.set_col "class_S" (VNum (Fin 0.75)) df).

Definition toy_feature_flags (self : gmap string value) (df : Mahlke.frame) : Mahlke.frame := df.

Definition toy_classify : M unit :=
  Mahlke.classify (Ok toy_mcfa) ["refl_0"; "refl_1"; "pV"] ["S"]
    toy_assign_classes toy_feature_flags.

(** A spectrum observed from 0.5 to 1.0 microns only. *)
Definition spectrum_vis : world :=
  spectrum [("name", VStr "Ceres");
            ("wave", VArr [Fin 0.5; Fin 1.0]);
            ("refl_pre", VArr [Fin 1; Fin 1]);
            ("pV_pre", VNum (Fin (-1)))].




(** An unpreprocessed spectrum for the DeMeo classifier, on another grid. *)
Definition spectrum_off_grid : world :=
  spectrum [("is_preprocessed_demeo", VBool false);
            ("name", VStr "Ceres");
            ("wave", VArr [Fin 0.5; Fin 1.0]);
            ("refl", VArr [Fin 1; Fin 1])].





(** A run of [m] that raises has logged nothing. *)
Definition raises_silently {A : Type} (m : M A) : Prop :=
  forall w e w', m w = (Raise e, w') -> trace w' = trace w.


(** ** More of the Tholen decision tree *)

(** The classes the albedo tree looks at, and the classes it can give
    whatever the table holds. *)
Definition albedo_classes : list string := ["E"; "M"; "P"; "X"; "C"; "F"; "B"; "G"].
Definition albedo_results : list string := ["X"; "P"; "M"; "E"; "C"; "B"].

(** A table with classes of one, two and three letters. *)
Definition ecas_letters : list Tholen.ecas_row :=
  [ row_of [1; 0; 0; 0; 0; 0; 0] "S";
    row_of [0; 2; 0; 0; 0; 0; 0] "CGU";
    row_of [0; 0; 3; 0; 0; 0; 0] "CF";
    row_of [0; 0; 0; 4; 0; 0; 0] "B" ].

(** A spectrum with one score that is not a number. *)
Definition spectrum_nan_score : world :=
  spectrum [("tholen_scores", VArr [Fin 0; Fin 2; NaN; Fin 0; Fin 0; Fin 0; Fin 0]);
            ("pV", VNum (Fin 0.01))].

(** Spectra with the scores of a row of [ecas_letters], with and without an
    albedo. *)
Definition spectrum_at (pcs : list Q) (pV : option float) : world :=
  spectrum (("tholen_scores", VArr (map Fin pcs))
            :: match pV with Some x => [("pV", VNum x)] | None => [] end).

(** ** More of the DeMeo classifier *)

(** The classes that the decision tree and its two sub-trees can leave in
    [class_demeo]. *)
Definition demeo_assigned : list string :=
  ["A"; "Sa"; "Vw"; "V"; "O"; "Qw"; "Q"; "D"; "T"; "L"; "K";
   "S"; "Sqw"; "Sq"; "Srw"; "Sr"; "Svw"; "Sv";
   "B"; "X"; "Cgh"; "Ch"; "Cb"; "C"; "Cg"; "Xk"; "Xe"; EmptyString].

Definition assigned_ok (c : string) (ev : list event) : Prop := In c demeo_assigned.

(** The slope of the spectrum is NaN. *)
Definition slope_nan (w : world) : Prop :=
  exists rest, attrs w !! "slope" = Some (VArr (NaN :: rest)).

(** The classes left when every test of the slope fails. *)
Definition slopeless_classes : list string :=
  ["V"; "O"; "Q"; "L"; "K"; "S"; "Sq"; "Sr"; "Sv";
   "Cgh"; "Ch"; "Cb"; "C"; "Cg"; "Xk"; "Xe"; EmptyString].

Definition slopeless_ok (c : string) (ev : list event) : Prop := In c slopeless_classes.

(** Components and attributes that put a spectrum in the S-complex, with a
    slope that is NaN. *)
Definition spectrum_nan_slope : world :=
  spectrum [("scores_demeo", VArr (map Fin [2; 0; 0; 0; 0]%Q));
            ("slope", VArr [NaN])].

(** A spectrum of 41 points that differs from [spectrum_A] in its
    reflectance. *)
Definition spectrum_A2 : world :=
  spectrum [("is_preprocessed_demeo", VBool true);
            ("name", VStr "Ceres");
            ("refl", VArr (repeat (Fin 2) 41));
            ("slope", VArr [Fin 0.6])].

(** A spectrum with a wavelength that is not a number. *)
Definition spectrum_nan_wave : world :=
  spectrum [("name", VStr "Ceres");
            ("wave", VArr [Fin 0.5; NaN; Fin 1.0])].

(** ** More of the Mahlke classifier *)

(** The attributes [classify] assigns when it does not give up. *)
Definition mahlke_result (CLASSES : list string) (k : string) : Prop :=
  In k ["responsibility"; "data_imputed"; "data_latent"; "data_classified"; "class_"]
  \/ exists c, In c CLASSES /\ k = "class_" ++ c.

Definition mahlke_written (CLASSES : list string) (k : string) : Prop :=
  k = "class_mahlke" \/ mahlke_result CLASSES k.

(** The calls and the printed lines of a run of [classify] once the model
    is loaded. *)
Definition mahlke_events : list event :=
  [Call "model.predict_proba"; Call "model.impute"; Call "model.transform";
   Call "decision_tree.assign_classes"; Call "spec.add_feature_flags";
   Printed "Add feature flag -> probability conversion here";
   Printed "Ch -> C, B, P"].

(** The toy classifier of [toy_classify] once its model is loaded. *)
Definition toy_classify_with : M unit :=
  Mahlke.classify_with ["refl_0"; "refl_1"; "pV"] ["S"]
    toy_assign_classes toy_feature_flags toy_mcfa.



(** ** Preprocessing ([preprocess] in [demeo.py] and in [mahlke.py]) *)

Module DemeoPreprocessing.

Section Preprocess.

(** The methods of the spectrum that [preprocess] calls.  They are
    defined outside the classifier; each may read and change the
    spectrum, log, and raise. *)
Variable spec_smooth : M unit.
(** [spec.normalize(at=x)] *)
Variable spec_normalize : float -> M unit.
(** [spec.remove_slope(translate_to=x)] *)
Variable spec_remove_slope : float -> M unit.
(** [spec.resample(grid)] *)
Variable spec_resample : list float -> M unit.

(** Preprocess a spectrum for classification following DeMeo+ 2009. *)
Definition preprocess (smooth : bool) : M unit :=
  (* Smooth *)
  (if smooth then spec_smooth else mret tt);;
  (* Remove slope and renormalize *)
  spec_normalize 0.55;;
  spec_remove_slope 0.55;;
  (* Resample to DeMeo+ 2009 wavelength grid *)
  spec_resample Demeo.WAVE;;
  emit Breakpoint;;
  setattr "is_preprocessed_demeo" (VBool true).

End Preprocess.

End DemeoPreprocessing.

Module MahlkePreprocessing.

Section Preprocess.

Variable spec_detect_features : M unit.
(** [spec.resample(grid, resample_params)] *)
Variable spec_resample : list float -> value -> M unit.
(** [spec.normalize(method=m)] *)
Variable spec_normalize : string -> M unit.
Variable log10 : float -> float.

Definition preprocess (resample_params : value) : M unit :=
  spec_detect_features;;
  spec_resample Mahlke.WAVE resample_params;;
  spec_normalize "mixnorm";;
  pV ← num_attr "pV";
  setattr "pV_pre" (VNum (log10 pV)).

End Preprocess.

End MahlkePreprocessing.

(** Stand-ins for the methods of the spectrum: a resampling that stores the
    grid, a normalisation that stores two reflectances, and methods that do
    nothing. *)
Definition toy_resample (grid : list float) : M unit := setattr "wave" (VArr grid).
Definition toy_resample_with (grid : list float) (params : value) : M unit :=
  setattr "wave" (VArr grid).
Definition toy_mixnorm (method : string) : M unit :=
  setattr "refl_pre" (VArr [Fin 1; Fin 1]).
Definition toy_nothing : M unit := mret tt.
Definition toy_at (x : float) : M unit := mret tt.

Definition toy_demeo_preprocess : bool -> M unit :=
  DemeoPreprocessing.preprocess toy_nothing toy_at toy_at toy_resample.

Definition toy_mahlke_preprocess : M unit :=
  MahlkePreprocessing.preprocess toy_nothing toy_resample_with toy_mixnorm log10_floor VNone.

(** A spectrum as it is read, with an albedo of 0.1. *)
Definition spectrum_new : world :=
  spectrum [("name", VStr "Ceres"); ("pV", VNum (Fin 0.1))].

(** ** Package resources ([classy/data.py]) *)

Module Data.

(** A value given for the argument [cluster] of [load]. *)
Inductive arg : Type :=
| ANone
| ABool (b : bool)
| AInt (z : Z)
| AFloat (x : float)
| AStr (s : string).

(** [isinstance(a, int)]; a [bool] is an [int] in Python. *)
Definition isinstance_int (a : arg) : bool :=
  match a with
  | AInt _ | ABool _ => true
  | _ => false
  end.

(** [a != s] for a string [s] *)
Definition differs (a : arg) (s : string) : bool :=
  match a with
  | AStr t => negb (String.eqb t s)
  | _ => true
  end.

Section Load.

(** What a loader returns: a data frame, a model, a tuple. *)
Variable resource_ : Type.
(** The four loaders; each reads files of the package. *)
Variable _load_classy : M resource_.
Variable _load_gmm : arg -> M resource_.
Variable _load_mcfa : M resource_.
Variable _load_mixnorm : M resource_.

(** Load a classy package resource.  The result is [None] when the
    function ends without a [return]. *)
Definition load (resource : string) (cluster : arg) : M (option resource_) :=
  if String.eqb resource "classy" then
    r ← _load_classy; mret (Some r)
  else if String.eqb resource "gmm" then
    if negb (isinstance_int cluster) && differs cluster "emp" then
      raise (ValueError [Txt "The cluster number has to be specified when loading a GMM."])
    else
      r ← _load_gmm cluster; mret (Some r)
  else if String.eqb resource "mcfa" then
    r ← _load_mcfa; mret (Some r)
  else if String.eqb resource "mixnorm" then
    r ← _load_mixnorm; mret (Some r)
  else mret None.

End Load.

End Data.

(** The names of the resources that [load] knows. *)
Definition resources : list string := ["classy"; "gmm"; "mcfa"; "mixnorm"].

(** ** Utilities ([classy/utils/tools.py]) *)

Module Tools.

(** [np.abs] *)
Definition fabs (a : float) : float :=
  match a with
  | NaN => NaN
  | NInf | PInf => PInf
  | Fin q => Fin (Qabs q)
  end.

(** Return index of closest value to target value in array. *)
Definition find_nearest (array : list float) (value : float) : result nat :=
  Np.argmin (map (fun x => fabs (x - value)) array).

End Tools.

(** A table whose third row has a score that is not a number. *)
Definition ecas_nan_row : list Tholen.ecas_row :=
  [ row_of [1; 0; 0; 0; 0; 0; 0] "S";
    row_of [0; 2; 0; 0; 0; 0; 0] "M";
    Tholen.EcasRow (Fin 0) (Fin 0) NaN (Fin 0) (Fin 0) (Fin 0) (Fin 0) "D";
    row_of [0; 0; 0; 4; 0; 0; 0] "G" ].

(** The distance of [q] from [v]. *)
Definition Qdist (v q : Q) : Q := Qabs (q + - v).

(** Every element of the list is less than each one after it. *)
Definition rising (qs : list Q) : Prop :=
  forall i i' y y', (i < i')%nat -> qs !! i = Some y -> qs !! i' = Some y' -> (y < y')%Q.

(** ** The cache of spectra ([classy/cache.py]) *)

(** [a / b] *)
Definition fdiv (a b : float) : float :=
  match a, b with
  | NaN, _ | _, NaN => NaN
  | Fin x, Fin y =>
      if Qeq_bool y 0 then inf_times true x else Fin (x / y)
  | Fin _, (PInf | NInf) => Fin 0
  | PInf, Fin y => if Qltb y 0 then NInf else PInf
  | NInf, Fin y => if Qltb y 0 then PInf else NInf
  | (PInf | NInf), (PInf | NInf) => NaN
  end.

(** Two floats are the same number. *)
Definition same (a b : float) : Prop :=
  match a, b with
  | NaN, NaN | NInf, NInf | PInf, PInf => True
  | Fin x, Fin y => (x == y)%Q
  | _, _ => False
  end.

Module Cache.

(** A row of an index of spectra, a [pd.Series]: its entries by name. *)
Definition series := gmap string value.

(** [spec.a] on a row of the index *)
Definition field (spec : series) (a : string) : M value :=
  match spec !! a with
  | Some v => mret v
  | None => raise (AttributeError a)
  end.

(** [spec[a]] on a row of the index *)
Definition item (spec : series) (a : string) : M value :=
  match spec !! a with
  | Some v => mret v
  | None => raise (KeyError a)
  end.

(** [v == s] for a string [s] *)
Definition is_str (v : value) (s : string) : bool :=
  match v with
  | VStr t => String.eqb t s
  | _ => false
  end.

(** [a == b] between two entries of a table *)
Definition value_eqb (a b : value) : bool :=
  match a, b with
  | VStr s, VStr t => String.eqb s t
  | VNum x, VNum y => x =? y
  | VBool x, VBool y => Bool.eqb x y
  | _, _ => false
  end.

(** [l[0]] *)
Definition first {A : Type} (l : list A) : M A :=
  match l with
  | x :: _ => mret x
  | [] => raise (IndexError "index 0 is out of bounds")
  end.

Section LoadSpectra.

(** [classy.core.Spectrum] *)
Variable Spectrum : Type.
Variables load_akari_spectrum load_gaia_spectrum
          load_smass_spectrum load_ecas_spectrum : series -> M Spectrum.

(** The body of the loop of [load_spectra]: what is appended for a row
    of the index, a spectrum or the row itself. *)
Definition loaded (spec : series) : M (series + Spectrum) :=
  source ← field spec "source";
  if is_str source "AKARI" then
    s ← load_akari_spectrum spec; mret (inr s)
  else
    source ← field spec "source";
    if is_str source "Gaia" then
      s ← load_gaia_spectrum spec; mret (inr s)
    else
      source ← field spec "source";
      if is_str source "SMASS" then
        s ← load_smass_spectrum spec; mret (inr s)
      else
        source ← field spec "source";
        if is_str source "ECAS" then
          s ← load_ecas_spectrum spec; mret (inr s)
        else mret (inl spec).

(** Load a spectrum from a known source. *)
Definition load_spectra (idx_spectra : list series) : M (list (series + Spectrum)) :=
  Np.for_each loaded idx_spectra.

End LoadSpectra.

(** A row of the table of Gaia spectra: the columns [load_gaia_spectrum]
    reads. *)
Record gaia_row : Type := GaiaRow {
  name : value;
  wavelength : float;
  reflectance_spectrum : float;
  reflectance_spectrum_err : float;
  reflectance_spectrum_flag : Z;
  source_id : value;
  solution_id : value;
  denomination : value;
  nb_samples : value;
  num_of_spectra : value
}.

(** [refl[: len(corr)] *= corr]: the product in place of the first
    [len(corr)] elements; the shapes must agree. *)
Definition imul_head (refl corr : list float) : result (list float) :=
  let head := take (length corr) refl in
  if (length head =? length corr)%nat
  then Ok (Np.zip_with_f fmul head corr ++ drop (length corr) refl)%list
  else match corr with
       | [c] => Ok (map (fun x => x * c) head ++ drop 1 refl)%list
       | _ => Raise (ValueError [Txt "operands could not be broadcast together"])
       end.

(** An array of integers. *)
Definition ints (l : list Z) : value := VArr (map (fun z => Fin (inject_Z z)) l).

Section Gaia.

(** [pd.read_csv] on a file of the cache directory, named by its path
    below that directory. *)
Variable read_csv : message -> M (list gaia_row).
Variable Spectrum : Type.
(** [core.Spectrum], called with keyword arguments *)
Variable core_Spectrum : list (string * value) -> M Spectrum.

(** Correction by Tinaut-Ruano+ 2023 *)
Definition corr : list float := [Fin 1.07; Fin 1.05; Fin 1.02; Fin 1.01; Fin 1.00].

(** Load a cached Gaia spectrum. *)
Definition load_gaia_spectrum (spec : series) : M Spectrum :=
  filename ← field spec "filename";
  obs ← read_csv [Txt "gaia/"; Val filename; Txt ".csv"];
  name_ ← item spec "name";
  let obs := filter (fun r => value_eqb (name r) name_) obs in
  (* Apply correction by Tinaut-Ruano+ 2023 *)
  let refl := map reflectance_spectrum obs in
  refl ← Np.lift (imul_head refl corr);
  let wave := VArr (map (fun r => fdiv (wavelength r) 1000) obs) in
  asteroid_name ← item spec "name";
  asteroid_number ← field spec "number";
  source_id_ ← first (map source_id obs);
  number_mp ← first (map source_id obs);
  solution_id_ ← first (map solution_id obs);
  denomination_ ← first (map denomination obs);
  nb_samples_ ← first (map nb_samples obs);
  num_of_spectra_ ← first (map num_of_spectra obs);
  core_Spectrum
    [("wave", wave);
     ("wavelength", wave);
     ("refl", VArr refl);
     ("reflectance_spectrum", VArr refl);
     ("refl_err", VArr (map reflectance_spectrum_err obs));
     ("flag", ints (map reflectance_spectrum_flag obs));
     ("reflectance_spectrum_flag", ints (map reflectance_spectrum_flag obs));
     ("source", VStr "Gaia");
     ("name", VStr "Gaia");
     ("asteroid_name", asteroid_name);
     ("asteroid_number", asteroid_number);
     ("source_id", source_id_);
     ("number_mp", number_mp);
     ("solution_id", solution_id_);
     ("denomination", denomination_);
     ("nb_samples", nb_samples_);
     ("num_of_spectra", num_of_spectra_)].

End Gaia.

End Cache.

(** Example data for the cache: a file of Gaia spectra with six samples of
    one asteroid and one of another, and loaders that give back the name
    of the source. *)
Definition gaia_sample (n : string) (wl r : Q) : Cache.gaia_row :=
  Cache.GaiaRow (VStr n) (Fin wl) (Fin r) (Fin 0.01) 0
    (VStr "id") (VStr "sol") (VStr n) (VNum (Fin 1)) (VNum (Fin 1)).

Definition gaia_file : list Cache.gaia_row :=
  [ gaia_sample "Ceres" 374 1; gaia_sample "Ceres" 418 1; gaia_sample "Pallas" 374 2;
    gaia_sample "Ceres" 462 1; gaia_sample "Ceres" 506 1; gaia_sample "Ceres" 550 1;
    gaia_sample "Ceres" 594 1 ].

Definition gaia_entry (n : string) : Cache.series :=
  list_to_map [("name", VStr n); ("number", VNum (Fin 1)); ("filename", VStr "part_00");
               ("source", VStr "Gaia")].

Definition toy_read_csv (path : message) : M (list Cache.gaia_row) :=
  emit (Call "pd.read_csv");; mret gaia_file.

Definition toy_Spectrum (kwargs : list (string * value)) : M (list (string * value)) :=
  mret kwargs.

Definition toy_loader (source : string) (spec : Cache.series) : M string := mret source.

Definition toy_load_spectra : list Cache.series -> M (list (Cache.series + string)) :=
  Cache.load_spectra string (toy_loader "AKARI") (toy_loader "Gaia")
    (toy_loader "SMASS") (toy_loader "ECAS").

Definition mahlke_entry : Cache.series :=
  list_to_map [("name", VStr "Ceres"); ("source", VStr "Mahlke")].

(** The sources [load_spectra] has a loader for. *)
Definition has_loader (source : value) : bool :=
  Cache.is_str source "AKARI" || Cache.is_str source "Gaia"
  || Cache.is_str source "SMASS" || Cache.is_str source "ECAS".

(** ** The Eight Color Asteroid Survey in the cache *)

Module Ecas.

(** The seven colours of the survey, as the columns of the tables name
    them: [S_V_MEAN], [S_V_STD_DEV], [flag_S_V] and so on. *)
Inductive colour : Type := S_V | U_V | B_V | V_W | V_X | V_P | V_Z.

(** The eight filters of the loop over the flags: the colours and "V_V",
    for which the tables have no column. *)
Inductive filter_name : Type :=
| Colour (c : colour)
| V_V.

(** A row of [ecas_mean.csv]: for a colour [c] the columns [{c}_MEAN],
    [{c}_STD_DEV] and [flag_{c}], and the columns [name], [NIGHTS], [NOTE]. *)
Record mean_row : Type := MeanRow {
  name : value;
  MEAN : colour -> float;
  STD_DEV : colour -> float;
  flag_ : colour -> float;
  NIGHTS : value;
  NOTE : value
}.

Section LoadSpectrum.

(** [pd.read_csv] of [ecas/ecas_mean.csv] *)
Variable read_csv : M (list mean_row).
(** [core.Spectrum], called with keyword arguments: the attributes of
    the new spectrum *)
Variable core_Spectrum : list (string * value) -> M (gmap string value).
(** [np.power(10, x)], [np.log(10)] and [int(x)] *)
Variable power10 : float -> float.
Variable log_10 : float.
Variable int : float -> result Z.

(** [obs[col].values[0]] *)
Definition values0 {A : Type} (obs : list mean_row) (col : mean_row -> A) : M A :=
  Cache.first (map col obs).

(** The body of the two loops over the colours.  [exponent] gives the
    exponent of 10 for a colour [refl_c]: [-0.4 * (refl_c)] in the first
    loop and [-0.4 * (-refl_c)] in the second. *)
Definition reflectance (obs : list mean_row) (exponent : float -> float)
    (color : colour) : M (float * float) :=
  refl_c ← values0 obs (fun r => MEAN r color);
  let refl := power10 (exponent refl_c) in
  std ← values0 obs (fun r => STD_DEV r color);
  let re := Tools.fabs refl_c * Tools.fabs (0.4 * log_10 * std) in
  mret (refl, re).

(** The name of the attribute [flag_{color}] *)
Definition flag_name (color : filter_name) : string :=
  match color with
  | Colour S_V => "flag_S_V" | Colour U_V => "flag_U_V" | Colour B_V => "flag_B_V"
  | V_V => "flag_V_V"
  | Colour V_W => "flag_V_W" | Colour V_X => "flag_V_X" | Colour V_P => "flag_V_P"
  | Colour V_Z => "flag_V_Z"
  end.

(** The loop over the eight filters: it sets the attributes
    [flag_{color}] of the spectrum [self] and gathers the flags. *)
Definition set_flags (obs : list mean_row) (self : gmap string value)
    : M (gmap string value * list Z) :=
  Mahlke.for_loop
    (fun '(self, flags) color =>
       flag_value ←
         match color with
         | V_V => mret 0%Z
         | Colour c => x ← values0 obs (fun r => flag_ r c); Np.lift (int x)
         end;
       mret (<[flag_name color := VNum (Fin (inject_Z flag_value))]> self,
             (flags ++ [flag_value])%list))
    [Colour S_V; Colour U_V; Colour B_V; V_V;
     Colour V_W; Colour V_X; Colour V_P; Colour V_Z]
    (self, []).

(** Load a cached ECAS spectrum. *)
Definition load_ecas_spectrum (spec : Cache.series) : M (gmap string value) :=
  obs ← read_csv;
  name_ ← Cache.item spec "name";
  let obs := filter (fun r => Cache.value_eqb (name r) name_) obs in
  (* Convert colours to reflectances *)
  let wave := [Fin 0.337; Fin 0.359; Fin 0.437; Fin 0.550;
               Fin 0.701; Fin 0.853; Fin 0.948; Fin 1.041] in
  blue ← Np.for_each (reflectance obs (fun refl_c => (-0.4) * refl_c)) [S_V; U_V; B_V];
  red ← Np.for_each (reflectance obs (fun refl_c => (-0.4) * fopp refl_c))
          [V_W; V_X; V_P; V_Z];
  let refl := (map fst blue ++ [Fin 1] ++ map fst red)%list in
  let refl_err := (map snd blue ++ [Fin 0] ++ map snd red)%list in
  asteroid_name ← Cache.item spec "name";
  asteroid_number ← Cache.field spec "number";
  nights ← values0 obs NIGHTS;
  note ← values0 obs NOTE;
  self ← core_Spectrum
    [("wave", VArr wave);
     ("refl", VArr refl);
     ("refl_err", VArr refl_err);
     ("source", VStr "ECAS");
     ("name", VStr "ECAS");
     ("asteroid_name", asteroid_name);
     ("asteroid_number", asteroid_number);
     ("nights", nights);
     ("note", note)];
  '(self, flags) ← set_flags obs self;
  mret (<["flag" := Cache.ints flags]> self).

End LoadSpectrum.

(** *** [retrieve_ecas_spectra]: the flags and the table of scores *)

Definition colour_eqb (a b : colour) : bool :=
  match a, b with
  | S_V, S_V | U_V, U_V | B_V, B_V | V_W, V_W | V_X, V_X | V_P, V_P | V_Z, V_Z => true
  | _, _ => false
  end.

(** [x] where [mask] holds and what was there before elsewhere, in the
    column of the colour [c] of one row: [mean.loc[mask, col] = x]. *)
Definition assign_where (mask : bool) (c : colour) (x : float) (row : colour -> float)
    : colour -> float :=
  fun c' => if colour_eqb c c' && mask then x else row c'.

(** [df.replace(-9.999, np.nan)] on one entry *)
Definition replace_missing (x : float) : float :=
  if x =? -9.999 then NaN else x.

(** The block of [retrieve_ecas_spectra] between the comments
    [# Set saturated or missing colors to NaN] and
    [# Add quality flag following Tholen+ 1984], on one row of the table
    [mean]: from the seven columns [{c}_STD_DEV] as they are read to the
    column [flag] and the seven columns [flag_{c}], which hold NaN where
    nothing is assigned. *)
Definition quality_flags (STD_DEV : colour -> float) : Z * (colour -> float) :=
  (* Set saturated or missing colors to NaN *)
  let STD_DEV := fun c => replace_missing (STD_DEV c) in
  let flag := 0%Z in
  let STD_DEV := fun c => fdiv (STD_DEV c) 1000 in
  let flag :=
    if (STD_DEV S_V >? 0.095)
       || (STD_DEV U_V >? 0.074)
       || (STD_DEV B_V >? 0.039)
       || (STD_DEV V_W >? 0.034)
       || (STD_DEV V_X >? 0.039)
       || (STD_DEV V_P >? 0.044)
       || (STD_DEV V_Z >? 0.051)
    then 1%Z else flag in
  let flags :=
    fold_left
      (fun flags '(color, limit) =>
         let flags := assign_where (STD_DEV color >? Fin limit) color (Fin 1) flags in
         assign_where (STD_DEV color <=? Fin limit) color (Fin 0) flags)
      (zip [S_V; U_V; B_V; V_W; V_X; V_P; V_Z]
           [0.095; 0.074; 0.039; 0.034; 0.039; 0.044; 0.051]%Q)
      (fun _ => NaN) in
  (flag, flags).

(** [replace(-9.999, np.nan)] on a row of the table of scores *)
Definition replace_scores (r : Tholen.ecas_row) : Tholen.ecas_row :=
  Tholen.EcasRow
    (replace_missing (Tholen.PC1 r)) (replace_missing (Tholen.PC2 r))
    (replace_missing (Tholen.PC3 r)) (replace_missing (Tholen.PC4 r))
    (replace_missing (Tholen.PC5 r)) (replace_missing (Tholen.PC6 r))
    (replace_missing (Tholen.PC7 r)) (Tholen.class_ r).

(** [scores.replace(-9.999, np.nan).dropna(subset="PC1")]: the table that
    is written to [ecas_scores.csv], which the Tholen classifier reads. *)
Definition kept_scores (scores : list Tholen.ecas_row) : list Tholen.ecas_row :=
  filter (fun r => negb (isnan (Tholen.PC1 r))) (map replace_scores scores).

End Ecas.

(** Example data for the survey: a file with one asteroid, whose flag of
    the colour [V_X] is 1, and stand-ins for [np.power(10, x)] and [int]. *)
Definition ecas_mean_file : list Ecas.mean_row :=
  [ Ecas.MeanRow (VStr "Ceres") (fun _ => Fin 0) (fun _ => Fin 0.01)
      (fun c => match c with Ecas.V_X => Fin 1 | _ => Fin 0 end)
      (VNum (Fin 3)) VNone ].

Definition toy_read_mean : M (list Ecas.mean_row) :=
  emit (Call "pd.read_csv");; mret ecas_mean_file.

Definition toy_new_spectrum (kwargs : list (string * value)) : M (gmap string value) :=
  mret (list_to_map kwargs).

Definition toy_power10 (x : float) : float :=
  match x with
  | Fin q => if Qeq_bool q 0 then Fin 1 else NaN
  | _ => NaN
  end.

Definition toy_int (x : float) : result Z :=
  match x with
  | Fin q => Ok (if Qle_bool 0 q then Qfloor q else Qceiling q)
  | _ => Raise (ValueError [Txt "cannot convert float NaN to integer"])
  end.

Definition toy_load_ecas : Cache.series -> M (gmap string value) :=
  Ecas.load_ecas_spectrum toy_read_mean toy_new_spectrum toy_power10 (Fin 2.302585) toy_int.

(** Standard deviations as the table of the survey gives them, in
    thousandths: all small, and with one that is missing. *)
Definition std_good (c : Ecas.colour) : float := Fin 20.
Definition std_missing (c : Ecas.colour) : float :=
  match c with Ecas.B_V => Fin (-9.999) | Ecas.V_Z => Fin 60 | _ => Fin 20 end.

(** A table of scores whose second row lacks its third score. *)
Definition ecas_scores_read : list Tholen.ecas_row :=
  [ row_of [1; 0; 0; 0; 0; 0; 0] "S";
    row_of [0; 2; -9.999; 0; 0; 0; 0] "M";
    row_of [-9.999; -9.999; -9.999; -9.999; -9.999; -9.999; -9.999] "C";
    row_of [0; 0; 0; 4; 0; 0; 0] "G" ].

(** No score of the row is the mark of a missing value. *)
Definition no_missing (r : Tholen.ecas_row) : Prop :=
  Forall (fun x => (x =? -9.999) = false) (Tholen.values r).

(** * Properties *)

(** ** Comparisons of finite numbers *)

Lemma Qltb_lt (x y : Q) : Qltb x y = true <-> (x < y)%Q.
Proof.
  unfold Qltb. rewrite negb_true_iff. split.
  - intros H. apply Qnot_le_lt. intros Hle.
    apply Qle_bool_iff in Hle. congruence.
  - intros H. destruct (Qle_bool y x) eqn:E; [|reflexivity].
    apply Qle_bool_iff in E. exfalso. eapply Qlt_not_le; eauto.
Qed.


Lemma Qle_bool_gt (x y : Q) : Qle_bool x y = false <-> (y < x)%Q.
Proof.
  rewrite <- Qltb_lt. unfold Qltb. destruct (Qle_bool x y); simpl; split; congruence.
Qed.





Lemma flt_nan_l (a : float) : (NaN <? a) = false.
Proof. reflexivity. Qed.

Lemma flt_nan_r (a : float) : (a <? NaN) = false.
Proof. destruct a; reflexivity. Qed.

Lemma fle_nan_l (a : float) : (NaN <=? a) = false.
Proof. reflexivity. Qed.

Lemma fle_nan_r (a : float) : (a <=? NaN) = false.
Proof. destruct a; reflexivity. Qed.

Lemma fmul_nan_r (a : float) : a * NaN = NaN.
Proof. destruct a; reflexivity. Qed.

(** ** Running a computation step by step *)

Lemma bind_run {A B : Type} (m : M A) (f : A -> M B) (w : world) :
  (m ≫= f) w =
  match m w with
  | (Ok a, w') => f a w'
  | (Raise e, w') => (Raise e, w')
  end.
Proof. reflexivity. Qed.

Lemma bind_ok {A B : Type} (m : M A) (f : A -> M B) (w w' : world) (a : A) :
  m w = (Ok a, w') -> (m ≫= f) w = f a w'.
Proof. intros H. rewrite bind_run, H. reflexivity. Qed.

Lemma bind_raise {A B : Type} (m : M A) (f : A -> M B) (w w' : world) (e : exn) :
  m w = (Raise e, w') -> (m ≫= f) w = (Raise e, w').
Proof. intros H. rewrite bind_run, H. reflexivity. Qed.

(** A bind that ends well went through both of its parts. *)
Lemma bind_inv {A B : Type} (m : M A) (f : A -> M B) (w w2 : world) (b : B) :
  (m ≫= f) w = (Ok b, w2) ->
  exists a w1, m w = (Ok a, w1) /\ f a w1 = (Ok b, w2).
Proof.
  rewrite bind_run. destruct (m w) as [[a|e] w1]; [eauto | discriminate].
Qed.

Lemma getattr_some (a : string) (v : value) (w : world) :
  attrs w !! a = Some v -> getattr a w = (Ok v, w).
Proof. intros H. unfold getattr. rewrite H. reflexivity. Qed.

Lemma getattr_none (a : string) (w : world) :
  attrs w !! a = None -> getattr a w = (Raise (AttributeError a), w).
Proof. intros H. unfold getattr. rewrite H. reflexivity. Qed.

Lemma getattr_inv (a : string) (v : value) (w w' : world) :
  getattr a w = (Ok v, w') -> w' = w /\ attrs w !! a = Some v.
Proof.
  unfold getattr. destruct (attrs w !! a); intros H; inversion H; subst; auto.
Qed.

Lemma num_attr_some (a : string) (x : float) (w : world) :
  attrs w !! a = Some (VNum x) -> num_attr a w = (Ok x, w).
Proof. intros H. unfold num_attr. rewrite (bind_ok _ _ _ _ _ (getattr_some _ _ _ H)). reflexivity. Qed.

Lemma num_attr_none (a : string) (w : world) :
  attrs w !! a = None -> num_attr a w = (Raise (AttributeError a), w).
Proof. intros H. unfold num_attr. rewrite (bind_raise _ _ _ _ _ (getattr_none _ _ H)). reflexivity. Qed.

Lemma num_attr_inv (a : string) (x : float) (w w' : world) :
  num_attr a w = (Ok x, w') -> w' = w /\ attrs w !! a = Some (VNum x).
Proof.
  unfold num_attr. intros H. apply bind_inv in H as (v & w1 & Hg & Hv).
  apply getattr_inv in Hg as [-> Hg].
  destruct v; inversion Hv; subst; auto.
Qed.

Lemma arr_attr_some (a : string) (l : list float) (w : world) :
  attrs w !! a = Some (VArr l) -> arr_attr a w = (Ok l, w).
Proof. intros H. unfold arr_attr. rewrite (bind_ok _ _ _ _ _ (getattr_some _ _ _ H)). reflexivity. Qed.

Lemma arr_attr_inv (a : string) (l : list float) (w w' : world) :
  arr_attr a w = (Ok l, w') -> w' = w /\ attrs w !! a = Some (VArr l).
Proof.
  unfold arr_attr. intros H. apply bind_inv in H as (v & w1 & Hg & Hv).
  apply getattr_inv in Hg as [-> Hg].
  destruct v; inversion Hv; subst; auto.
Qed.

(** Reading never changes the world, whatever the outcome. *)
Lemma getattr_world (a : string) (w : world) : snd (getattr a w) = w.
Proof. unfold getattr. destruct (attrs w !! a); reflexivity. Qed.

Lemma num_attr_world (a : string) (w : world) : snd (num_attr a w) = w.
Proof.
  unfold num_attr. rewrite bind_run. unfold getattr.
  destruct (attrs w !! a) as [[]|]; reflexivity.
Qed.

Lemma arr_attr_world (a : string) (w : world) : snd (arr_attr a w) = w.
Proof.
  unfold arr_attr. rewrite bind_run. unfold getattr.
  destruct (attrs w !! a) as [[]|]; reflexivity.
Qed.

(** ** Rules for [det] and [writes_only] *)

Section DependenceRules.

Variable K : string -> Prop.

Lemma det_ret {A : Type} (a : A) : det K (mret a).
Proof.
  intros w1 w2 H. simpl. repeat split; auto.
  exists []. rewrite !app_nil_r. auto.
Qed.

Lemma det_raise {A : Type} (e : exn) : det K (@raise A e).
Proof.
  intros w1 w2 H. simpl. repeat split; auto.
  exists []. rewrite !app_nil_r. auto.
Qed.

Lemma det_lift {A : Type} (r : result A) : det K (Np.lift r).
Proof.
  intros w1 w2 H. simpl. repeat split; auto.
  exists []. rewrite !app_nil_r. auto.
Qed.

Lemma det_emit (e : event) : det K (emit e).
Proof.
  intros w1 w2 H. simpl. repeat split; auto.
  exists [e]. auto.
Qed.

Lemma det_getattr (a : string) : ~ K a -> det K (getattr a).
Proof.
  intros Ha w1 w2 H. unfold getattr. rewrite <- (H a Ha).
  destruct (attrs w1 !! a); simpl; repeat split; auto;
    exists []; rewrite !app_nil_r; auto.
Qed.

Lemma det_setattr (a : string) (v : value) : det K (setattr a v).
Proof.
  intros w1 w2 H. simpl. repeat split.
  - intros k Hk. simpl. destruct (decide (a = k)) as [->|Hne].
    + rewrite !lookup_insert_eq. reflexivity.
    + rewrite !lookup_insert_ne by assumption. auto.
  - exists []. rewrite !app_nil_r. auto.
  - intros k Hk. simpl. destruct (decide (a = k)) as [->|Hne].
    + left. rewrite !lookup_insert_eq. reflexivity.
    + right. rewrite !lookup_insert_ne by assumption. auto.
Qed.

Lemma det_bind {A B : Type} (m : M A) (f : A -> M B) :
  det K m -> (forall a, det K (f a)) -> det K (m ≫= f).
Proof.
  intros Hm Hf w1 w2 H.
  destruct (Hm w1 w2 H) as (Hr & Hag & (ev & Ht1 & Ht2) & Hk).
  rewrite !bind_run.
  destruct (m w1) as [r1 u1], (m w2) as [r2 u2]. simpl in *. subst r2.
  destruct r1 as [a|e]; simpl.
  - destruct (Hf a u1 u2 Hag) as (Hr' & Hag' & (ev' & Ht1' & Ht2') & Hk').
    repeat split; auto.
    + exists (ev ++ ev')%list. rewrite Ht1', Ht2', Ht1, Ht2, !app_assoc. auto.
    + intros k Hkk. destruct (Hk' k Hkk) as [E|[E1 E2]]; [left; exact E|].
      destruct (Hk k Hkk) as [F|[F1 F2]].
      * left. congruence.
      * right. split; congruence.
  - repeat split; auto. exists ev. auto.
Qed.

Lemma det_if {A : Type} (b : bool) (m1 m2 : M A) :
  det K m1 -> det K m2 -> det K (if b then m1 else m2).
Proof. destruct b; auto. Qed.

Lemma det_as_num (v : value) : det K (as_num v).
Proof. destruct v; simpl; auto using det_ret, det_raise. Qed.

Lemma det_as_arr (v : value) : det K (as_arr v).
Proof. destruct v; simpl; auto using det_ret, det_raise. Qed.

Lemma det_index0 (a : list float) : det K (index0 a).
Proof. destruct a; simpl; auto using det_ret, det_raise. Qed.

Lemma det_truthy (v : value) : det K (truthy v).
Proof.
  destruct v as [| | | |a|]; simpl; auto using det_ret, det_raise.
  destruct a as [|x [|y a]]; auto using det_ret, det_raise.
Qed.

Lemma det_num_attr (a : string) : ~ K a -> det K (num_attr a).
Proof. intros H. apply det_bind; auto using det_getattr, det_as_num. Qed.

Lemma det_arr_attr (a : string) : ~ K a -> det K (arr_attr a).
Proof. intros H. apply det_bind; auto using det_getattr, det_as_arr. Qed.


Lemma wo_ret {A : Type} (a : A) : writes_only K (mret a).
Proof. intros w k Hk. reflexivity. Qed.

Lemma wo_raise {A : Type} (e : exn) : writes_only K (@raise A e).
Proof. intros w k Hk. reflexivity. Qed.

Lemma wo_lift {A : Type} (r : result A) : writes_only K (Np.lift r).
Proof. intros w k Hk. reflexivity. Qed.

Lemma wo_emit (e : event) : writes_only K (emit e).
Proof. intros w k Hk. reflexivity. Qed.

Lemma wo_getattr (a : string) : writes_only K (getattr a).
Proof. intros w k Hk. rewrite getattr_world. reflexivity. Qed.

Lemma wo_setattr (a : string) (v : value) : K a -> writes_only K (setattr a v).
Proof.
  intros Ha w k Hk. simpl. apply lookup_insert_ne. intros ->. contradiction.
Qed.

Lemma wo_bind {A B : Type} (m : M A) (f : A -> M B) :
  writes_only K m -> (forall a, writes_only K (f a)) -> writes_only K (m ≫= f).
Proof.
  intros Hm Hf w k Hk. rewrite bind_run.
  specialize (Hm w k Hk). destruct (m w) as [[a|e] u]; simpl in *.
  - rewrite (Hf a u k Hk). exact Hm.
  - exact Hm.
Qed.

Lemma wo_if {A : Type} (b : bool) (m1 m2 : M A) :
  writes_only K m1 -> writes_only K m2 -> writes_only K (if b then m1 else m2).
Proof. destruct b; auto. Qed.

Lemma wo_as_num (v : value) : writes_only K (as_num v).
Proof. destruct v; simpl; auto using wo_ret, wo_raise. Qed.

Lemma wo_as_arr (v : value) : writes_only K (as_arr v).
Proof. destruct v; simpl; auto using wo_ret, wo_raise. Qed.

Lemma wo_index0 (a : list float) : writes_only K (index0 a).
Proof. destruct a; simpl; auto using wo_ret, wo_raise. Qed.

Lemma wo_truthy (v : value) : writes_only K (truthy v).
Proof.
  destruct v as [| | | |a|]; simpl; auto using wo_ret, wo_raise.
  destruct a as [|x [|y a]]; auto using wo_ret, wo_raise.
Qed.

Lemma wo_num_attr (a : string) : writes_only K (num_attr a).
Proof. apply wo_bind; auto using wo_getattr, wo_as_num. Qed.

Lemma wo_arr_attr (a : string) : writes_only K (arr_attr a).
Proof. apply wo_bind; auto using wo_getattr, wo_as_arr. Qed.

Lemma wo_for_each {A B : Type} (body : A -> M B) (l : list A) :
  (forall x, writes_only K (body x)) -> writes_only K (Np.for_each body l).
Proof.
  intros Hb. induction l as [|x l IH]; simpl.
  - apply wo_ret.
  - apply wo_bind; [apply Hb|]. intros y.
    apply wo_bind; [apply IH|]. intros ys. apply wo_ret.
Qed.

End DependenceRules.

(** ** Rules for [reads_only] *)

Lemma ro_ret {A : Type} (a : A) : reads_only (mret a).
Proof. intros w. reflexivity. Qed.

Lemma ro_raise {A : Type} (e : exn) : reads_only (@raise A e).
Proof. intros w. reflexivity. Qed.

Lemma ro_lift {A : Type} (r : result A) : reads_only (Np.lift r).
Proof. intros w. reflexivity. Qed.

Lemma ro_getattr (a : string) : reads_only (getattr a).
Proof. intros w. apply getattr_world. Qed.

Lemma ro_num_attr (a : string) : reads_only (num_attr a).
Proof. intros w. apply num_attr_world. Qed.

Lemma ro_arr_attr (a : string) : reads_only (arr_attr a).
Proof. intros w. apply arr_attr_world. Qed.

Lemma ro_bind {A B : Type} (m : M A) (f : A -> M B) :
  reads_only m -> (forall a, reads_only (f a)) -> reads_only (m ≫= f).
Proof.
  intros Hm Hf w. rewrite bind_run. specialize (Hm w).
  destruct (m w) as [[a|e] u]; simpl in *; subst u; [apply Hf | reflexivity].
Qed.

Lemma ro_if {A : Type} (b : bool) (m1 m2 : M A) :
  reads_only m1 -> reads_only m2 -> reads_only (if b then m1 else m2).
Proof. destruct b; auto. Qed.

Lemma ro_for_each {A B : Type} (body : A -> M B) (l : list A) :
  (forall x, reads_only (body x)) -> reads_only (Np.for_each body l).
Proof.
  intros Hb. induction l as [|x l IH]; simpl.
  - apply ro_ret.
  - apply ro_bind; [apply Hb|]. intros y.
    apply ro_bind; [apply IH|]. intros ys. apply ro_ret.
Qed.

(** A computation that only reads gives back the world it was given. *)
Lemma reads_only_run {A : Type} (m : M A) (w : world) :
  reads_only m -> m w = (run m w, w).
Proof.
  intros H. unfold run. specialize (H w). destruct (m w) as [r u].
  simpl in *. congruence.
Qed.

(** ** The Tholen decision tree *)

Section TholenFacts.

Variable tholen : list Tholen.ecas_row.
Variable log10 : float -> float.
Variable sqrtQ : Q -> Q.

Lemma tholen_distances_ro : reads_only (Tholen.distances tholen sqrtQ).
Proof.
  apply ro_for_each. intros r.
  apply ro_bind; [apply ro_arr_attr|]. intros s.
  apply ro_bind; [apply ro_lift|]. intros d. apply ro_ret.
Qed.

Lemma tholen_closest_ro : reads_only (Tholen.closest_class tholen sqrtQ).
Proof.
  apply ro_bind; [apply tholen_distances_ro|]. intros ds.
  apply ro_bind; [apply ro_lift|]. intros i.
  unfold Tholen.loc_class. destruct (tholen !! i); [apply ro_ret | apply ro_raise].
Qed.



(** Once the closest class is known, the tree is the albedo tree on its
    first letter. *)
Lemma tholen_tree_after_closest (w : world) (near : string) :
  run (Tholen.closest_class tholen sqrtQ) w = Ok near ->
  Tholen.decision_tree tholen log10 sqrtQ w =
  Tholen.albedo_tree log10 (Tholen.one_letter near) w.
Proof.
  intros H. unfold Tholen.decision_tree.
  rewrite bind_run, (reads_only_run _ w tholen_closest_ro), H. reflexivity.
Qed.

Lemma albedo_tree_emxp (w : world) (c : string) (pV : float) :
  Tholen.str_in c ["E"; "M"; "P"; "X"] = true ->
  attrs w !! "pV" = Some (VNum pV) ->
  Tholen.albedo_tree log10 c w =
  (Ok (if isnan pV then "X"
       else if (-2.5) * log10 pV >? 3 then "P"
       else if (-2.5) * log10 pV >? 1.4 then "M"
       else "E"), w).
Proof.
  intros Hc HpV. unfold Tholen.albedo_tree. rewrite Hc.
  rewrite (bind_ok _ _ _ _ _ (num_attr_some _ _ _ HpV)).
  destruct (isnan pV); [reflexivity|].
  destruct ((-2.5) * log10 pV >? 3); [reflexivity|].
  destruct ((-2.5) * log10 pV >? 1.4); reflexivity.
Qed.

Lemma albedo_tree_nan (w : world) (c : string) :
  log10 NaN = NaN ->
  attrs w !! "pV" = Some (VNum NaN) ->
  Tholen.albedo_tree log10 c w =
  (Ok (if Tholen.str_in c ["E"; "M"; "P"; "X"] then "X"
       else if Tholen.str_in c ["C"; "B"] then "B"
       else c), w).
Proof.
  intros Hlog HpV. unfold Tholen.albedo_tree.
  destruct (Tholen.str_in c ["E"; "M"; "P"; "X"]);
    [|destruct (Tholen.str_in c ["C"; "F"; "B"; "G"]);
      destruct (Tholen.str_in c ["C"; "B"])];
    rewrite ?bind_run, ?(num_attr_some _ _ _ HpV), ?Hlog; simpl;
    rewrite ?bind_run, ?(num_attr_some _ _ _ HpV), ?Hlog; reflexivity.
Qed.

End TholenFacts.

(** C3.  In the Tholen decision tree, when the class of the nearest
    reference observation (reduced to its first letter) is E, M, P or X, the
    result depends on the albedo alone: "X" if [pV] is NaN; otherwise "P"
    if [-2.5 * log10(pV) > 3], otherwise "M" if it is [> 1.4], otherwise "E".
    In particular the values 3.5, 2.0 and 1.0 give "P", "M" and "E". *)
Theorem tholen_albedo_subtree
    (tholen : list Tholen.ecas_row) (log10 : float -> float) (sqrtQ : Q -> Q)
    (w : world) (near : string) (pV : float) :
  run (Tholen.closest_class tholen sqrtQ) w = Ok near ->
  Tholen.str_in (Tholen.one_letter near) ["E"; "M"; "P"; "X"] = true ->
  attrs w !! "pV" = Some (VNum pV) ->
  let mag := (-2.5) * log10 pV in
  let answer := Tholen.decision_tree tholen log10 sqrtQ w in
  (isnan pV = true -> answer = (Ok "X", w))
  /\ (isnan pV = false -> (mag >? 3) = true -> answer = (Ok "P", w))
  /\ (isnan pV = false -> (mag >? 3) = false -> (mag >? 1.4) = true ->
      answer = (Ok "M", w))
  /\ (isnan pV = false -> (mag >? 3) = false -> (mag >? 1.4) = false ->
      answer = (Ok "E", w))
  /\ (isnan pV = false -> mag = Fin 3.5 -> answer = (Ok "P", w))
  /\ (isnan pV = false -> mag = Fin 2.0 -> answer = (Ok "M", w))
  /\ (isnan pV = false -> mag = Fin 1.0 -> answer = (Ok "E", w)).
Proof.
  intros Hnear Hc HpV mag answer. subst answer.
  rewrite (tholen_tree_after_closest _ _ _ _ _ Hnear).
  rewrite (albedo_tree_emxp _ _ _ _ Hc HpV). fold mag.
  repeat split.
  - intros ->. reflexivity.
  - intros -> ->. reflexivity.
  - intros -> -> ->. reflexivity.
  - intros -> -> ->. reflexivity.
  - intros -> ->. reflexivity.
  - intros -> ->. reflexivity.
  - intros -> ->. reflexivity.
Qed.

(** C9.  In the Tholen decision tree, with [pV] NaN (so that
    [np.log10(pV)] is NaN too): a nearest class C or B gives "B", because
    neither [<= 1.4] nor [> 3] holds of NaN; a nearest class F or G is
    returned as it is; only E, M, P and X test for the NaN and give "X". *)
Theorem tholen_nan_albedo
    (tholen : list Tholen.ecas_row) (log10 : float -> float) (sqrtQ : Q -> Q)
    (w : world) (near : string) :
  log10 NaN = NaN ->
  run (Tholen.closest_class tholen sqrtQ) w = Ok near ->
  attrs w !! "pV" = Some (VNum NaN) ->
  let c := Tholen.one_letter near in
  let answer := Tholen.decision_tree tholen log10 sqrtQ w in
  ((-2.5) * log10 NaN <=? 1.4) = false
  /\ ((-2.5) * log10 NaN >? 3) = false
  /\ (c = "C" \/ c = "B" -> answer = (Ok "B", w))
  /\ (c = "F" \/ c = "G" -> answer = (Ok c, w))
  /\ (c = "E" \/ c = "M" \/ c = "P" \/ c = "X" -> answer = (Ok "X", w)).
Proof.
  intros Hlog Hnear HpV c answer. subst answer.
  rewrite (tholen_tree_after_closest _ _ _ _ _ Hnear).
  rewrite (albedo_tree_nan _ _ _ Hlog HpV). fold c.
  rewrite Hlog. repeat split.
  - intros [-> | ->]; reflexivity.
  - intros [-> | ->]; reflexivity.
  - intros [-> | [-> | [-> | ->]]]; reflexivity.
Qed.

(** ** Distances between finite vectors *)

Lemma finite_map_Fin (l : list float) :
  finite l -> exists qs, l = map Fin qs.
Proof.
  induction 1 as [|x l Hx _ [qs ->]].
  - exists []. reflexivity.
  - destruct x; try discriminate. exists (q :: qs). reflexivity.
Qed.

Lemma zip_sub_Fin (a b : list Q) :
  Np.zip_with_f fsub (map Fin a) (map Fin b) = map Fin (diffs a b).
Proof.
  revert b. induction a as [|x a IH]; intros [|y b]; simpl; try reflexivity.
  rewrite IH. reflexivity.
Qed.

Lemma zip_mul_Fin (ds : list Q) :
  Np.zip_with_f fmul (map Fin ds) (map Fin ds) = map Fin (squares ds).
Proof.
  induction ds as [|d ds IH]; simpl; [reflexivity|]. rewrite IH. reflexivity.
Qed.

Lemma fold_fadd_Fin (l : list Q) (acc : Q) :
  exists s, fold_left fadd (map Fin l) (Fin acc) = Fin s /\ (s == acc + Qsum l)%Q.
Proof.
  revert acc. induction l as [|x l IH]; intros acc; simpl.
  - exists acc. split; [reflexivity | lra].
  - destruct (IH (acc + x)%Q) as (s & Hs & Hq).
    exists s. split; [exact Hs | lra].
Qed.

Lemma Qsum_squares_nonneg (ds : list Q) : (0 <= Qsum (squares ds))%Q.
Proof.
  induction ds as [|d ds IH]; simpl; [lra | nra].
Qed.



Section Norm.

Variable sqrtQ : Q -> Q.
Hypothesis sqrt_zero : forall q, (q == 0)%Q -> (sqrtQ q == 0)%Q.
Hypothesis sqrt_pos : forall q, (0 < q)%Q -> (0 < sqrtQ q)%Q.


End Norm.

(** ** [np.argmin] on finite numbers *)

Lemma argmin_from_Fin (ds : list Q) (best_i : nat) (b : Q) (i : nat) :
  let j := Np.argmin_from best_i (Fin b) i (map Fin ds) in
  (j = best_i /\ forall k d, ds !! k = Some d -> (b <= d)%Q)
  \/ (exists k d, j = (i + k)%nat /\ ds !! k = Some d /\ (d < b)%Q
                  /\ (forall k' d', ds !! k' = Some d' -> (d <= d')%Q)
                  /\ (forall k' d', (k' < k)%nat -> ds !! k' = Some d' -> (d < d')%Q)).
Proof.
  revert best_i b i. induction ds as [|x ds IH]; intros best_i b i; simpl.
  - left. split; [reflexivity|]. intros k d H. rewrite lookup_nil in H. discriminate.
  - destruct (Qle_bool b x) eqn:E; simpl.
    + apply Qle_bool_iff in E.
      destruct (IH best_i b (S i)) as [[Hj Hall] | (k & d & Hj & Hk & Hlt & Hmin & Hfirst)].
      * left. split; [exact Hj|]. intros [|k] d H; simpl in H.
        -- injection H as <-. exact E.
        -- eauto.
      * right. exists (S k), d. repeat split.
        -- rewrite Hj. lia.
        -- exact Hk.
        -- exact Hlt.
        -- intros [|k'] d' H; simpl in H; [injection H as <-; lra | eauto].
        -- intros [|k'] d' Hlt' H; simpl in H; [injection H as <-; lra|].
           apply (Hfirst k'); [lia | exact H].
    + apply Qle_bool_gt in E.
      destruct (IH i x (S i)) as [[Hj Hall] | (k & d & Hj & Hk & Hlt & Hmin & Hfirst)].
      * right. exists 0%nat, x. repeat split.
        -- rewrite Hj. lia.
        -- exact E.
        -- intros [|k'] d' H; simpl in H; [injection H as <-; lra | eauto].
        -- intros k' d' Hlt'. lia.
      * right. exists (S k), d. repeat split.
        -- rewrite Hj. lia.
        -- exact Hk.
        -- lra.
        -- intros [|k'] d' H; simpl in H; [injection H as <-; lra | eauto].
        -- intros [|k'] d' Hlt' H; simpl in H; [injection H as <-; lra|].
           apply (Hfirst k'); [lia | exact H].
Qed.

(** [np.argmin] gives the first index of a least element. *)
Lemma argmin_Fin (ds : list Q) (j : nat) :
  Np.argmin (map Fin ds) = Ok j ->
  exists d, ds !! j = Some d
            /\ (forall k d', ds !! k = Some d' -> (d <= d')%Q)
            /\ (forall k d', (k < j)%nat -> ds !! k = Some d' -> (d < d')%Q).
Proof.
  destruct ds as [|d0 ds]; simpl; [discriminate|].
  intros H. injection H as <-.
  destruct (argmin_from_Fin ds 0 d0 1) as [[Hj Hall] | (k & d & Hj & Hk & Hlt & Hmin & Hfirst)];
    simpl in *.
  - rewrite Hj. exists d0. repeat split.
    + intros [|k] d' H; simpl in H; [injection H as <-; lra | eauto].
    + intros k d' Hlt. lia.
  - rewrite Hj. exists d. repeat split.
    + exact Hk.
    + intros [|k'] d' H; simpl in H; [injection H as <-; lra | eauto].
    + intros [|k'] d' Hlt' H; simpl in H; [injection H as <-; lra|].
      apply (Hfirst k'); [lia | exact H].
  
Qed.

Lemma argmin_nonempty (a : list float) :
  a <> [] -> exists j, Np.argmin a = Ok j.
Proof. destruct a; [congruence | simpl; eauto]. Qed.



(** ** The nearest reference observation *)


Lemma sub_same_length (a b : list float) :
  length a = length b -> Np.sub a b = Ok (Np.zip_with_f fsub a b).
Proof. intros H. unfold Np.sub. rewrite H, Nat.eqb_refl. reflexivity. Qed.

Section Nearest.

Variable tholen : list Tholen.ecas_row.
Variable sqrtQ : Q -> Q.
Hypothesis sqrt_zero : forall q, (q == 0)%Q -> (sqrtQ q == 0)%Q.
Hypothesis sqrt_pos : forall q, (0 < q)%Q -> (0 < sqrtQ q)%Q.

Variable w : world.
Variable scores : list float.
Hypothesis scores_attr : attrs w !! "tholen_scores" = Some (VArr scores).
Hypothesis scores_len : length scores = 7%nat.

Lemma distances_run :
  Tholen.distances tholen sqrtQ w = (Ok (map (distance sqrtQ scores) tholen), w).
Proof.
  unfold Tholen.distances. induction tholen as [|r rows IH]; simpl; [reflexivity|].
  rewrite bind_run, (bind_ok _ _ _ _ _ (arr_attr_some _ _ _ scores_attr)).
  rewrite (sub_same_length scores (Tholen.values r)) by (rewrite scores_len; reflexivity).
  rewrite (bind_ok _ _ _ w (Np.zip_with_f fsub scores (Tholen.values r))) by reflexivity.
  unfold mret at 1, M_ret at 1. cbv beta iota.
  rewrite bind_run, IH. reflexivity.
Qed.

Hypothesis scores_finite : finite scores.
Hypothesis rows_finite : Forall finite_row tholen.



Hypothesis table_nonempty : tholen <> [].


End Nearest.




Lemma tholen_albedo_subtree_witness :
  Tholen.decision_tree ecas_example log10_floor sqrt_floor spectrum_MU
  = (Ok "P", spectrum_MU).
Proof.
  destruct (tholen_albedo_subtree ecas_example log10_floor sqrt_floor
              spectrum_MU "MU" (Fin 0.01)) as (_ & HP & _).
  - vm_compute. reflexivity.
  - reflexivity.
  - vm_compute. reflexivity.
  - apply HP; reflexivity.
Defined.

Lemma tholen_nan_albedo_witness :
  Tholen.decision_tree ecas_example log10_floor sqrt_floor spectrum_C_nan
  = (Ok "B", spectrum_C_nan).
Proof.
  destruct (tholen_nan_albedo ecas_example log10_floor sqrt_floor
              spectrum_C_nan "C") as (_ & _ & HB & _).
  - reflexivity.
  - vm_compute. reflexivity.
  - vm_compute. reflexivity.
  - apply HB. left. reflexivity.
Defined.



(** ** What the DeMeo decision tree reads and writes *)

Ltac dependence_step :=
  first
    [ apply det_ret | apply det_raise | apply det_emit | apply det_setattr
    | apply det_lift | apply det_index0 | apply det_as_num | apply det_as_arr
    | apply det_truthy
    | apply det_num_attr; unfold is_class_demeo; discriminate
    | apply det_arr_attr; unfold is_class_demeo; discriminate
    | apply det_getattr; unfold is_class_demeo; discriminate
    | apply det_if
    | apply det_bind; [|intros ?]
    | apply wo_ret | apply wo_raise | apply wo_emit | apply wo_lift
    | apply wo_index0 | apply wo_as_num | apply wo_as_arr | apply wo_truthy
    | apply wo_num_attr | apply wo_arr_attr | apply wo_getattr
    | apply wo_setattr; unfold is_class_demeo, is_demeo_result; auto; fail
    | apply wo_if
    | apply wo_bind; [|intros ?] ].

Ltac dependence := repeat dependence_step.









Lemma wo_assign (K : string -> Prop) (c : string) :
  K "class_demeo" -> writes_only K (Demeo.assign c).
Proof.
  intros H. unfold Demeo.assign.
  apply wo_bind; [apply wo_setattr; exact H | intros; apply wo_ret].
Qed.

Lemma wo_assign_warn (K : string -> Prop) (c text : string) :
  K "class_demeo" -> writes_only K (Demeo.assign_warn c text).
Proof.
  intros H. unfold Demeo.assign_warn, Demeo.warning.
  apply wo_bind; [apply wo_setattr; exact H | intros].
  dependence.
Qed.

Section DemeoWrites.

Variable K : string -> Prop.
Hypothesis K_class : K "class_demeo".

Lemma wo_s_complex : writes_only K Demeo.demeo_s_complex.
Proof.
  unfold Demeo.demeo_s_complex, Demeo.warning.
  repeat first [ apply wo_assign; exact K_class
               | apply wo_setattr; exact K_class | dependence_step ].
Qed.

Lemma wo_c_and_x : writes_only K Demeo.demeo_c_and_x_complexes.
Proof.
  unfold Demeo.demeo_c_and_x_complexes, Demeo.warning.
  repeat first [ apply wo_assign; exact K_class
               | apply wo_assign_warn; exact K_class
               | apply wo_setattr; exact K_class | dependence_step ].
Qed.

Lemma wo_step3 (pc1 pc2 pc3 slope : float) :
  writes_only K (Demeo.vis_ir_step3 pc1 pc2 pc3 slope).
Proof.
  unfold Demeo.vis_ir_step3.
  repeat first [ apply wo_assign; exact K_class
               | apply wo_assign_warn; exact K_class
               | apply wo_c_and_x | dependence_step ].
Qed.

Lemma wo_step2 (pc1 pc2 pc3 slope : float) :
  writes_only K (Demeo.vis_ir_step2 pc1 pc2 pc3 slope).
Proof.
  unfold Demeo.vis_ir_step2.
  repeat first [ apply wo_assign; exact K_class
               | apply wo_s_complex | apply wo_step3 | dependence_step ].
Qed.

Lemma wo_unpack4 (a : list float) : writes_only K (Demeo.unpack4 a).
Proof.
  unfold Demeo.unpack4.
  destruct (take 4 a) as [|? [|? [|? [|? [|]]]]]; auto using wo_ret, wo_raise.
Qed.

Lemma wo_demeo_tree : writes_only K Demeo.decision_tree.
Proof.
  unfold Demeo.decision_tree, Demeo.vis_ir_step1, Demeo.warning.
  apply wo_bind; [apply wo_bind; [dependence | intros; apply wo_unpack4]|].
  intros [[[pc1 pc2] pc3] pc4].
  repeat first [ apply wo_assign; exact K_class
               | apply wo_setattr; exact K_class
               | apply wo_step2 | dependence_step ].
Qed.

Hypothesis K_scores : K "scores_demeo".

Lemma wo_demeo_classify (data : option (list float)) :
  writes_only K (Demeo.classify data).
Proof.
  unfold Demeo.classify, Demeo.check_preprocessed, Demeo.demeaned, Demeo.warning,
    Demeo.add_classification_results.
  repeat first [ apply wo_demeo_tree
               | apply wo_setattr; first [exact K_class | exact K_scores]
               | dependence_step
               | destruct data ].
Qed.

End DemeoWrites.

(** ** What the Tholen tree and the Mahlke classifier depend on *)




Lemma agree_all (w1 w2 : world) : agree no_attribute w1 w2 -> attrs w1 = attrs w2.
Proof. intros H. apply map_eq. intros k. apply H. intros []. Qed.

Lemma det_method {A : Type} (f : gmap string value -> A) :
  det no_attribute (method f).
Proof.
  intros w1 w2 H. unfold method. simpl. rewrite (agree_all _ _ H).
  repeat split; auto.
  exists []. rewrite !app_nil_r. auto.
Qed.

Lemma det_for_loop (K : string -> Prop) {A B : Type}
    (body : B -> A -> M B) (l : list A) (acc : B) :
  (forall b x, det K (body b x)) -> det K (Mahlke.for_loop body l acc).
Proof.
  intros Hb. revert acc. induction l as [|x l IH]; intros acc; simpl.
  - apply det_ret.
  - apply det_bind; [apply Hb | intros; apply IH].
Qed.

Lemma det_as_frame (K : string -> Prop) (v : value) : det K (Mahlke.as_frame v).
Proof. destruct v; simpl; auto using det_ret, det_raise. Qed.

Lemma no_attribute_none (k : string) : ~ no_attribute k.
Proof. intros []. Qed.

Ltac mahlke_dependence :=
  repeat first
    [ apply det_method | apply det_as_frame
    | apply det_for_loop; intros ? ?
    | apply det_ret | apply det_raise | apply det_emit | apply det_setattr
    | apply det_lift
    | apply det_num_attr; exact (no_attribute_none _)
    | apply det_arr_attr; exact (no_attribute_none _)
    | apply det_getattr; exact (no_attribute_none _)
    | apply det_if
    | apply det_bind; [|intros ?] ].

Lemma det_mahlke_with
    (COLUMNS_all CLASSES : list string)
    (assign_classes : Mahlke.frame -> Mahlke.frame)
    (add_feature_flags : gmap string value -> Mahlke.frame -> Mahlke.frame)
    (model : Mahlke.MCFA) :
  det no_attribute
    (Mahlke.classify_with COLUMNS_all CLASSES assign_classes add_feature_flags model).
Proof. unfold Mahlke.classify_with. mahlke_dependence. Qed.



(** ** Rules for [outcome] *)

Lemma ro_index0 (a : list float) : reads_only (index0 a).
Proof. destruct a; [apply ro_raise | apply ro_ret]. Qed.

Ltac reads :=
  repeat first
    [ apply ro_ret | apply ro_raise | apply ro_lift | apply ro_getattr
    | apply ro_num_attr | apply ro_arr_attr | apply ro_index0 | apply ro_if
    | apply ro_bind; [|intros ?] ].

Section OutcomeRules.

Variable I : world -> Prop.
Hypothesis I_stable : stable I.

Lemma stable_assigned (w : world) (v : value) (t : list event) :
  I w -> I (World (<["class_demeo" := v]> (attrs w)) t).
Proof.
  apply I_stable. intros k Hk. simpl. symmetry. apply lookup_insert_ne.
  intros <-. apply Hk. reflexivity.
Qed.

Lemma stable_logged (w : world) (t : list event) :
  I w -> I (World (attrs w) t).
Proof. apply I_stable. intros k Hk. reflexivity. Qed.

Lemma outcome_raise (ok : string -> list event -> Prop) {A : Type} (e : exn) :
  outcome I ok (@raise A e).
Proof. intros w a w' _ H. discriminate. Qed.

Lemma outcome_if (ok : string -> list event -> Prop) {A : Type}
    (b : bool) (m1 m2 : M A) :
  (b = true -> outcome I ok m1) -> (b = false -> outcome I ok m2) ->
  outcome I ok (if b then m1 else m2).
Proof. destruct b; auto. Qed.

Lemma outcome_read (ok : string -> list event -> Prop) {A B : Type}
    (m : M A) (f : A -> M B) :
  reads_only m -> (forall a, outcome I ok (f a)) -> outcome I ok (m ≫= f).
Proof.
  intros Hm Hf w b w' HI H. apply bind_inv in H as (a & w1 & H1 & H2).
  pose proof (Hm w) as Hw. rewrite H1 in Hw. simpl in Hw. subst w1.
  exact (Hf a w b w' HI H2).
Qed.

(** A read whose value the invariant determines. *)
Lemma outcome_read_known (ok : string -> list event -> Prop) {A B : Type}
    (m : M A) (f : A -> M B) (known : A -> Prop) :
  reads_only m ->
  (forall w a w', I w -> m w = (Ok a, w') -> known a) ->
  (forall a, known a -> outcome I ok (f a)) ->
  outcome I ok (m ≫= f).
Proof.
  intros Hm Hk Hf w b w' HI H. apply bind_inv in H as (a & w1 & H1 & H2).
  pose proof (Hm w) as Hw. rewrite H1 in Hw. simpl in Hw. subst w1.
  exact (Hf a (Hk w a w HI H1) w b w' HI H2).
Qed.

Lemma outcome_assign (ok : string -> list event -> Prop) (c : string) :
  ok c [] -> outcome I ok (Demeo.assign c).
Proof.
  intros Hok w a w' HI H. unfold Demeo.assign in H. inversion H; subst. split.
  - apply stable_assigned, HI.
  - exists c, []. simpl. rewrite lookup_insert_eq, app_nil_r. auto.
Qed.

Lemma outcome_assign_warn (ok : string -> list event -> Prop) (c text : string) :
  (forall name, ok c [Log WARNING [Val name; Txt text]]) ->
  outcome I ok (Demeo.assign_warn c text).
Proof.
  intros Hok w a w' HI H. unfold Demeo.assign_warn, Demeo.warning in H.
  apply bind_inv in H as ([] & w1 & H1 & H).
  inversion H1; subst; clear H1.
  apply bind_inv in H as (name & w2 & H2 & H).
  apply getattr_inv in H2 as [-> _].
  inversion H; subst. split.
  - apply stable_assigned, HI.
  - exists c, [Log WARNING [Val name; Txt text]]. simpl.
    rewrite lookup_insert_eq. auto.
Qed.

(** [spec.class_demeo = c], a warning, and [return]. *)
Lemma outcome_resign (ok : string -> list event -> Prop) (c : string) (msg : message) :
  ok c [Log WARNING msg] ->
  outcome I ok (setattr "class_demeo" (VStr c);; Demeo.warning msg;; mret VNone).
Proof.
  intros Hok w a w' HI H. inversion H; subst. split.
  - apply stable_assigned, HI.
  - exists c, [Log WARNING msg]. simpl. rewrite lookup_insert_eq. auto.
Qed.

Lemma outcome_emit (ok : string -> list event -> Prop) {A : Type}
    (e : event) (m : M A) :
  outcome I (fun c ev => ok c (e :: ev)) m -> outcome I ok (emit e;; m).
Proof.
  intros Hm w a w' HI H. apply bind_inv in H as ([] & w1 & H1 & H).
  inversion H1; subst; clear H1.
  destruct (Hm _ a w' (stable_logged w _ HI) H) as (HI' & c & ev & Hc & Ht & Hok).
  split; [exact HI'|]. exists c, (e :: ev). simpl in Ht.
  rewrite Ht, <- app_assoc. auto.
Qed.

Lemma outcome_set (ok : string -> list event -> Prop) {A : Type}
    (v : value) (m : M A) :
  outcome I ok m -> outcome I ok (setattr "class_demeo" v;; m).
Proof.
  intros Hm w a w' HI H. apply bind_inv in H as ([] & w1 & H1 & H).
  inversion H1; subst; clear H1.
  exact (Hm _ a w' (stable_assigned w v _ HI) H).
Qed.

Lemma outcome_conseq (ok ok' : string -> list event -> Prop) {A : Type} (m : M A) :
  (forall c ev, ok c ev -> ok' c ev) -> outcome I ok m -> outcome I ok' m.
Proof.
  intros Himp Hm w a w' HI H.
  destruct (Hm w a w' HI H) as (HI' & c & ev & Hc & Ht & Hok). eauto 8.
Qed.

End OutcomeRules.

Lemma ro_unpack4 (a : list float) : reads_only (Demeo.unpack4 a).
Proof.
  unfold Demeo.unpack4.
  destruct (take 4 a) as [|? [|? [|? [|? [|]]]]]; auto using ro_ret, ro_raise.
Qed.

(** The walk through a tree: [leaf] proves what is asked of a class that a
    branch assigns, [sub] what is known of the functions called. *)
Ltac walk leaf sub :=
  repeat first
    [ sub
    | apply outcome_raise
    | apply outcome_assign; [assumption | leaf]
    | apply outcome_assign_warn; [assumption | intros ?; leaf]
    | apply outcome_resign; [assumption | leaf]
    | apply outcome_emit; [assumption |]
    | apply outcome_set; [assumption |]
    | apply outcome_if; intros ?
    | apply outcome_read; [reads | intros ?] ].

(** ** The weathering threshold *)

Section Weathering.

Variable s : Q.













End Weathering.

(** The first test of the S-complex sub-tree asks for a point below the
    beta line and above the delta line, which lies higher: no point passes
    it, and "Sw" is never assigned. *)
Lemma demeo_s_branch_unreachable (pc1 pc2 : float) :
  (pc1 <? Demeo.beta pc2) && (pc1 >? Demeo.delta pc2) = false.
Proof.
  destruct pc1 as [| |x|], pc2 as [| |y|]; try reflexivity.
  unfold Demeo.beta, Demeo.delta. simpl.
  destruct (Qltb x (-3 * y + 0.35)) eqn:E1; [|reflexivity].
  destruct (Qltb (-3 * y + 1.5) x) eqn:E2; [|reflexivity].
  apply Qltb_lt in E1, E2. lra.
Qed.



(** ** The branches that resolve no class *)


Lemma any_world_stable : stable any_world.
Proof. intros w w' _ _. exact Logic.I. Qed.




(** Every computation only adds to the trace. *)
Lemma trace_grows (K : string -> Prop) {A : Type} (m : M A) (w : world) :
  det K m -> exists ev, trace (snd (m w)) = (trace w ++ ev)%list.
Proof.
  intros H. destruct (H w w) as (_ & _ & (ev & Hev & _) & _).
  - intros k _. reflexivity.
  - eauto.
Qed.

(** *** What the tree returns *)

Lemma rn_bind {A : Type} (m : M A) (f : A -> M value) :
  (forall a, returns_none (f a)) -> returns_none (m ≫= f).
Proof.
  intros Hf w v w' H. apply bind_inv in H as (a & w1 & _ & H). exact (Hf a w1 v w' H).
Qed.

Lemma rn_if (b : bool) (m1 m2 : M value) :
  returns_none m1 -> returns_none m2 -> returns_none (if b then m1 else m2).
Proof. destruct b; auto. Qed.

Lemma rn_ret : returns_none (mret VNone).
Proof. intros w v w' H. inversion H. reflexivity. Qed.

Ltac none_returned sub :=
  repeat first [ sub | apply rn_ret | apply rn_if | apply rn_bind; intros ? ].

Lemma rn_s_complex : returns_none Demeo.demeo_s_complex.
Proof.
  unfold Demeo.demeo_s_complex, Demeo.assign. none_returned fail.
Qed.

Lemma rn_c_and_x : returns_none Demeo.demeo_c_and_x_complexes.
Proof.
  unfold Demeo.demeo_c_and_x_complexes, Demeo.assign, Demeo.assign_warn.
  none_returned fail.
Qed.

Lemma rn_step3 (pc1 pc2 pc3 slope : float) :
  returns_none (Demeo.vis_ir_step3 pc1 pc2 pc3 slope).
Proof.
  unfold Demeo.vis_ir_step3, Demeo.assign, Demeo.assign_warn.
  none_returned ltac:(apply rn_c_and_x).
Qed.

Lemma rn_step2 (pc1 pc2 pc3 slope : float) :
  returns_none (Demeo.vis_ir_step2 pc1 pc2 pc3 slope).
Proof.
  unfold Demeo.vis_ir_step2, Demeo.assign.
  none_returned ltac:(first [apply rn_s_complex | apply rn_step3]).
Qed.

Lemma rn_tree : returns_none Demeo.decision_tree.
Proof.
  unfold Demeo.decision_tree.
  apply rn_bind. intros [[[pc1 pc2] pc3] pc4]. apply rn_bind. intros slope.
  unfold Demeo.vis_ir_step1, Demeo.assign.
  none_returned ltac:(apply rn_step2).
Qed.

(** *** Runs that raise *)


Lemma rs_ret {A : Type} (a : A) : raises_silently (mret a).
Proof. intros w e w' H. inversion H. Qed.


Lemma rs_reads {A : Type} (m : M A) : reads_only m -> raises_silently m.
Proof. intros Hm w e w' H. pose proof (Hm w) as E. rewrite H in E. simpl in E. congruence. Qed.










(** ** The sub-trees and the components they read *)

Lemma no_pc0_stable : stable no_pc0.
Proof.
  intros w w' Hag H. unfold no_pc0 in *. rewrite <- H. symmetry.
  apply Hag. unfold is_class_demeo. discriminate.
Qed.

Lemma s_complex_without_pc0 (w : world) :
  no_pc0 w -> Demeo.demeo_s_complex w = (Raise (AttributeError "pc0_demeo"), w).
Proof.
  intros H. unfold Demeo.demeo_s_complex.
  apply bind_raise, num_attr_none, H.
Qed.

Lemma c_and_x_without_pc0 (w : world) :
  no_pc0 w -> Demeo.demeo_c_and_x_complexes w = (Raise (AttributeError "pc0_demeo"), w).
Proof.
  intros H. unfold Demeo.demeo_c_and_x_complexes.
  apply bind_raise, num_attr_none, H.
Qed.

Lemma direct_s_complex : outcome no_pc0 directly_ok Demeo.demeo_s_complex.
Proof. intros w a w' HI H. rewrite (s_complex_without_pc0 w HI) in H. discriminate. Qed.

Lemma direct_c_and_x : outcome no_pc0 directly_ok Demeo.demeo_c_and_x_complexes.
Proof. intros w a w' HI H. rewrite (c_and_x_without_pc0 w HI) in H. discriminate. Qed.

Ltac directly_leaf := cbv beta; unfold directly_ok, direct_classes; simpl; tauto.

Lemma direct_step3 (pc1 pc2 pc3 slope : float) :
  outcome no_pc0 directly_ok (Demeo.vis_ir_step3 pc1 pc2 pc3 slope).
Proof.
  pose proof no_pc0_stable as Hst. unfold Demeo.vis_ir_step3.
  walk directly_leaf ltac:(apply direct_c_and_x).
Qed.

Lemma direct_step2 (pc1 pc2 pc3 slope : float) :
  outcome no_pc0 directly_ok (Demeo.vis_ir_step2 pc1 pc2 pc3 slope).
Proof.
  pose proof no_pc0_stable as Hst. unfold Demeo.vis_ir_step2.
  walk directly_leaf ltac:(first [apply direct_s_complex | apply direct_step3]).
Qed.

Lemma direct_tree : outcome no_pc0 directly_ok Demeo.decision_tree.
Proof.
  pose proof no_pc0_stable as Hst.
  unfold Demeo.decision_tree, Demeo.vis_ir_step1, Demeo.warning.
  apply outcome_read; [apply ro_bind; [reads | intros; apply ro_unpack4]|].
  intros [[[pc1 pc2] pc3] pc4].
  walk directly_leaf
    ltac:(first [ apply direct_step2
                | apply (outcome_conseq _ _ directly_ok); [auto | apply direct_step2] ]).
Qed.

Lemma check_preprocessed_attrs (w : world) :
  attrs (snd (Demeo.check_preprocessed w)) = attrs w.
Proof.
  apply map_eq. intros k.
  assert (H : writes_only no_attribute Demeo.check_preprocessed).
  { unfold Demeo.check_preprocessed, Demeo.warning. dependence. }
  apply H. intros [].
Qed.

Lemma demeaned_attrs (w : world) :
  attrs (snd (Demeo.demeaned w)) = attrs w.
Proof.
  apply map_eq. intros k.
  assert (H : writes_only no_attribute Demeo.demeaned).
  { unfold Demeo.demeaned. dependence. }
  apply H. intros [].
Qed.

Lemma lift_inv {A : Type} (r : result A) (a : A) (w w' : world) :
  Np.lift r w = (Ok a, w') -> r = Ok a /\ w' = w.
Proof. unfold Np.lift. intros H. inversion H. auto. Qed.

Lemma setattr_inv (k : string) (v : value) (w w' : world) :
  setattr k v w = (Ok tt, w') -> w' = World (<[k := v]> (attrs w)) (trace w).
Proof. unfold setattr. intros H. inversion H. reflexivity. Qed.


(** A run of [classify] that returns went through the decision tree, in
    a world that differs from the first in [scores_demeo] and the trace;
    the class the tree left is then replaced by what the tree returned. *)
Lemma classify_inv (data : option (list float)) (w w' : world) :
  Demeo.classify data w = (Ok tt, w') ->
  exists scores t0 w1,
    Demeo.decision_tree (World (<["scores_demeo" := VArr scores]> (attrs w)) t0)
    = (Ok VNone, w1)
    /\ w' = World (<["class_demeo" := VNone]> (attrs w1)) (trace w1).
Proof.
  intros H. unfold Demeo.classify in H.
  apply bind_inv in H as ([] & u1 & H1 & H).
  apply bind_inv in H as (refl & u2 & H2 & H).
  apply bind_inv in H as (d & u3 & H3 & H).
  assert (u3 = u2) as ->.
  { destruct data; inversion H3; reflexivity. }
  apply bind_inv in H as (scores & u4 & H4 & H).
  apply lift_inv in H4 as [_ ->].
  apply bind_inv in H as ([] & u5 & H5 & H).
  apply setattr_inv in H5 as ->.
  apply bind_inv in H as (class & u6 & H6 & H).
  assert (Hattrs : attrs u2 = attrs w).
  { pose proof (demeaned_attrs u1) as E2. rewrite H2 in E2.
    pose proof (check_preprocessed_attrs w) as E1. rewrite H1 in E1.
    simpl in *. congruence. }
  rewrite Hattrs in H6.
  pose proof (rn_tree _ _ _ H6) as ->.
  apply bind_inv in H as ([] & u7 & H7 & H).
  apply setattr_inv in H7 as ->.
  inversion H; subst w'.
  eauto.
Qed.

(** C10.  The two sub-trees of the DeMeo tree read [pc0_demeo] first, and
    fail with [AttributeError] on a spectrum without it.  [classify]
    assigns [scores_demeo] and [class_demeo] and none of [pc0_demeo] to
    [pc4_demeo].  So on a spectrum without [pc0_demeo] a run of the tree
    that returns has left one of the classes the tree assigns itself, and
    so has the run of the tree inside a run of [classify] that returns;
    as the module is written, with the name [data] unbound, [classify]
    never returns. *)
Theorem demeo_subtrees_unreachable :
  (forall w, no_pc0 w ->
     Demeo.demeo_s_complex w = (Raise (AttributeError "pc0_demeo"), w)
     /\ Demeo.demeo_c_and_x_complexes w = (Raise (AttributeError "pc0_demeo"), w))
  /\ (forall data w k, In k pc_attributes ->
        attrs (after (Demeo.classify data) w) !! k = attrs w !! k)
  /\ (forall w v, no_pc0 w -> run Demeo.decision_tree w = Ok v ->
        exists c, attrs (after Demeo.decision_tree w) !! "class_demeo" = Some (VStr c)
                  /\ In c direct_classes)
  /\ (forall data w w', no_pc0 w -> Demeo.classify data w = (Ok tt, w') ->
        exists scores t0 w1 c,
          Demeo.decision_tree (World (<["scores_demeo" := VArr scores]> (attrs w)) t0)
          = (Ok VNone, w1)
          /\ attrs w1 !! "class_demeo" = Some (VStr c)
          /\ In c direct_classes
          /\ w' = World (<["class_demeo" := VNone]> (attrs w1)) (trace w1))
  /\ (forall w, run (Demeo.classify None) w <> Ok tt).
Proof.
  split; [|split; [|split; [|split]]].
  - intros w H. split; [apply s_complex_without_pc0 | apply c_and_x_without_pc0]; exact H.
  - intros data w k Hk. apply (wo_demeo_classify is_demeo_result).
    + right. reflexivity.
    + left. reflexivity.
    + intros [-> | ->]; simpl in Hk;
        repeat (destruct Hk as [Hk | Hk]; try discriminate Hk); exact Hk.
  - intros w v HI Hrun. unfold run, after in *.
    destruct (Demeo.decision_tree w) as [r w'] eqn:E. simpl in *. subst r.
    destruct (direct_tree w v w' HI E) as (_ & c & ev & Hc & _ & Hok). eauto.
  - intros data w w' HI H.
    destruct (classify_inv data w w' H) as (scores & t0 & w1 & Htree & Hw').
    assert (HI0 : no_pc0 (World (<["scores_demeo" := VArr scores]> (attrs w)) t0)).
    { unfold no_pc0. simpl. rewrite lookup_insert_ne by discriminate. exact HI. }
    destruct (direct_tree _ _ _ HI0 Htree) as (_ & c & ev & Hc & _ & Hok).
    exists scores, t0, w1, c. auto.
  - intros w Hrun. unfold run in Hrun.
    destruct (Demeo.classify None w) as [r w'] eqn:E. simpl in Hrun. subst r.
    unfold Demeo.classify in E.
    apply bind_inv in E as ([] & u1 & _ & E).
    apply bind_inv in E as (refl & u2 & _ & E).
    apply bind_inv in E as (d & u3 & E3 & _). discriminate.
Qed.

Lemma demeo_subtrees_unreachable_witness :
  exists scores t0 w1 c,
    Demeo.decision_tree
      (World (<["scores_demeo" := VArr scores]> (attrs spectrum_A)) t0)
    = (Ok VNone, w1)
    /\ attrs w1 !! "class_demeo" = Some (VStr c)
    /\ In c direct_classes.
Proof.
  destruct demeo_subtrees_unreachable as (_ & _ & _ & H & _).
  destruct (H (Some data_A) spectrum_A (snd (Demeo.classify (Some data_A) spectrum_A)))
    as (scores & t0 & w1 & c & H1 & H2 & H3 & _).
  - reflexivity.
  - vm_compute. reflexivity.
  - exists scores, t0, w1, c. auto.
Defined.

(** ** The dimensions of the DeMeo projection *)

Lemma lookup_zip_with_f (f : float -> float -> float) (a b : list float) (i : nat) :
  Np.zip_with_f f a b !! i =
  match a !! i, b !! i with
  | Some x, Some y => Some (f x y)
  | _, _ => None
  end.
Proof.
  revert b i. induction a as [|x a IH]; intros [|y b] [|i]; simpl; try reflexivity.
  - destruct (a !! i); reflexivity.
  - apply IH.
Qed.

Lemma length_zip_with_f (f : float -> float -> float) (a b : list float) :
  length a = length b -> length (Np.zip_with_f f a b) = length a.
Proof.
  revert b. induction a as [|x a IH]; intros [|y b] H; simpl in *; try discriminate; auto.
Qed.

Lemma lookup_without_third (refl : list float) (i : nat) :
  (3 <= length refl)%nat ->
  Demeo.without_third refl refl !! i = refl !! kept i.
Proof.
  intros Hlen. unfold Demeo.without_third, kept.
  destruct (Nat.ltb_spec i 2) as [Hi | Hi].
  - rewrite lookup_app_l by (rewrite length_take; lia).
    apply lookup_take_lt. exact Hi.
  - rewrite lookup_app_r by (rewrite length_take; lia).
    rewrite length_take, lookup_drop. f_equal. lia.
Qed.

Lemma length_without_third (refl : list float) :
  (3 <= length refl)%nat ->
  length (Demeo.without_third refl refl) = (length refl - 1)%nat.
Proof.
  intros H. unfold Demeo.without_third.
  rewrite length_app, length_take, length_drop. lia.
Qed.

Lemma length_without_third_short (refl : list float) :
  (length refl < 3)%nat ->
  length (Demeo.without_third refl refl) = Nat.min 2 (length refl).
Proof.
  intros H. unfold Demeo.without_third.
  rewrite length_app, length_take, length_drop. lia.
Qed.

Lemma demeaned_run (w : world) (refl : list float) :
  attrs w !! "refl" = Some (VArr refl) ->
  Demeo.demeaned w =
  (Np.isub (Demeo.without_third refl refl) Demeo.DATA_MEAN,
   World (attrs w) (trace w ++ [Breakpoint])).
Proof.
  intros H. unfold Demeo.demeaned.
  rewrite (bind_ok _ _ _ _ _ (arr_attr_some _ _ _ H)).
  rewrite (bind_ok _ _ _ _ _ (arr_attr_some _ _ _ H)).
  reflexivity.
Qed.

(** C5, as the code has it.  The grid of the DeMeo scheme has 41 points,
    0.45 to 2.45 microns in steps of 0.05; its third point is 0.55
    microns, where the spectrum is normalised.  The data mean has 40
    elements and the five eigenvectors 40 each.  [classify] leaves the
    third of the 41 reflectances out and subtracts the data mean from the
    40 that remain; a reflectance vector of another length is refused. *)
Theorem demeo_dimensions :
  length Demeo.WAVE = 41%nat
  /\ Np.array_eq Demeo.WAVE (map Fin demeo_grid) = true
  /\ (exists x, Demeo.WAVE !! 2%nat = Some (Fin x) /\ (x == 0.55)%Q)
  /\ length Demeo.DATA_MEAN = 40%nat
  /\ length Demeo.EIGENVECTORS = 5%nat
  /\ Forall (fun row => length row = 40%nat) Demeo.EIGENVECTORS
  /\ (forall w refl, attrs w !! "refl" = Some (VArr refl) ->
        Demeo.demeaned w =
        (Np.isub (Demeo.without_third refl refl) Demeo.DATA_MEAN,
         World (attrs w) (trace w ++ [Breakpoint])))
  /\ (forall refl, length refl = 41%nat ->
        exists v, Np.isub (Demeo.without_third refl refl) Demeo.DATA_MEAN = Ok v
                  /\ length v = 40%nat
                  /\ forall i m, Demeo.DATA_MEAN !! i = Some m ->
                       v !! i = (fun x => x - m) <$> refl !! kept i)
  /\ (forall refl, length refl <> 41%nat ->
        exists e, Np.isub (Demeo.without_third refl refl) Demeo.DATA_MEAN = Raise e).
Proof.
  repeat apply conj.
  - vm_compute. reflexivity.
  - vm_compute. reflexivity.
  - vm_compute. eexists. split; reflexivity.
  - reflexivity.
  - reflexivity.
  - repeat constructor.
  - intros w refl H. apply demeaned_run, H.
  - intros refl Hlen.
    assert (Hl : length (Demeo.without_third refl refl) = 40%nat).
    { rewrite length_without_third; lia. }
    exists (Np.zip_with_f fsub (Demeo.without_third refl refl) Demeo.DATA_MEAN).
    split; [|split].
    + unfold Np.isub. rewrite Hl. reflexivity.
    + rewrite length_zip_with_f; [exact Hl | rewrite Hl; reflexivity].
    + intros i m Hm. rewrite lookup_zip_with_f, Hm.
      rewrite lookup_without_third by lia.
      destruct (refl !! kept i); reflexivity.
  - intros refl Hlen. unfold Np.isub.
    assert (Hl : length (Demeo.without_third refl refl) <> 40%nat).
    { destruct (le_lt_dec 3 (length refl)).
      - rewrite length_without_third; lia.
      - rewrite length_without_third_short; lia. }
    change (length Demeo.DATA_MEAN) with 40%nat.
    destruct (Nat.eqb_spec (length (Demeo.without_third refl refl)) 40); [contradiction|].
    eexists. reflexivity.
Qed.

(** C5 fails as it is stated: the grid has 41 points and ends at 2.45
    microns, the data mean has 40 elements, and [classify] refuses a
    reflectance vector of 40 points at the subtraction of the mean. *)
Lemma demeo_grid_not_40 :
  length Demeo.WAVE <> 40%nat
  /\ Np.amax Demeo.WAVE = Ok (Fin (49 # 20))
  /\ length Demeo.DATA_MEAN <> 39%nat
  /\ run (Demeo.classify None) spectrum_40
     = Raise (ValueError [Txt "operands could not be broadcast together"]).
Proof.
  repeat apply conj.
  - vm_compute. discriminate.
  - vm_compute. reflexivity.
  - vm_compute. discriminate.
  - vm_compute. reflexivity.
Qed.

(** ** The tests of the wavelength range *)





Section Coverage.

Variable w : world.
Variable wave : list float.
Variables lo hi : float.
Variable name : value.
Hypothesis wave_attr : attrs w !! "wave" = Some (VArr wave).
Hypothesis wave_min : Np.amin wave = Ok lo.
Hypothesis wave_max : Np.amax wave = Ok hi.
Hypothesis name_attr : attrs w !! "name" = Some name.

Lemma mahlke_out_of_range_run :
  Mahlke.out_of_range w = (Ok ((lo >=? 2.45) || (hi <=? 0.45)), w).
Proof.
  unfold Mahlke.out_of_range.
  rewrite bind_run, (bind_ok _ _ _ _ _ (arr_attr_some _ _ _ wave_attr)), wave_min.
  unfold Np.lift at 1. cbv beta iota.
  destruct (lo >=? 2.45); [reflexivity|].
  rewrite bind_run, (bind_ok _ _ _ _ _ (arr_attr_some _ _ _ wave_attr)), wave_max.
  reflexivity.
Qed.


End Coverage.




(** ** The mark of preprocessing *)







(** * More properties of the code *)

(** ** The Tholen tree on scores that are not numbers *)

Lemma fold_fadd_nan (l : list float) : fold_left fadd l NaN = NaN.
Proof. induction l as [|x l IH]; [reflexivity | exact IH]. Qed.

Lemma fadd_nan_r (a : float) : a + NaN = NaN.
Proof. destruct a; reflexivity. Qed.

Lemma fsum_nan (l : list float) : In NaN l -> Np.fsum l = NaN.
Proof.
  unfold Np.fsum. generalize (Fin 0).
  induction l as [|x l IH]; intros acc H; simpl in *; [contradiction|].
  destruct H as [-> | H].
  - rewrite fadd_nan_r. apply fold_fadd_nan.
  - apply IH, H.
Qed.

Lemma zip_nan_l (a b : list float) :
  length a = length b -> In NaN a -> In NaN (Np.zip_with_f fsub a b).
Proof.
  revert b. induction a as [|x a IH]; intros [|y b] Hlen Hin; simpl in *; try discriminate.
  - contradiction.
  - destruct Hin as [-> | Hin]; [left; reflexivity | right; apply IH; auto].
Qed.

Lemma zip_mul_nan (d : list float) : In NaN d -> In NaN (Np.zip_with_f fmul d d).
Proof.
  induction d as [|x d IH]; simpl; [tauto|].
  intros [-> | H]; [left; reflexivity | right; auto].
Qed.

Lemma distance_nan (sqrtQ : Q -> Q) (scores : list float) (r : Tholen.ecas_row) :
  length scores = 7%nat -> In NaN scores -> distance sqrtQ scores r = NaN.
Proof.
  intros Hlen Hin. unfold distance, Np.norm, Np.dot.
  rewrite fsum_nan; [reflexivity|].
  apply zip_mul_nan, zip_nan_l; auto.
Qed.

(** X1.  A spectrum with seven scores of which one is NaN is at a distance
    of NaN from every row, [np.argmin] gives index 0, and the Tholen tree
    takes the class of the first row of the table, whatever the other
    scores are. *)
Theorem tholen_nan_score_first_row
    (log10 : float -> float) (sqrtQ : Q -> Q) (w : world) (scores : list float)
    (r0 : Tholen.ecas_row) (rest : list Tholen.ecas_row) :
  attrs w !! "tholen_scores" = Some (VArr scores) ->
  length scores = 7%nat ->
  In NaN scores ->
  Tholen.closest_class (r0 :: rest) sqrtQ w = (Ok (Tholen.class_ r0), w)
  /\ Tholen.decision_tree (r0 :: rest) log10 sqrtQ w
     = Tholen.albedo_tree log10 (Tholen.one_letter (Tholen.class_ r0)) w.
Proof.
  intros Hattr Hlen Hnan.
  assert (H : Tholen.closest_class (r0 :: rest) sqrtQ w = (Ok (Tholen.class_ r0), w)).
  { unfold Tholen.closest_class.
    rewrite (bind_ok _ _ _ _ _ (distances_run (r0 :: rest) sqrtQ w scores Hattr Hlen)).
    simpl map. rewrite (distance_nan sqrtQ scores r0 Hlen Hnan).
    rewrite bind_run. unfold Np.lift, Np.argmin. cbv beta iota.
    destruct (map (distance sqrtQ scores) rest); reflexivity. }
  split; [exact H|].
  apply tholen_tree_after_closest. unfold run. rewrite H. reflexivity.
Qed.

Lemma tholen_nan_score_first_row_witness :
  Tholen.decision_tree ecas_example log10_floor sqrt_floor spectrum_nan_score
  = (Ok "S", spectrum_nan_score).
Proof.
  unfold ecas_example.
  rewrite (proj2 (tholen_nan_score_first_row log10_floor sqrt_floor spectrum_nan_score
             [Fin 0; Fin 2; NaN; Fin 0; Fin 0; Fin 0; Fin 0] _ _
             eq_refl eq_refl (or_intror (or_intror (or_introl eq_refl))))).
  reflexivity.
Defined.

(** ** When the Tholen tree returns, and what *)

Lemma argmin_from_bound (a : list float) (best_i : nat) (best : float) (i : nat) :
  let j := Np.argmin_from best_i best i a in
  j = best_i \/ (i <= j < i + length a)%nat.
Proof.
  revert best_i best i. induction a as [|x a IH]; intros best_i best i; simpl.
  - left. reflexivity.
  - destruct (isnan best); [left; reflexivity|].
    destruct (negb (x >=? best)).
    + destruct (IH i x (S i)) as [-> | H]; right; lia.
    + destruct (IH best_i best (S i)) as [-> | H]; [left; reflexivity | right; lia].
Qed.

Lemma argmin_bound (a : list float) (j : nat) :
  Np.argmin a = Ok j -> (j < length a)%nat.
Proof.
  destruct a as [|x a]; simpl; [discriminate|].
  intros H. injection H as <-.
  destruct (argmin_from_bound a 0 x 1) as [-> | H]; simpl in *; lia.
Qed.

Section TholenReturns.

Variable tholen : list Tholen.ecas_row.
Variable log10 : float -> float.
Variable sqrtQ : Q -> Q.

Lemma albedo_tree_returns (w : world) (c : string) (pV : float) :
  attrs w !! "pV" = Some (VNum pV) ->
  exists c', Tholen.albedo_tree log10 c w = (Ok c', w)
             /\ (In c' albedo_results \/ c' = c).
Proof.
  intros HpV. unfold Tholen.albedo_tree, albedo_results.
  destruct (Tholen.str_in c ["E"; "M"; "P"; "X"]).
  - rewrite (bind_ok _ _ _ _ _ (num_attr_some _ _ _ HpV)).
    destruct (isnan pV); [simpl; eauto 10|].
    destruct ((-2.5) * log10 pV >? 3); [simpl; eauto 10|].
    destruct ((-2.5) * log10 pV >? 1.4); simpl; eauto 10.
  - destruct (Tholen.str_in c ["C"; "F"; "B"; "G"]).
    + rewrite bind_run, (bind_ok _ _ _ _ _ (num_attr_some _ _ _ HpV)).
      unfold mret at 1, M_ret at 1. cbv beta iota.
      destruct ((-2.5) * log10 pV <=? 1.4); [simpl; eauto 10|].
      destruct (Tholen.str_in c ["C"; "B"]); [|simpl; eauto 10].
      rewrite (bind_ok _ _ _ _ _ (num_attr_some _ _ _ HpV)).
      destruct ((-2.5) * log10 pV >? 3); simpl; eauto 10.
    + rewrite bind_run. unfold mret at 1, M_ret at 1. cbv beta iota.
      destruct (Tholen.str_in c ["C"; "B"]); [|simpl; eauto 10].
      rewrite (bind_ok _ _ _ _ _ (num_attr_some _ _ _ HpV)).
      destruct ((-2.5) * log10 pV >? 3); simpl; eauto 10.
Qed.

Lemma closest_class_returns (w : world) (scores : list float) :
  tholen <> [] ->
  attrs w !! "tholen_scores" = Some (VArr scores) ->
  length scores = 7%nat ->
  exists r, In r tholen
            /\ Tholen.closest_class tholen sqrtQ w = (Ok (Tholen.class_ r), w).
Proof.
  intros Hne Hattr Hlen. unfold Tholen.closest_class.
  rewrite (bind_ok _ _ _ _ _ (distances_run tholen sqrtQ w scores Hattr Hlen)).
  assert (Hne' : map (distance sqrtQ scores) tholen <> []).
  { destruct tholen; [congruence | discriminate]. }
  destruct (argmin_nonempty _ Hne') as [j Hj].
  pose proof (argmin_bound _ _ Hj) as Hlt. rewrite length_map in Hlt.
  destruct (lookup_lt_is_Some_2 tholen j Hlt) as [r Hr].
  exists r. split; [eapply list_elem_of_In, list_elem_of_lookup_2, Hr|].
  rewrite bind_run. unfold Np.lift at 1. rewrite Hj. cbv beta iota.
  unfold Tholen.loc_class. rewrite Hr. reflexivity.
Qed.

End TholenReturns.

(** X2.  With a table that is not empty, seven scores and a numeric
    albedo (NaN and the infinities included), the Tholen tree raises
    nothing and changes nothing: it returns X, P, M, E, C or B, or the class
    of a row of the table reduced to one letter when it has two. *)
Theorem tholen_tree_returns
    (tholen : list Tholen.ecas_row) (log10 : float -> float) (sqrtQ : Q -> Q)
    (w : world) (scores : list float) (pV : float) :
  tholen <> [] ->
  attrs w !! "tholen_scores" = Some (VArr scores) ->
  length scores = 7%nat ->
  attrs w !! "pV" = Some (VNum pV) ->
  exists c, Tholen.decision_tree tholen log10 sqrtQ w = (Ok c, w)
            /\ (In c albedo_results
                \/ exists r, In r tholen /\ c = Tholen.one_letter (Tholen.class_ r)).
Proof.
  intros Hne Hattr Hlen HpV.
  destruct (closest_class_returns tholen sqrtQ w scores Hne Hattr Hlen) as (r & Hin & Hr).
  destruct (albedo_tree_returns log10 w (Tholen.one_letter (Tholen.class_ r)) pV HpV)
    as (c & Hc & Hres).
  exists c. split.
  - rewrite (tholen_tree_after_closest tholen log10 sqrtQ w (Tholen.class_ r));
      [exact Hc | unfold run; rewrite Hr; reflexivity].
  - destruct Hres as [H | ->]; [left; exact H | right; eauto].
Qed.

Lemma tholen_tree_returns_witness :
  exists c, Tholen.decision_tree ecas_letters log10_floor sqrt_floor spectrum_nan_score
            = (Ok c, spectrum_nan_score).
Proof.
  destruct (tholen_tree_returns ecas_letters log10_floor sqrt_floor spectrum_nan_score
              [Fin 0; Fin 2; NaN; Fin 0; Fin 0; Fin 0; Fin 0] (Fin 0.01))
    as (c & Hc & _).
  - discriminate.
  - reflexivity.
  - reflexivity.
  - reflexivity.
  - exists c. exact Hc.
Defined.

(** ** Classes the albedo tree leaves alone *)

Lemma str_in_In (s : string) (l : list string) : Tholen.str_in s l = true <-> In s l.
Proof.
  unfold Tholen.str_in. rewrite existsb_exists. split.
  - intros (x & Hx & E). apply String.eqb_eq in E. subst. exact Hx.
  - intros H. exists s. split; [exact H | apply String.eqb_refl].
Qed.

Lemma str_in_false (s : string) (l : list string) : Tholen.str_in s l = false <-> ~ In s l.
Proof.
  rewrite <- str_in_In. destruct (Tholen.str_in s l); split; intros H;
    congruence || (exfalso; apply H; reflexivity) || discriminate.
Qed.

Lemma albedo_tree_other (log10 : float -> float) (w : world) (c : string) :
  Tholen.str_in c albedo_classes = false ->
  Tholen.albedo_tree log10 c w = (Ok c, w).
Proof.
  intros H. apply str_in_false in H. unfold Tholen.albedo_tree.
  assert (H1 : Tholen.str_in c ["E"; "M"; "P"; "X"] = false).
  { apply str_in_false. intros Hin. apply H. unfold albedo_classes. simpl in *. tauto. }
  assert (H2 : Tholen.str_in c ["C"; "F"; "B"; "G"] = false).
  { apply str_in_false. intros Hin. apply H. unfold albedo_classes. simpl in *. tauto. }
  assert (H3 : Tholen.str_in c ["C"; "B"] = false).
  { apply str_in_false. intros Hin. apply H. unfold albedo_classes. simpl in *. tauto. }
  rewrite H1, H2, H3. reflexivity.
Qed.

Lemma long_class_kept (near : string) :
  (3 <= String.length near)%nat ->
  Tholen.one_letter near = near /\ Tholen.str_in near albedo_classes = false.
Proof.
  intros H. split.
  - unfold Tholen.one_letter.
    destruct (Nat.eqb_spec (String.length near) 2); [lia | reflexivity].
  - apply str_in_false. unfold albedo_classes. simpl.
    intros Hin. repeat (destruct Hin as [<- | Hin]; [simpl in H; lia|]). exact Hin.
Qed.

(** X3.  When the class of the closest row, reduced to one letter when it
    has two, is none of E, M, P, X, C, F, B, G, the Tholen tree returns it
    without reading the albedo: the spectrum needs no [pV].  A class of
    three letters or more is never reduced and is returned as it stands. *)
Theorem tholen_other_classes_kept
    (tholen : list Tholen.ecas_row) (log10 : float -> float) (sqrtQ : Q -> Q)
    (w : world) (near : string) :
  run (Tholen.closest_class tholen sqrtQ) w = Ok near ->
  (Tholen.str_in (Tholen.one_letter near) albedo_classes = false ->
     Tholen.decision_tree tholen log10 sqrtQ w = (Ok (Tholen.one_letter near), w))
  /\ ((3 <= String.length near)%nat ->
        Tholen.decision_tree tholen log10 sqrtQ w = (Ok near, w)).
Proof.
  intros Hnear.
  rewrite (tholen_tree_after_closest tholen log10 sqrtQ w near Hnear).
  split.
  - apply albedo_tree_other.
  - intros Hlen. destruct (long_class_kept near Hlen) as [-> H].
    apply albedo_tree_other, H.
Qed.

Lemma tholen_other_classes_kept_witness :
  Tholen.decision_tree ecas_letters log10_floor sqrt_floor
    (spectrum_at [0; 2; 0; 0; 0; 0; 0] None)
  = (Ok "CGU", spectrum_at [0; 2; 0; 0; 0; 0; 0] None).
Proof.
  apply (tholen_other_classes_kept ecas_letters log10_floor sqrt_floor
           (spectrum_at [0; 2; 0; 0; 0; 0; 0] None) "CGU").
  - vm_compute. reflexivity.
  - simpl. lia.
Defined.

(** ** The albedo tree on C, F, B and G *)

Lemma cfbg_not_empx (c : string) :
  Tholen.str_in c ["C"; "F"; "B"; "G"] = true ->
  Tholen.str_in c ["E"; "M"; "P"; "X"] = false.
Proof.
  intros H. apply str_in_In in H. apply str_in_false. simpl in *.
  intros Hin.
  repeat (destruct H as [<- | H]; [repeat (destruct Hin as [E | Hin]; [discriminate E|]); exact Hin|]).
  exact H.
Qed.

(** X4.  When the class of the closest row, reduced to one letter, is C, F,
    B or G and the albedo is a number, the Tholen tree returns E for
    [-2.5 * log10(pV) <= 1.4]; otherwise it keeps F and G, and gives C to
    both C and B when [-2.5 * log10(pV) > 3] and B to both when it is not. *)
Theorem tholen_cfbg_albedo
    (tholen : list Tholen.ecas_row) (log10 : float -> float) (sqrtQ : Q -> Q)
    (w : world) (near : string) (pV : float) :
  run (Tholen.closest_class tholen sqrtQ) w = Ok near ->
  Tholen.str_in (Tholen.one_letter near) ["C"; "F"; "B"; "G"] = true ->
  attrs w !! "pV" = Some (VNum pV) ->
  Tholen.decision_tree tholen log10 sqrtQ w =
  (Ok (if (-2.5) * log10 pV <=? 1.4 then "E"
       else if Tholen.str_in (Tholen.one_letter near) ["C"; "B"]
            then (if (-2.5) * log10 pV >? 3 then "C" else "B")
            else Tholen.one_letter near), w).
Proof.
  intros Hnear Hc HpV.
  rewrite (tholen_tree_after_closest tholen log10 sqrtQ w near Hnear).
  unfold Tholen.albedo_tree. rewrite (cfbg_not_empx _ Hc), Hc.
  rewrite bind_run, (bind_ok _ _ _ _ _ (num_attr_some _ _ _ HpV)).
  unfold mret at 1, M_ret at 1. cbv beta iota.
  destruct ((-2.5) * log10 pV <=? 1.4); [reflexivity|].
  destruct (Tholen.str_in (Tholen.one_letter near) ["C"; "B"]); [|reflexivity].
  rewrite (bind_ok _ _ _ _ _ (num_attr_some _ _ _ HpV)).
  destruct ((-2.5) * log10 pV >? 3); reflexivity.
Qed.

Lemma tholen_cfbg_albedo_witness :
  Tholen.decision_tree ecas_letters log10_floor sqrt_floor
    (spectrum_at [0; 0; 3; 0; 0; 0; 0] (Some (Fin 0.1)))
  = (Ok "B", spectrum_at [0; 0; 3; 0; 0; 0; 0] (Some (Fin 0.1))).
Proof.
  apply (tholen_cfbg_albedo ecas_letters log10_floor sqrt_floor
           (spectrum_at [0; 0; 3; 0; 0; 0; 0] (Some (Fin 0.1))) "CF" (Fin 0.1)).
  - vm_compute. reflexivity.
  - reflexivity.
  - reflexivity.
Defined.

(** ** How the Tholen tree fails *)

Lemma sub_mismatch (a : list float) (r : Tholen.ecas_row) :
  length a <> 7%nat -> length a <> 1%nat ->
  Np.sub a (Tholen.values r)
  = Raise (ValueError [Txt "operands could not be broadcast together"]).
Proof.
  intros H7 H1. unfold Np.sub.
  destruct (Nat.eqb_spec (length a) (length (Tholen.values r))) as [E|_].
  - exfalso. apply H7. exact E.
  - destruct a as [|x [|y a]]; simpl in *; try reflexivity. congruence.
Qed.

(** X5.  The Tholen tree fails, with the spectrum as it was, in three ways
    before it reaches the albedo: on an empty table [np.argmin] raises
    [ValueError] whatever the spectrum holds; on a table with a row, a
    spectrum without [tholen_scores] raises [AttributeError], and scores
    that number neither seven nor one cannot be subtracted from a row and
    raise [ValueError]. *)
Theorem tholen_failure_modes
    (log10 : float -> float) (sqrtQ : Q -> Q) (w : world) :
  Tholen.decision_tree [] log10 sqrtQ w
  = (Raise (ValueError [Txt "attempt to get argmin of an empty sequence"]), w)
  /\ (forall r rest,
        attrs w !! "tholen_scores" = None ->
        Tholen.decision_tree (r :: rest) log10 sqrtQ w
        = (Raise (AttributeError "tholen_scores"), w))
  /\ (forall r rest scores,
        attrs w !! "tholen_scores" = Some (VArr scores) ->
        length scores <> 7%nat -> length scores <> 1%nat ->
        Tholen.decision_tree (r :: rest) log10 sqrtQ w
        = (Raise (ValueError [Txt "operands could not be broadcast together"]), w)).
Proof.
  split; [reflexivity | split].
  - intros r rest H.
    unfold Tholen.decision_tree, Tholen.closest_class, Tholen.distances.
    simpl map. simpl Np.for_each.
    rewrite !bind_run. unfold arr_attr at 1. rewrite bind_run, (getattr_none _ _ H).
    reflexivity.
  - intros r rest scores H H7 H1.
    unfold Tholen.decision_tree, Tholen.closest_class, Tholen.distances.
    simpl map. simpl Np.for_each.
    rewrite !bind_run, (arr_attr_some _ _ _ H). cbv beta iota.
    rewrite bind_run. unfold Np.lift at 1. rewrite (sub_mismatch scores r H7 H1).
    reflexivity.
Qed.

Lemma tholen_failure_modes_witness :
  Tholen.decision_tree ecas_letters log10_floor sqrt_floor
    (spectrum_at [0; 2; 0] None)
  = (Raise (ValueError [Txt "operands could not be broadcast together"]),
     spectrum_at [0; 2; 0] None)
  /\ Tholen.decision_tree ecas_letters log10_floor sqrt_floor (spectrum [])
     = (Raise (AttributeError "tholen_scores"), spectrum []).
Proof.
  destruct (tholen_failure_modes log10_floor sqrt_floor (spectrum_at [0; 2; 0] None))
    as (_ & _ & H3).
  destruct (tholen_failure_modes log10_floor sqrt_floor (spectrum [])) as (_ & H2 & _).
  split.
  - apply (H3 _ _ (map Fin [0; 2; 0]%Q)); [reflexivity | simpl; lia | simpl; lia].
  - apply H2. reflexivity.
Defined.

(** ** The classes the DeMeo tree can assign *)

Lemma demeo_r_branch_unreachable (pc1 pc2 : float) :
  (pc1 >=? Demeo.gamma pc2) = false ->
  (pc1 >=? Demeo.eta pc2) && (pc1 >=? Demeo.gamma pc2) && (pc1 <? Demeo.delta pc2) = false.
Proof. intros ->. rewrite andb_false_r. reflexivity. Qed.

Ltac unreachable :=
  match goal with
  | H : (?a <? Demeo.beta ?b) && (?a >? Demeo.delta ?b) = true |- _ =>
      rewrite demeo_s_branch_unreachable in H; discriminate H
  | H1 : (?a >=? Demeo.gamma ?b) = false, H2 : _ && (?a >=? Demeo.gamma ?b) && _ = true |- _ =>
      rewrite (demeo_r_branch_unreachable _ _ H1) in H2; discriminate H2
  end.

Ltac assigned_leaf :=
  cbv beta; first [ unreachable | unfold assigned_ok, demeo_assigned; simpl; tauto ].

Lemma assigned_s_complex : outcome any_world assigned_ok Demeo.demeo_s_complex.
Proof.
  pose proof any_world_stable as Hst.
  unfold Demeo.demeo_s_complex.
  walk assigned_leaf fail.
Qed.

Lemma assigned_c_and_x : outcome any_world assigned_ok Demeo.demeo_c_and_x_complexes.
Proof.
  pose proof any_world_stable as Hst.
  unfold Demeo.demeo_c_and_x_complexes.
  walk assigned_leaf fail.
Qed.

Lemma assigned_step3 (pc1 pc2 pc3 slope : float) :
  outcome any_world assigned_ok (Demeo.vis_ir_step3 pc1 pc2 pc3 slope).
Proof.
  pose proof any_world_stable as Hst.
  unfold Demeo.vis_ir_step3.
  walk assigned_leaf ltac:(apply assigned_c_and_x).
Qed.

Lemma assigned_step2 (pc1 pc2 pc3 slope : float) :
  outcome any_world assigned_ok (Demeo.vis_ir_step2 pc1 pc2 pc3 slope).
Proof.
  pose proof any_world_stable as Hst.
  unfold Demeo.vis_ir_step2.
  walk assigned_leaf ltac:(first [apply assigned_s_complex | apply assigned_step3]).
Qed.

Lemma assigned_tree : outcome any_world assigned_ok Demeo.decision_tree.
Proof.
  pose proof any_world_stable as Hst.
  unfold Demeo.decision_tree, Demeo.vis_ir_step1, Demeo.warning.
  apply outcome_read; [apply ro_bind; [reads | intros; apply ro_unpack4]|].
  intros [[[pc1 pc2] pc3] pc4].
  walk assigned_leaf ltac:(apply assigned_step2).
Qed.

(** X6.  Every run of the DeMeo decision tree that returns leaves in
    [class_demeo] one of 27 classes or the empty string.  R and Sw are not
    among them, although the tree has a branch for each: the test for R
    asks [pc1 >= gamma(pc2)] after that test has failed, and the test for
    Sw asks for a point below the beta line and above the delta line. *)
Theorem demeo_classes_assigned (w : world) (v : value) (w' : world) :
  Demeo.decision_tree w = (Ok v, w') ->
  exists c, attrs w' !! "class_demeo" = Some (VStr c)
            /\ In c demeo_assigned /\ c <> "R" /\ c <> "Sw".
Proof.
  intros H.
  destruct (assigned_tree w v w' Logic.I H) as (_ & c & ev & Hc & _ & Hin).
  exists c. split; [exact Hc|]. split; [exact Hin|].
  unfold assigned_ok, demeo_assigned in Hin. simpl in Hin.
  split; intros ->;
    repeat (destruct Hin as [Hin | Hin]; [discriminate Hin|]); exact Hin.
Qed.

Lemma demeo_classes_assigned_witness :
  exists c, attrs (after Demeo.decision_tree spectrum_Vw) !! "class_demeo" = Some (VStr c)
            /\ In c demeo_assigned.
Proof.
  destruct (demeo_classes_assigned spectrum_Vw VNone (after Demeo.decision_tree spectrum_Vw))
    as (c & Hc & Hin & _).
  - vm_compute. reflexivity.
  - exists c. split; assumption.
Defined.

(** ** A slope that is not a number *)

Lemma slope_nan_stable : stable slope_nan.
Proof.
  intros w w' Hag [rest H]. exists rest. rewrite <- H. symmetry.
  apply Hag. unfold is_class_demeo. discriminate.
Qed.

Lemma slope_nan_known (w : world) (x : float) (w' : world) :
  slope_nan w -> (arr_attr "slope" ≫= index0) w = (Ok x, w') -> x = NaN.
Proof.
  intros [rest Hs] H. rewrite (bind_ok _ _ _ _ _ (arr_attr_some _ _ _ Hs)) in H.
  inversion H. reflexivity.
Qed.

Ltac read_nan_slope :=
  apply (outcome_read_known _ _ _ _ (fun x => x = NaN));
  [ reads | intros ? ? ?; apply slope_nan_known | intros ? -> ].

(** A test of the slope that is taken to hold holds of no NaN. *)
Ltac no_slope_test :=
  match goal with
  | H : _ = true |- _ =>
      solve [ cbn in H; rewrite ?andb_false_r in H; discriminate H ]
  end.

Ltac slopeless_leaf :=
  cbv beta;
  first [ unreachable | no_slope_test
        | unfold slopeless_ok, slopeless_classes; simpl; tauto ].

Lemma slopeless_s_complex : outcome slope_nan slopeless_ok Demeo.demeo_s_complex.
Proof.
  pose proof slope_nan_stable as Hst.
  unfold Demeo.demeo_s_complex.
  do 4 (apply outcome_read; [reads | intros ?]).
  read_nan_slope.
  walk slopeless_leaf fail.
Qed.

Lemma slopeless_c_and_x : outcome slope_nan slopeless_ok Demeo.demeo_c_and_x_complexes.
Proof.
  pose proof slope_nan_stable as Hst.
  unfold Demeo.demeo_c_and_x_complexes.
  do 5 (apply outcome_read; [reads | intros ?]).
  read_nan_slope.
  walk slopeless_leaf fail.
Qed.

Lemma slopeless_step3 (pc1 pc2 pc3 : float) :
  outcome slope_nan slopeless_ok (Demeo.vis_ir_step3 pc1 pc2 pc3 NaN).
Proof.
  pose proof slope_nan_stable as Hst.
  unfold Demeo.vis_ir_step3.
  walk slopeless_leaf ltac:(apply slopeless_c_and_x).
Qed.

Lemma slopeless_step2 (pc1 pc2 pc3 : float) :
  outcome slope_nan slopeless_ok (Demeo.vis_ir_step2 pc1 pc2 pc3 NaN).
Proof.
  pose proof slope_nan_stable as Hst.
  unfold Demeo.vis_ir_step2.
  walk slopeless_leaf ltac:(first [apply slopeless_s_complex | apply slopeless_step3]).
Qed.

Lemma slopeless_tree : outcome slope_nan slopeless_ok Demeo.decision_tree.
Proof.
  pose proof slope_nan_stable as Hst.
  unfold Demeo.decision_tree, Demeo.vis_ir_step1, Demeo.warning.
  apply outcome_read; [apply ro_bind; [reads | intros; apply ro_unpack4]|].
  intros [[[pc1 pc2] pc3] pc4].
  read_nan_slope.
  walk slopeless_leaf ltac:(apply slopeless_step2).
Qed.

(** X7.  When the slope of the spectrum is NaN every test of the slope
    fails: a run of the DeMeo decision tree that returns leaves none of the
    weathered classes Vw, Qw, Sqw, Srw, Svw and none of A, Sa, D, T, B, X,
    which are given on a test of the slope only. *)
Theorem demeo_nan_slope (w : world) (v : value) (w' : world) :
  slope_nan w ->
  Demeo.decision_tree w = (Ok v, w') ->
  exists c ev,
    attrs w' !! "class_demeo" = Some (VStr c)
    /\ trace w' = (trace w ++ ev)%list
    /\ In c slopeless_classes
    /\ ~ In c weathered_classes
    /\ ~ In c ["A"; "Sa"; "D"; "T"; "B"; "X"].
Proof.
  intros Hs H.
  destruct (slopeless_tree w v w' Hs H) as (_ & c & ev & Hc & Ht & Hin).
  exists c, ev. split; [exact Hc|]. split; [exact Ht|]. split; [exact Hin|].
  unfold slopeless_ok, slopeless_classes in Hin. simpl in Hin.
  split; intros Hbad; simpl in Hbad;
    repeat (destruct Hbad as [<- | Hbad];
            [repeat (destruct Hin as [Hin | Hin]; [discriminate Hin|]); exact Hin|]);
    exact Hbad.
Qed.

Lemma demeo_nan_slope_witness :
  exists c, attrs (after Demeo.decision_tree spectrum_nan_slope) !! "class_demeo"
            = Some (VStr c)
            /\ c = "V".
Proof.
  destruct (demeo_nan_slope spectrum_nan_slope VNone
              (after Demeo.decision_tree spectrum_nan_slope))
    as (c & ev & Hc & _).
  - exists []. reflexivity.
  - vm_compute. reflexivity.
  - exists c. split; [exact Hc|]. vm_compute in Hc. congruence.
Defined.

(** ** What [classify] stores *)

Lemma matvec_length (m : list (list float)) (v scores : list float) :
  Np.matvec m v = Ok scores -> length scores = length m.
Proof.
  unfold Np.matvec. destruct (forallb _ m); [|discriminate].
  intros H. injection H as <-. apply length_map.
Qed.

(** X8.  After a run of the DeMeo [classify] that returns, [scores_demeo]
    holds the five products of the eigenvectors with the array bound to the
    name [data]: the reflectance of the spectrum, which is read and
    demeaned, does not enter the scores.  [class_demeo] holds [None], the
    value the decision tree returns, in place of the class the tree had
    assigned. *)
Theorem demeo_classify_stores (data : option (list float)) (w w' : world) :
  Demeo.classify data w = (Ok tt, w') ->
  exists d scores,
    data = Some d
    /\ Np.matvec Demeo.EIGENVECTORS d = Ok scores
    /\ length scores = 5%nat
    /\ attrs w' !! "scores_demeo" = Some (VArr scores)
    /\ attrs w' !! "class_demeo" = Some VNone.
Proof.
  intros H. unfold Demeo.classify in H.
  apply bind_inv in H as ([] & u1 & H1 & H).
  apply bind_inv in H as (refl & u2 & H2 & H).
  apply bind_inv in H as (d & u3 & H3 & H).
  destruct data as [d0|]; [|discriminate H3].
  inversion H3; subst d0 u3; clear H3.
  apply bind_inv in H as (scores & u4 & H4 & H).
  apply lift_inv in H4 as [Hmat ->].
  apply bind_inv in H as ([] & u5 & H5 & H).
  apply setattr_inv in H5 as ->.
  apply bind_inv in H as (class & u6 & H6 & H).
  apply bind_inv in H as ([] & u7 & H7 & H).
  apply setattr_inv in H7 as ->.
  inversion H; subst w'; clear H.
  exists d, scores. split; [reflexivity|]. split; [exact Hmat|].
  split; [exact (matvec_length _ _ _ Hmat)|]. simpl. split.
  - rewrite lookup_insert_ne by discriminate.
    pose proof (wo_demeo_tree is_class_demeo eq_refl
                  (World (<["scores_demeo" := VArr scores]> (attrs u2)) (trace u2))
                  "scores_demeo") as Hwo.
    rewrite H6 in Hwo. simpl in Hwo. rewrite Hwo by discriminate.
    apply lookup_insert_eq.
  - rewrite (rn_tree _ _ _ H6). apply lookup_insert_eq.
Qed.

Lemma demeo_classify_stores_witness :
  exists scores,
    attrs (after (Demeo.classify (Some data_A)) spectrum_A) !! "scores_demeo"
    = Some (VArr scores)
    /\ attrs (after (Demeo.classify (Some data_A)) spectrum_A2) !! "scores_demeo"
       = Some (VArr scores)
    /\ attrs (after (Demeo.classify (Some data_A)) spectrum_A2) !! "class_demeo"
       = Some VNone.
Proof.
  destruct (demeo_classify_stores (Some data_A) spectrum_A
              (after (Demeo.classify (Some data_A)) spectrum_A))
    as (d & s & Hd & Hs & _ & H1 & _); [vm_compute; reflexivity|].
  destruct (demeo_classify_stores (Some data_A) spectrum_A2
              (after (Demeo.classify (Some data_A)) spectrum_A2))
    as (d' & s' & Hd' & Hs' & _ & H1' & H2'); [vm_compute; reflexivity|].
  exists s. split; [exact H1|]. split; [|exact H2'].
  assert (d' = d) as -> by congruence.
  assert (s' = s) as -> by congruence.
  exact H1'.
Defined.

(** ** Wavelengths that are not numbers *)

Lemma fmin2_nan_r (a : float) : Np.fmin2 a NaN = NaN.
Proof. destruct a; reflexivity. Qed.

Lemma fmax2_nan_r (a : float) : Np.fmax2 a NaN = NaN.
Proof. destruct a; reflexivity. Qed.

Lemma fold_fmin2_nan (l : list float) : fold_left Np.fmin2 l NaN = NaN.
Proof. induction l as [|x l IH]; [reflexivity | exact IH]. Qed.

Lemma fold_fmax2_nan (l : list float) : fold_left Np.fmax2 l NaN = NaN.
Proof. induction l as [|x l IH]; [reflexivity | exact IH]. Qed.

Lemma amin_nan (l : list float) : In NaN l -> Np.amin l = Ok NaN.
Proof.
  destruct l as [|x l]; [intros []|]. simpl. intros [-> | H].
  - rewrite fold_fmin2_nan. reflexivity.
  - f_equal. revert x. induction l as [|y l IH]; intros x; simpl in *; [contradiction|].
    destruct H as [-> | H].
    + rewrite fmin2_nan_r. apply fold_fmin2_nan.
    + apply IH, H.
Qed.

Lemma amax_nan (l : list float) : In NaN l -> Np.amax l = Ok NaN.
Proof.
  destruct l as [|x l]; [intros []|]. simpl. intros [-> | H].
  - rewrite fold_fmax2_nan. reflexivity.
  - f_equal. revert x. induction l as [|y l IH]; intros x; simpl in *; [contradiction|].
    destruct H as [-> | H].
    + rewrite fmax2_nan_r. apply fold_fmax2_nan.
    + apply IH, H.
Qed.

(** X9.  A NaN among the wavelengths of a spectrum makes [wave.min()] and
    [wave.max()] NaN, and every comparison of the two coverage tests
    false: [is_classifiable] of the DeMeo scheme returns [True] and logs
    nothing, and the Mahlke [classify] does not give up but goes on to load
    the model, whatever the other wavelengths are. *)
Theorem coverage_tests_pass_nan
    (mcfa_from_file : result Mahlke.MCFA) (COLUMNS_all CLASSES : list string)
    (assign_classes : Mahlke.frame -> Mahlke.frame)
    (add_feature_flags : gmap string value -> Mahlke.frame -> Mahlke.frame)
    (w : world) (wave : list float) :
  attrs w !! "wave" = Some (VArr wave) ->
  In NaN wave ->
  Demeo.is_classifiable w = (Ok true, w)
  /\ Mahlke.out_of_range w = (Ok false, w)
  /\ exists ev,
       trace (after (Mahlke.classify mcfa_from_file COLUMNS_all CLASSES
                       assign_classes add_feature_flags) w)
       = (trace w ++ Call "mcfa.from_file" :: ev)%list.
Proof.
  intros Hwave Hnan.
  pose proof (amin_nan wave Hnan) as Hmin.
  pose proof (amax_nan wave Hnan) as Hmax.
  pose proof (mahlke_out_of_range_run w wave NaN NaN Hwave Hmin Hmax) as Htest.
  simpl in Htest.
  split; [|split; [exact Htest|]].
  - unfold Demeo.is_classifiable.
    rewrite (bind_ok _ _ _ _ _ (arr_attr_some _ _ _ Hwave)).
    rewrite Hmin, Hmax.
    change (Np.amin Demeo.WAVE) with (@Ok float (Fin (9 # 20))).
    change (Np.amax Demeo.WAVE) with (@Ok float (Fin (49 # 20))).
    reflexivity.
  - unfold after, Mahlke.classify.
    rewrite (bind_ok _ _ _ _ _ Htest).
    unfold Mahlke.classify_in_range, Mahlke.load_mcfa.
    unfold mbind at 1, M_bind at 1. unfold mbind at 1, M_bind at 1.
    unfold emit at 1, Np.lift at 1. cbv beta iota.
    destruct mcfa_from_file as [model | e].
    + destruct (trace_grows _ _
                  (World (attrs w) (trace w ++ [Call "mcfa.from_file"]))
                  (det_mahlke_with COLUMNS_all CLASSES assign_classes
                     add_feature_flags model)) as [ev Hev].
      exists ev. rewrite Hev. simpl. rewrite <- app_assoc. reflexivity.
    + exists []. reflexivity.
Qed.

Lemma coverage_tests_pass_nan_witness :
  Demeo.is_classifiable spectrum_nan_wave = (Ok true, spectrum_nan_wave)
  /\ Mahlke.out_of_range spectrum_nan_wave = (Ok false, spectrum_nan_wave).
Proof.
  destruct (coverage_tests_pass_nan (Ok toy_mcfa) ["refl_0"; "refl_1"; "pV"] ["S"]
              toy_assign_classes toy_feature_flags
              spectrum_nan_wave [Fin 0.5; NaN; Fin 1.0])
    as (H1 & H2 & _).
  - reflexivity.
  - simpl. tauto.
  - split; assumption.
Defined.

(** ** What the Mahlke classifier assigns *)

Lemma wo_for_loop (K : string -> Prop) {A B : Type}
    (body : B -> A -> M B) (l : list A) (acc : B) :
  (forall b x, In x l -> writes_only K (body b x)) ->
  writes_only K (Mahlke.for_loop body l acc).
Proof.
  revert acc. induction l as [|x l IH]; intros acc Hb; simpl.
  - apply wo_ret.
  - apply wo_bind; [apply Hb; left; reflexivity|].
    intros acc'. apply IH. intros b y Hy. apply Hb. right. exact Hy.
Qed.

Lemma wo_as_frame (K : string -> Prop) (v : value) : writes_only K (Mahlke.as_frame v).
Proof. destruct v; simpl; auto using wo_ret, wo_raise. Qed.

Lemma wo_method (K : string -> Prop) {A : Type} (f : gmap string value -> A) :
  writes_only K (method f).
Proof. intros w k Hk. reflexivity. Qed.

Section MahlkeWrites.

Variable mcfa_from_file : result Mahlke.MCFA.
Variables COLUMNS_all CLASSES : list string.
Variable assign_classes : Mahlke.frame -> Mahlke.frame.
Variable add_feature_flags : gmap string value -> Mahlke.frame -> Mahlke.frame.

Ltac mahlke_writes :=
  repeat first
    [ apply wo_method | apply wo_as_frame
    | apply wo_ret | apply wo_raise | apply wo_emit | apply wo_lift
    | apply wo_num_attr | apply wo_arr_attr | apply wo_getattr
    | apply wo_setattr; unfold mahlke_result; simpl; tauto
    | apply wo_if
    | apply wo_bind; [|intros ?] ].

Lemma wo_mahlke_with (model : Mahlke.MCFA) :
  writes_only (mahlke_result CLASSES)
    (Mahlke.classify_with COLUMNS_all CLASSES assign_classes add_feature_flags model).
Proof.
  unfold Mahlke.classify_with.
  repeat first
    [ apply wo_for_loop; intros ? c Hc; mahlke_writes;
      try (apply wo_setattr; right; exists c; split; [exact Hc | reflexivity])
    | progress mahlke_writes ].
Qed.

Lemma wo_mahlke_in_range :
  writes_only (mahlke_result CLASSES)
    (Mahlke.classify_in_range mcfa_from_file COLUMNS_all CLASSES
       assign_classes add_feature_flags).
Proof.
  unfold Mahlke.classify_in_range, Mahlke.load_mcfa.
  apply wo_bind; [mahlke_writes | intros model; apply wo_mahlke_with].
Qed.

Lemma wo_mahlke_classify :
  writes_only (mahlke_written CLASSES)
    (Mahlke.classify mcfa_from_file COLUMNS_all CLASSES
       assign_classes add_feature_flags).
Proof.
  unfold Mahlke.classify, Mahlke.out_of_range.
  apply wo_bind.
  - repeat first
      [ apply wo_ret | apply wo_lift | apply wo_arr_attr | apply wo_if
      | apply wo_bind; [|intros ?] ].
  - intros [|].
    + repeat first
        [ apply wo_setattr; left; reflexivity
        | apply wo_emit | apply wo_getattr | apply wo_bind; [|intros ?] ].
    + intros w k Hk. apply wo_mahlke_in_range. intros H. apply Hk. right. exact H.
Qed.

End MahlkeWrites.

Lemma class_mahlke_result (CLASSES : list string) :
  ~ In "mahlke" CLASSES -> ~ mahlke_result CLASSES "class_mahlke".
Proof.
  intros Hno [Hin | (c & Hc & E)].
  - simpl in Hin. repeat (destruct Hin as [Hin | Hin]; [discriminate Hin|]). exact Hin.
  - cbv [append] in E. injection E as <-. contradiction.
Qed.

(** X10.  The Mahlke [classify] assigns no attribute of the spectrum but
    [class_mahlke], [responsibility], [data_imputed], [data_latent],
    [data_classified], [class_] and one [class_<c>] for each class [c] of
    the scheme.  When it does not give up on the wavelength range it
    leaves [class_mahlke] as it was (no class of the scheme being named
    "mahlke"): the class is reported in [class_], and the attribute that
    holds the empty string after a refusal is not set after a success. *)
Theorem mahlke_attributes_assigned
    (mcfa_from_file : result Mahlke.MCFA) (COLUMNS_all CLASSES : list string)
    (assign_classes : Mahlke.frame -> Mahlke.frame)
    (add_feature_flags : gmap string value -> Mahlke.frame -> Mahlke.frame)
    (w : world) :
  let classify :=
    Mahlke.classify mcfa_from_file COLUMNS_all CLASSES assign_classes add_feature_flags in
  (forall k, ~ mahlke_written CLASSES k -> attrs (after classify w) !! k = attrs w !! k)
  /\ (~ In "mahlke" CLASSES ->
      run Mahlke.out_of_range w = Ok false ->
      attrs (after classify w) !! "class_mahlke" = attrs w !! "class_mahlke").
Proof.
  intros classify. subst classify. split.
  - intros k Hk. apply (wo_mahlke_classify _ _ _ _ _ w k Hk).
  - intros Hno Hrun. unfold after, Mahlke.classify.
    pose proof (reads_only_run Mahlke.out_of_range w) as Hro.
    rewrite bind_run, Hro, Hrun.
    + apply (wo_mahlke_in_range mcfa_from_file COLUMNS_all CLASSES assign_classes
               add_feature_flags w "class_mahlke").
      apply class_mahlke_result, Hno.
    + unfold Mahlke.out_of_range.
      repeat first [ apply ro_if | apply ro_ret | apply ro_lift | apply ro_arr_attr
                   | apply ro_bind; [|intros ?] ].
Qed.

Lemma mahlke_attributes_assigned_witness :
  attrs (after toy_classify spectrum_vis) !! "class_mahlke" = None
  /\ attrs (after toy_classify spectrum_vis) !! "name" = Some (VStr "Ceres").
Proof.
  destruct (mahlke_attributes_assigned (Ok toy_mcfa) ["refl_0"; "refl_1"; "pV"] ["S"]
              toy_assign_classes toy_feature_flags spectrum_vis) as [H1 H2].
  split.
  - unfold toy_classify. rewrite H2; [reflexivity | | vm_compute; reflexivity].
    simpl. intros [E | []]. discriminate E.
  - unfold toy_classify. rewrite H1; [reflexivity|].
    intros [E | [Hin | (c & Hc & E)]].
    + discriminate E.
    + simpl in Hin. repeat (destruct Hin as [Hin | Hin]; [discriminate Hin|]). exact Hin.
    + simpl in Hc. destruct Hc as [<- | []]. discriminate E.
Defined.

(** ** A run of the Mahlke classifier that returns *)

Lemma run_after {A : Type} (m : M A) (w : world) (a : A) :
  run m w = Ok a -> m w = (Ok a, after m w).
Proof. unfold run, after. destruct (m w) as [r u]. simpl. intros ->. reflexivity. Qed.


Lemma emit_inv (e : event) (w w' : world) :
  emit e w = (Ok tt, w') -> w' = World (attrs w) (trace w ++ [e]).
Proof. unfold emit. intros H. inversion H. reflexivity. Qed.

Lemma reads_only_inv {A : Type} (m : M A) (w w' : world) (r : result A) :
  reads_only m -> m w = (r, w') -> w' = w.
Proof. intros Hm H. specialize (Hm w). rewrite H in Hm. exact Hm. Qed.

Lemma ro_for_loop {A B : Type} (body : B -> A -> M B) (l : list A) (acc : B) :
  (forall b x, reads_only (body b x)) -> reads_only (Mahlke.for_loop body l acc).
Proof.
  intros Hb. revert acc. induction l as [|x l IH]; intros acc; simpl.
  - apply ro_ret.
  - apply ro_bind; [apply Hb | intros; apply IH].
Qed.

Lemma ro_as_frame (v : value) : reads_only (Mahlke.as_frame v).
Proof. destruct v; simpl; auto using ro_ret, ro_raise. Qed.

Lemma ro_method {A : Type} (f : gmap string value -> A) : reads_only (method f).
Proof. intros w. reflexivity. Qed.

(** A name that starts with [class_] is none of the other attributes the
    classifier assigns. *)
Definition no_class_attribute (k : string) : Prop := forall c, k <> "class_" ++ c.

Lemma class_attribute_inj (c c' : string) : "class_" ++ c = "class_" ++ c' -> c = c'.
Proof. cbv [append]. intros H. injection H as H. exact H. Qed.

(** The loop over the classes leaves the trace as it was, and every
    attribute but the [class_<c>] of the classes [c] it goes through;
    these it sets to the entries of the columns of [data_classified]. *)
Lemma class_loop_frame (CLASSES : list string) (w w' : world) :
  Mahlke.for_loop
    (fun (_ : unit) class_ =>
       data_classified ← getattr "data_classified" ≫= Mahlke.as_frame;
       c ← Np.lift (Mahlke.get_col ("class_" ++ class_) data_classified);
       setattr ("class_" ++ class_) c)
    CLASSES tt w = (Ok tt, w') ->
  trace w' = trace w
  /\ (forall k, (forall c, In c CLASSES -> k <> "class_" ++ c) ->
        attrs w' !! k = attrs w !! k)
  /\ (forall df c, attrs w !! "data_classified" = Some (VFrame df) -> In c CLASSES ->
        exists v, Mahlke.get_col ("class_" ++ c) df = Ok v
                  /\ attrs w' !! ("class_" ++ c) = Some v).
Proof.
  revert w. induction CLASSES as [|class_ l IH]; intros w H; simpl in H.
  - inversion H. split; [reflexivity|]. split; [reflexivity|]. intros df c _ [].
  - apply bind_inv in H as ([] & u & Hbody & H).
    apply bind_inv in Hbody as (df0 & u1 & H1 & Hbody).
    pose proof H1 as Hdf.
    apply (reads_only_inv _ _ _ _
             (ro_bind _ _ (ro_getattr _) ro_as_frame)) in H1 as ->.
    apply bind_inv in Hbody as (v0 & u2 & H2 & Hbody).
    apply lift_inv in H2 as [Hv0 ->].
    apply setattr_inv in Hbody as ->.
    destruct (IH _ H) as (Ht & Ha & Hv). split; [exact Ht|]. split.
    + intros k Hk. rewrite (Ha k) by (intros c Hc; apply Hk; right; exact Hc).
      simpl. apply lookup_insert_ne. intros E.
      exact (Hk class_ (or_introl eq_refl) (eq_sym E)).
    + intros df c Hw Hin.
      assert (df0 = df) as ->.
      { apply bind_inv in Hdf as (x & u3 & Hg & Hf).
        apply getattr_inv in Hg as [-> Hg]. rewrite Hw in Hg. injection Hg as <-.
        simpl in Hf. inversion Hf. reflexivity. }
      destruct (in_dec string_dec c l) as [Hl | Hl].
      * apply (Hv df c); [|exact Hl].
        simpl. rewrite lookup_insert_ne by discriminate. exact Hw.
      * destruct Hin as [<- | Hin]; [|contradiction].
        exists v0. split; [exact Hv0|].
        rewrite Ha.
        -- simpl. apply lookup_insert_eq.
        -- intros c Hc E. apply class_attribute_inj in E. subst c. contradiction.
Qed.

Section MahlkeRun.

Variables COLUMNS_all CLASSES : list string.
Variable assign_classes : Mahlke.frame -> Mahlke.frame.
Variable add_feature_flags : gmap string value -> Mahlke.frame -> Mahlke.frame.
Variable model : Mahlke.MCFA.

Lemma classify_with_inv (w w' : world) :
  Mahlke.classify_with COLUMNS_all CLASSES assign_classes add_feature_flags model w
  = (Ok tt, w') ->
  exists refl_pre pV_pre input self c,
    let df0 := assign_classes input in
    let df := add_feature_flags self df0 in
    attrs w !! "refl_pre" = Some (VArr refl_pre)
    /\ attrs w !! "pV_pre" = Some (VNum pV_pre)
    /\ Mahlke.get_col "class_" df = Ok c
    /\ trace w' = (trace w ++ mahlke_events)%list
    /\ attrs w' !! "class_" = Some c
    /\ attrs w' !! "data_classified" = Some (VFrame df)
    /\ (forall c', In c' CLASSES -> c' <> EmptyString ->
          exists v, Mahlke.get_col ("class_" ++ c') df0 = Ok v
                    /\ attrs w' !! ("class_" ++ c') = Some v)
    /\ forall k, no_class_attribute k -> k <> "data_classified" ->
         attrs w' !! k =
         <["data_latent" :=
             VArr (Mahlke.transform model
                     (Mahlke.impute model (refl_pre ++ [pV_pre])%list))]>
           (<["data_imputed" := VArr (Mahlke.impute model (refl_pre ++ [pV_pre])%list)]>
              (<["responsibility" :=
                   VArr (Mahlke.predict_proba model (refl_pre ++ [pV_pre])%list)]>
                 (attrs w))) !! k.
Proof.
  intros H. unfold Mahlke.classify_with in H.
  apply bind_inv in H as (refl_pre & u & H1 & H).
  apply arr_attr_inv in H1 as [-> Hrefl].
  apply bind_inv in H as (pV_pre & u & H1 & H).
  apply num_attr_inv in H1 as [-> HpV].
  apply bind_inv in H as ([] & u & H1 & H). apply emit_inv in H1 as ->.
  apply bind_inv in H as ([] & u & H1 & H). apply setattr_inv in H1 as ->.
  apply bind_inv in H as ([] & u & H1 & H). apply emit_inv in H1 as ->.
  apply bind_inv in H as ([] & u & H1 & H). apply setattr_inv in H1 as ->.
  apply bind_inv in H as (imputed & u & H1 & H).
  apply arr_attr_inv in H1 as [-> Himp].
  simpl in Himp. rewrite lookup_insert_eq in Himp. injection Himp as <-.
  apply bind_inv in H as ([] & u & H1 & H). apply emit_inv in H1 as ->.
  apply bind_inv in H as ([] & u & H1 & H). apply setattr_inv in H1 as ->.
  apply bind_inv in H as (input1 & u & H1 & H).
  apply reads_only_inv in H1 as ->;
    [|apply ro_for_loop; intros; reads].
  apply bind_inv in H as (resp & u & H1 & H).
  apply arr_attr_inv in H1 as [-> _].
  apply bind_inv in H as (cluster & u & H1 & H).
  apply lift_inv in H1 as [_ ->].
  apply bind_inv in H as (input2 & u & H1 & H).
  apply reads_only_inv in H1 as ->;
    [|apply ro_for_loop; intros; reads].
  apply bind_inv in H as ([] & u & H1 & H). apply emit_inv in H1 as ->.
  apply bind_inv in H as ([] & u & H1 & H). apply setattr_inv in H1 as ->.
  apply bind_inv in H as ([] & u & H1 & H).
  apply class_loop_frame in H1 as (Htrace & Hattrs & Hvalues).
  apply bind_inv in H as (df0 & u0 & H1 & H).
  pose proof H1 as Hdf0.
  apply (reads_only_inv _ _ _ _
           (ro_bind _ _ (ro_getattr _) ro_as_frame)) in H1 as ->.
  apply bind_inv in Hdf0 as (vdf0 & u0 & Hget0 & Hfr0).
  apply getattr_inv in Hget0 as [-> Hget0].
  rewrite Hattrs in Hget0 by (intros; discriminate).
  simpl in Hget0. rewrite lookup_insert_eq in Hget0. injection Hget0 as <-.
  simpl in Hfr0. inversion Hfr0; subst df0; clear Hfr0.
  apply bind_inv in H as ([] & u0 & H1 & H). apply emit_inv in H1 as ->.
  apply bind_inv in H as (flagged & u0 & H1 & H).
  unfold method in H1. inversion H1; subst flagged u0; clear H1.
  apply bind_inv in H as ([] & u0 & H1 & H). apply setattr_inv in H1 as ->.
  apply bind_inv in H as (df & u0 & H1 & H).
  pose proof H1 as Hdf.
  apply (reads_only_inv _ _ _ _
           (ro_bind _ _ (ro_getattr _) ro_as_frame)) in H1 as ->.
  apply bind_inv in Hdf as (vdf & u0 & Hget & Hfr).
  apply getattr_inv in Hget as [-> Hget].
  simpl in Hget. rewrite lookup_insert_eq in Hget. injection Hget as <-.
  simpl in Hfr. inversion Hfr; subst df; clear Hfr.
  apply bind_inv in H as (c & u0 & H1 & H).
  apply lift_inv in H1 as [Hc ->].
  apply bind_inv in H as ([] & u0 & H1 & H). apply setattr_inv in H1 as ->.
  apply bind_inv in H as ([] & u0 & H1 & H). apply emit_inv in H1 as ->.
  apply emit_inv in H as ->.
  eexists refl_pre, pV_pre, _, _, c. cbv zeta.
  split; [exact Hrefl|]. split; [exact HpV|]. split; [exact Hc|].
  simpl. rewrite Htrace. simpl. split.
  { unfold mahlke_events. rewrite <- !app_assoc. reflexivity. }
  split; [apply lookup_insert_eq|].
  split; [rewrite lookup_insert_ne by discriminate; apply lookup_insert_eq|].
  split.
  - intros c' Hin Hne.
    destruct (Hvalues _ c' (lookup_insert_eq _ _ _) Hin) as (v & Hv & Hlook).
    exists v. split; [exact Hv|].
    rewrite lookup_insert_ne.
    + rewrite lookup_insert_ne by discriminate. exact Hlook.
    + intros E. apply Hne. apply (class_attribute_inj EmptyString c') in E.
      symmetry. exact E.
  - intros k Hk Hk'.
    rewrite lookup_insert_ne by (intros <-; apply (Hk EmptyString); reflexivity).
    rewrite lookup_insert_ne by congruence.
    rewrite (Hattrs k (fun c _ => Hk c)). simpl.
    rewrite lookup_insert_ne by congruence. reflexivity.
Qed.

End MahlkeRun.

(** X11.  A run of the Mahlke classifier that returns, once the model is
    loaded, hands the model the reflectances [refl_pre] followed by
    [pV_pre]: [responsibility] holds what [predict_proba] gives for this
    input, [data_imputed] what [impute] gives for it, and [data_latent]
    what [transform] gives for the imputed data.  The run makes five calls,
    in this order: [predict_proba], [impute], [transform],
    [assign_classes], [add_feature_flags]; then it prints two lines. *)
Theorem mahlke_model_pipeline
    (COLUMNS_all CLASSES : list string)
    (assign_classes : Mahlke.frame -> Mahlke.frame)
    (add_feature_flags : gmap string value -> Mahlke.frame -> Mahlke.frame)
    (model : Mahlke.MCFA) (w w' : world) :
  Mahlke.classify_with COLUMNS_all CLASSES assign_classes add_feature_flags model w
  = (Ok tt, w') ->
  exists refl_pre pV_pre,
    let x := (refl_pre ++ [pV_pre])%list in
    attrs w !! "refl_pre" = Some (VArr refl_pre)
    /\ attrs w !! "pV_pre" = Some (VNum pV_pre)
    /\ attrs w' !! "responsibility" = Some (VArr (Mahlke.predict_proba model x))
    /\ attrs w' !! "data_imputed" = Some (VArr (Mahlke.impute model x))
    /\ attrs w' !! "data_latent"
       = Some (VArr (Mahlke.transform model (Mahlke.impute model x)))
    /\ trace w' = (trace w ++ mahlke_events)%list.
Proof.
  intros H.
  destruct (classify_with_inv _ _ _ _ _ _ _ H)
    as (refl_pre & pV_pre & input & self & c & Hrefl & HpV & _ & Ht & _ & _ & _ & Hk).
  exists refl_pre, pV_pre. cbv zeta.
  split; [exact Hrefl|]. split; [exact HpV|].
  assert (Hno : forall k, String.get 0 k <> String.get 0 "c" -> no_class_attribute k).
  { intros k Hget c' ->. apply Hget. reflexivity. }
  rewrite !Hk by (try apply Hno; discriminate).
  split; [|split; [|split; [|exact Ht]]].
  - rewrite !lookup_insert_ne by discriminate. apply lookup_insert_eq.
  - rewrite lookup_insert_ne by discriminate. apply lookup_insert_eq.
  - apply lookup_insert_eq.
Qed.

Lemma mahlke_model_pipeline_witness :
  attrs (after toy_classify_with spectrum_vis) !! "responsibility"
  = Some (VArr [Fin 0.25; Fin 0.75])
  /\ trace (after toy_classify_with spectrum_vis) = mahlke_events.
Proof.
  destruct (mahlke_model_pipeline ["refl_0"; "refl_1"; "pV"] ["S"]
              toy_assign_classes toy_feature_flags toy_mcfa spectrum_vis
              (after toy_classify_with spectrum_vis))
    as (r & p & _ & _ & H1 & _ & _ & H2).
  - apply run_after. vm_compute. reflexivity.
  - split; [exact H1 | exact H2].
Defined.

(** X12.  After a run of the Mahlke classifier that returns, each
    [class_<c>] of a class [c] of the scheme holds the entry of the column
    of that name in the frame that [assign_classes] returned, while
    [class_] holds the entry of the column [class_] in the frame that
    [add_feature_flags] made of it, which is the frame [data_classified]
    holds at the end. *)
Theorem mahlke_classes_from_frames
    (COLUMNS_all CLASSES : list string)
    (assign_classes : Mahlke.frame -> Mahlke.frame)
    (add_feature_flags : gmap string value -> Mahlke.frame -> Mahlke.frame)
    (model : Mahlke.MCFA) (w w' : world) :
  Mahlke.classify_with COLUMNS_all CLASSES assign_classes add_feature_flags model w
  = (Ok tt, w') ->
  exists input self c,
    let df0 := assign_classes input in
    let df := add_feature_flags self df0 in
    attrs w' !! "data_classified" = Some (VFrame df)
    /\ Mahlke.get_col "class_" df = Ok c
    /\ attrs w' !! "class_" = Some c
    /\ forall c', In c' CLASSES -> c' <> EmptyString ->
         exists v, Mahlke.get_col ("class_" ++ c') df0 = Ok v
                   /\ attrs w' !! ("class_" ++ c') = Some v.
Proof.
  intros H.
  destruct (classify_with_inv _ _ _ _ _ _ _ H)
    as (refl_pre & pV_pre & input & self & c & _ & _ & Hc & _ & Hclass & Hdf & Hcs & _).
  exists input, self, c. cbv zeta. auto.
Qed.

Lemma mahlke_classes_from_frames_witness :
  exists v, attrs (after toy_classify_with spectrum_vis) !! "class_S" = Some v.
Proof.
  destruct (mahlke_classes_from_frames ["refl_0"; "refl_1"; "pV"] ["S"]
              toy_assign_classes toy_feature_flags toy_mcfa spectrum_vis
              (after toy_classify_with spectrum_vis))
    as (input & self & c & _ & _ & _ & Hcs).
  - apply run_after. vm_compute. reflexivity.
  - destruct (Hcs "S") as (v & _ & Hv); [left; reflexivity | discriminate|].
    exists v. exact Hv.
Defined.

(** ** The grid of the Mahlke scheme *)


(** ** Preprocessing and then classifying *)

Section DemeoPreprocess.

Variable spec_smooth : M unit.
Variable spec_normalize : float -> M unit.
Variable spec_remove_slope : float -> M unit.
Variable spec_resample : list float -> M unit.

Let preprocess :=
  DemeoPreprocessing.preprocess spec_smooth spec_normalize spec_remove_slope spec_resample.

Lemma demeo_preprocess_inv (smooth : bool) (w w' : world) :
  preprocess smooth w = (Ok tt, w') ->
  exists u, w' = World (<["is_preprocessed_demeo" := VBool true]> (attrs u))
                       (trace u ++ [Breakpoint]).
Proof.
  intros H. unfold preprocess, DemeoPreprocessing.preprocess in H.
  apply bind_inv in H as ([] & u1 & _ & H).
  apply bind_inv in H as ([] & u2 & _ & H).
  apply bind_inv in H as ([] & u3 & _ & H).
  apply bind_inv in H as ([] & u4 & _ & H).
  apply bind_inv in H as ([] & u5 & H5 & H).
  apply emit_inv in H5 as ->. apply setattr_inv in H as ->.
  exists u4. reflexivity.
Qed.

Lemma check_after_preprocess (smooth : bool) (w : world) :
  (preprocess smooth;; Demeo.check_preprocessed) w = preprocess smooth w.
Proof.
  rewrite bind_run.
  destruct (preprocess smooth w) as [[[]|e] w'] eqn:E; [|reflexivity].
  destruct (demeo_preprocess_inv smooth w w' E) as [u ->].
  unfold Demeo.check_preprocessed.
  rewrite bind_run, bind_run, (getattr_some _ (VBool true)) by apply lookup_insert_eq.
  reflexivity.
Qed.

End DemeoPreprocess.

(** X14.  Every run of the DeMeo [preprocess] that returns has stopped at
    [breakpoint()] as the last thing it did before it set
    [is_preprocessed_demeo] to [True].  The first block of [classify] then
    lets the spectrum through without a warning and without comparing its
    wavelengths with the grid, whatever the methods of the spectrum did:
    running it after [preprocess] changes nothing. *)
Theorem demeo_preprocess_then_check
    (spec_smooth : M unit) (spec_normalize spec_remove_slope : float -> M unit)
    (spec_resample : list float -> M unit) (smooth : bool) (w : world) :
  let preprocess :=
    DemeoPreprocessing.preprocess spec_smooth spec_normalize spec_remove_slope
      spec_resample smooth in
  (preprocess;; Demeo.check_preprocessed) w = preprocess w
  /\ forall w', preprocess w = (Ok tt, w') ->
       exists u, w' = World (<["is_preprocessed_demeo" := VBool true]> (attrs u))
                            (trace u ++ [Breakpoint]).
Proof.
  intros preprocess. subst preprocess. split.
  - apply check_after_preprocess.
  - intros w'. apply demeo_preprocess_inv.
Qed.

Lemma demeo_preprocess_then_check_witness :
  exists u,
    after (toy_demeo_preprocess false) spectrum_off_grid
    = World (<["is_preprocessed_demeo" := VBool true]> (attrs u)) (trace u ++ [Breakpoint]).
Proof.
  apply (proj2 (demeo_preprocess_then_check toy_nothing toy_at toy_at toy_resample
                  false spectrum_off_grid)).
  vm_compute. reflexivity.
Defined.

(** X15.  A run of the Mahlke [preprocess] that returns has set [pV_pre]
    to the decimal logarithm of the albedo [pV] that the methods of the
    spectrum left, after these methods and as its only own assignment.
    When [classify] runs next and returns, the input of the model is the
    reflectances [refl_pre] followed by that logarithm. *)
Theorem mahlke_preprocess_then_classify
    (spec_detect_features : M unit) (spec_resample : list float -> value -> M unit)
    (spec_normalize : string -> M unit) (log10 : float -> float)
    (resample_params : value)
    (COLUMNS_all CLASSES : list string)
    (assign_classes : Mahlke.frame -> Mahlke.frame)
    (add_feature_flags : gmap string value -> Mahlke.frame -> Mahlke.frame)
    (model : Mahlke.MCFA) (w : world) :
  let preprocess :=
    MahlkePreprocessing.preprocess spec_detect_features spec_resample spec_normalize
      log10 resample_params in
  let classify :=
    Mahlke.classify_with COLUMNS_all CLASSES assign_classes add_feature_flags model in
  (forall w', preprocess w = (Ok tt, w') ->
     exists u pV, attrs u !! "pV" = Some (VNum pV)
                  /\ w' = World (<["pV_pre" := VNum (log10 pV)]> (attrs u)) (trace u))
  /\ (forall w', (preprocess;; classify) w = (Ok tt, w') ->
        exists refl_pre pV,
          attrs w' !! "refl_pre" = Some (VArr refl_pre)
          /\ attrs w' !! "pV" = Some (VNum pV)
          /\ attrs w' !! "responsibility"
             = Some (VArr (Mahlke.predict_proba model (refl_pre ++ [log10 pV])%list))).
Proof.
  intros preprocess classify.
  assert (Hpre : forall w', preprocess w = (Ok tt, w') ->
            exists u pV, attrs u !! "pV" = Some (VNum pV)
                         /\ w' = World (<["pV_pre" := VNum (log10 pV)]> (attrs u)) (trace u)).
  { intros w' H. unfold preprocess, MahlkePreprocessing.preprocess in H.
    apply bind_inv in H as ([] & u1 & _ & H).
    apply bind_inv in H as ([] & u2 & _ & H).
    apply bind_inv in H as ([] & u3 & _ & H).
    apply bind_inv in H as (pV & u4 & H4 & H).
    apply num_attr_inv in H4 as [-> HpV].
    apply setattr_inv in H as ->. eauto. }
  split; [exact Hpre|].
  intros w' H. apply bind_inv in H as ([] & w1 & H1 & H).
  destruct (Hpre w1 H1) as (u & pV & HpV & ->).
  destruct (classify_with_inv _ _ _ _ _ _ _ H)
    as (refl_pre & pV_pre & input & self & c & Hrefl & Hpre' & _ & _ & _ & _ & _ & Hk).
  simpl in Hrefl, Hpre'.
  rewrite lookup_insert_ne in Hrefl by discriminate.
  rewrite lookup_insert_eq in Hpre'. injection Hpre' as <-.
  assert (Hno : forall k, String.get 0 k <> String.get 0 "c" -> no_class_attribute k).
  { intros k Hget c' ->. apply Hget. reflexivity. }
  exists refl_pre, pV.
  rewrite !Hk by (try apply Hno; discriminate). simpl.
  split; [|split].
  - rewrite !lookup_insert_ne by discriminate. exact Hrefl.
  - rewrite !lookup_insert_ne by discriminate. exact HpV.
  - rewrite !lookup_insert_ne by discriminate. apply lookup_insert_eq.
Qed.

Lemma mahlke_preprocess_then_classify_witness :
  exists u pV,
    attrs u !! "pV" = Some (VNum pV)
    /\ after toy_mahlke_preprocess spectrum_new
       = World (<["pV_pre" := VNum (log10_floor pV)]> (attrs u)) (trace u).
Proof.
  apply (proj1 (mahlke_preprocess_then_classify toy_nothing toy_resample_with toy_mixnorm
                  log10_floor VNone ["refl_0"; "refl_1"; "pV"] ["S"]
                  toy_assign_classes toy_feature_flags toy_mcfa spectrum_new)).
  vm_compute. reflexivity.
Defined.

(** ** A row of the table with a score that is not a number *)

Lemma distance_is_Fin (sqrtQ : Q -> Q) (scores : list float) (r : Tholen.ecas_row) :
  finite scores -> finite_row r -> exists d, distance sqrtQ scores r = Fin d.
Proof.
  intros Hs Hr.
  destruct (finite_map_Fin _ Hs) as [qs ->].
  destruct (finite_map_Fin _ Hr) as [rs Hrs].
  unfold distance, Np.norm, Np.dot, Np.fsum. rewrite Hrs.
  rewrite zip_sub_Fin, zip_mul_Fin.
  destruct (fold_fadd_Fin (squares (diffs qs rs)) 0) as (s & -> & Hsum).
  pose proof (Qsum_squares_nonneg (diffs qs rs)) as Hn.
  simpl. destruct (Qltb s 0) eqn:E.
  - apply Qltb_lt in E. lra.
  - eauto.
Qed.

Lemma fmul_nan_l (a : float) : NaN * a = NaN.
Proof. reflexivity. Qed.

Lemma zip_nan_r (a b : list float) :
  length a = length b -> In NaN b -> In NaN (Np.zip_with_f fsub a b).
Proof.
  revert b. induction a as [|x a IH]; intros [|y b] Hlen Hin; simpl in *; try discriminate.
  - contradiction.
  - destruct Hin as [-> | Hin].
    + left. unfold fsub. simpl. apply fadd_nan_r.
    + right. apply IH; auto.
Qed.

Lemma distance_nan_row (sqrtQ : Q -> Q) (scores : list float) (r : Tholen.ecas_row) :
  length scores = 7%nat -> In NaN (Tholen.values r) -> distance sqrtQ scores r = NaN.
Proof.
  intros Hlen Hin. unfold distance, Np.norm, Np.dot.
  rewrite fsum_nan; [reflexivity|].
  apply zip_mul_nan, zip_nan_r; auto.
Qed.

(** [np.argmin] gives the index of the first NaN. *)
Lemma argmin_from_first_nan (a : list float) (j best_i i : nat) (b : Q) :
  a !! j = Some NaN ->
  (forall k, (k < j)%nat -> exists q, a !! k = Some (Fin q)) ->
  Np.argmin_from best_i (Fin b) i a = (i + j)%nat.
Proof.
  revert j best_i i b. induction a as [|x a IH]; intros j best_i i b Hj Hbefore.
  - rewrite lookup_nil in Hj. discriminate.
  - destruct j as [|j]; simpl in Hj.
    + injection Hj as ->. simpl. rewrite Nat.add_0_r. destruct a; reflexivity.
    + destruct (Hbefore 0%nat ltac:(lia)) as [q Hq]. simpl in Hq. injection Hq as ->.
      assert (Hrest : forall k, (k < j)%nat -> exists q', a !! k = Some (Fin q')).
      { intros k Hk. apply (Hbefore (S k)). lia. }
      simpl. destruct (negb (Qle_bool b q)).
      * rewrite (IH j i (S i) q Hj Hrest). lia.
      * rewrite (IH j best_i (S i) b Hj Hrest). lia.
Qed.

Lemma argmin_first_nan (a : list float) (j : nat) :
  a !! j = Some NaN ->
  (forall k, (k < j)%nat -> exists q, a !! k = Some (Fin q)) ->
  Np.argmin a = Ok j.
Proof.
  destruct a as [|x a]; [rewrite lookup_nil; discriminate|].
  destruct j as [|j]; simpl; intros Hj Hbefore.
  - injection Hj as ->. destruct a; reflexivity.
  - destruct (Hbefore 0%nat ltac:(lia)) as [q Hq]. simpl in Hq. injection Hq as ->.
    rewrite (argmin_from_first_nan a j 0 1 q Hj); [reflexivity|].
    intros k Hk. apply (Hbefore (S k)). lia.
Qed.

Lemma closest_class_nan_row
    (tholen : list Tholen.ecas_row) (sqrtQ : Q -> Q) (w : world)
    (scores : list float) (j : nat) (r : Tholen.ecas_row) :
  attrs w !! "tholen_scores" = Some (VArr scores) ->
  length scores = 7%nat ->
  finite scores ->
  tholen !! j = Some r ->
  In NaN (Tholen.values r) ->
  (forall k rk, (k < j)%nat -> tholen !! k = Some rk -> finite_row rk) ->
  Tholen.closest_class tholen sqrtQ w = (Ok (Tholen.class_ r), w).
Proof.
  intros Hattr Hlen Hfin Hj Hnan Hbefore.
  unfold Tholen.closest_class.
  rewrite (bind_ok _ _ _ _ _ (distances_run tholen sqrtQ w scores Hattr Hlen)).
  rewrite bind_run. unfold Np.lift at 1.
  rewrite (argmin_first_nan _ j).
  - cbv beta iota. unfold Tholen.loc_class. rewrite Hj. reflexivity.
  - rewrite list_lookup_fmap, Hj. simpl.
    rewrite (distance_nan_row sqrtQ scores r Hlen Hnan). reflexivity.
  - intros k Hk.
    destruct (lookup_lt_is_Some_2 tholen k) as [rk Hrk].
    { apply lookup_lt_Some in Hj. lia. }
    destruct (distance_is_Fin sqrtQ scores rk Hfin (Hbefore k rk Hk Hrk)) as [d Hd].
    exists d. rewrite list_lookup_fmap, Hrk. simpl. rewrite Hd. reflexivity.
Qed.

(** X16.  A row of the table with a NaN among its seven scores is at a
    distance of NaN from every spectrum, and [np.argmin] takes NaN for the
    least value: when the rows before it and the spectrum hold finite
    scores, the spectrum is given the class of that row, whatever its
    scores are. *)
Theorem tholen_nan_row_wins
    (tholen : list Tholen.ecas_row) (sqrtQ : Q -> Q) (w : world)
    (scores : list float) (j : nat) (r : Tholen.ecas_row) :
  attrs w !! "tholen_scores" = Some (VArr scores) ->
  length scores = 7%nat ->
  finite scores ->
  tholen !! j = Some r ->
  In NaN (Tholen.values r) ->
  (forall k rk, (k < j)%nat -> tholen !! k = Some rk -> finite_row rk) ->
  Tholen.closest_class tholen sqrtQ w = (Ok (Tholen.class_ r), w).
Proof. exact (closest_class_nan_row tholen sqrtQ w scores j r). Qed.

Lemma tholen_nan_row_wins_witness :
  Tholen.closest_class ecas_nan_row sqrt_floor spectrum_MU = (Ok "D", spectrum_MU).
Proof.
  apply (tholen_nan_row_wins ecas_nan_row sqrt_floor spectrum_MU
           (map Fin [0; 2; 0; 0; 0; 0; 0]%Q) 2
           (Tholen.EcasRow (Fin 0) (Fin 0) NaN (Fin 0) (Fin 0) (Fin 0) (Fin 0) "D")).
  - reflexivity.
  - reflexivity.
  - repeat constructor.
  - reflexivity.
  - simpl. tauto.
  - intros [|[|k]] rk Hk H; try lia; simpl in H; injection H as <-; repeat constructor.
Defined.

(** ** Loading a resource of the package *)

Lemma not_resource (resource : string) :
  ~ In resource resources ->
  String.eqb resource "classy" = false /\ String.eqb resource "gmm" = false
  /\ String.eqb resource "mcfa" = false /\ String.eqb resource "mixnorm" = false.
Proof.
  intros H. unfold resources in H. simpl in H.
  repeat split; apply String.eqb_neq; intros ->; tauto.
Qed.

(** X17.  [load] knows four resources.  For any other name it returns
    [None] and raises nothing, without running a loader.  For "gmm" it
    raises [ValueError] before the loader runs unless [cluster] is an
    [int] (or a [bool]) or the string "emp"; [cluster] is not looked at
    for the other names. *)
Theorem data_load_dispatch
    (resource_ : Type) (_load_classy : M resource_) (_load_gmm : Data.arg -> M resource_)
    (_load_mcfa _load_mixnorm : M resource_) (w : world) :
  let load := Data.load resource_ _load_classy _load_gmm _load_mcfa _load_mixnorm in
  (forall resource cluster, ~ In resource resources ->
     load resource cluster w = (Ok None, w))
  /\ (forall cluster,
        Data.isinstance_int cluster = false -> cluster <> Data.AStr "emp" ->
        load "gmm" cluster w
        = (Raise (ValueError
                    [Txt "The cluster number has to be specified when loading a GMM."]), w))
  /\ (forall cluster,
        Data.isinstance_int cluster = true \/ cluster = Data.AStr "emp" ->
        load "gmm" cluster w = (r ← _load_gmm cluster; mret (Some r)) w)
  /\ (forall resource cluster cluster', resource <> "gmm" ->
        load resource cluster w = load resource cluster' w).
Proof.
  intros load. subst load. repeat apply conj.
  - intros resource cluster H. unfold Data.load.
    destruct (not_resource resource H) as (-> & -> & -> & ->). reflexivity.
  - intros cluster Hint Hemp. unfold Data.load. simpl. rewrite Hint. simpl.
    destruct cluster as [| | | |s]; try reflexivity. simpl.
    destruct (String.eqb_spec s "emp") as [-> | _]; [congruence | reflexivity].
  - intros cluster [Hint | ->]; unfold Data.load; simpl.
    + rewrite Hint. reflexivity.
    + reflexivity.
  - intros resource cluster cluster' Hne. unfold Data.load.
    apply String.eqb_neq in Hne. rewrite Hne. reflexivity.
Qed.

Lemma data_load_dispatch_witness :
  Data.load Mahlke.MCFA (raise (KeyError "classy")) (fun _ => raise (KeyError "gmm"))
    (Mahlke.load_mcfa (Ok toy_mcfa)) (raise (KeyError "mixnorm")) "MCFA" Data.ANone
    spectrum_new
  = (Ok None, spectrum_new)
  /\ Data.load Mahlke.MCFA (raise (KeyError "classy")) (fun _ => raise (KeyError "gmm"))
       (Mahlke.load_mcfa (Ok toy_mcfa)) (raise (KeyError "mixnorm")) "gmm" (Data.AFloat (Fin 1))
       spectrum_new
     = (Raise (ValueError
                 [Txt "The cluster number has to be specified when loading a GMM."]),
        spectrum_new).
Proof.
  destruct (data_load_dispatch Mahlke.MCFA (raise (KeyError "classy"))
              (fun _ => raise (KeyError "gmm"))
              (Mahlke.load_mcfa (Ok toy_mcfa)) (raise (KeyError "mixnorm")) spectrum_new)
    as (H1 & H2 & _).
  split.
  - apply H1. unfold resources. simpl.
    intros H. repeat (destruct H as [H | H]; [discriminate H|]). exact H.
  - apply H2; [reflexivity | discriminate].
Defined.

(** ** The index of the nearest value *)

Lemma distances_to_Fin (qs : list Q) (v : Q) :
  map (fun x => Tools.fabs (x - Fin v)) (map Fin qs) = map Fin (map (Qdist v) qs).
Proof. rewrite !map_map. reflexivity. Qed.

Lemma Qdist_zero (v q : Q) : (Qdist v q == 0)%Q <-> (q == v)%Q.
Proof.
  unfold Qdist. split; intros H.
  - revert H. apply (Qabs_case (q + - v) (fun a => (a == 0)%Q -> (q == v)%Q)); intros; lra.
  - assert (E : (q + - v == 0)%Q) by lra. rewrite E. reflexivity.
Qed.

Lemma Qdist_nonneg (v q : Q) : (0 <= Qdist v q)%Q.
Proof. apply Qabs_nonneg. Qed.

(** X18.  On an array of finite numbers that is not empty, [find_nearest]
    returns an index of the array, and no element is nearer to the target
    value than the one at that index; of several that are equally near it
    returns the first. *)
Theorem find_nearest_closest (qs : list Q) (v : Q) :
  qs <> [] ->
  exists j x,
    Tools.find_nearest (map Fin qs) (Fin v) = Ok j
    /\ qs !! j = Some x
    /\ (forall k y, qs !! k = Some y -> (Qdist v x <= Qdist v y)%Q)
    /\ (forall k y, (k < j)%nat -> qs !! k = Some y -> (Qdist v x < Qdist v y)%Q).
Proof.
  intros Hne. unfold Tools.find_nearest. rewrite distances_to_Fin.
  assert (Hne' : map Fin (map (Qdist v) qs) <> []) by (destruct qs; [congruence | discriminate]).
  destruct (argmin_nonempty _ Hne') as [j Hj].
  destruct (argmin_Fin _ j Hj) as (d & Hd & Hmin & Hfirst).
  rewrite list_lookup_fmap in Hd.
  destruct (qs !! j) as [x|] eqn:Hx; [|discriminate].
  simpl in Hd. injection Hd as <-.
  exists j, x. split; [exact Hj|]. split; [exact Hx|]. split.
  - intros k y Hk. apply (Hmin k). rewrite list_lookup_fmap, Hk. reflexivity.
  - intros k y Hlt Hk. apply (Hfirst k); [exact Hlt|].
    rewrite list_lookup_fmap, Hk. reflexivity.
Qed.

Lemma find_nearest_closest_witness :
  exists j x,
    Tools.find_nearest (map Fin demeo_grid) (Fin 0.56) = Ok j
    /\ demeo_grid !! j = Some x
    /\ (Qdist 0.56 x <= Qdist 0.56 0.55)%Q.
Proof.
  destruct (find_nearest_closest demeo_grid 0.56) as (j & x & Hj & Hx & Hmin & _).
  - discriminate.
  - exists j, x. split; [exact Hj|]. split; [exact Hx|].
    apply (Hmin 2%nat). reflexivity.
Defined.

(** X19.  When the target value is an element of an array of finite
    numbers, [find_nearest] returns the first index that holds it; on an
    array that rises strictly, such as a wavelength grid, looking up the
    element at index [k] gives [k] back. *)
Theorem find_nearest_member (qs : list Q) (v v' : Q) (k : nat) :
  qs !! k = Some v' ->
  (v' == v)%Q ->
  exists j x,
    Tools.find_nearest (map Fin qs) (Fin v) = Ok j
    /\ (j <= k)%nat
    /\ qs !! j = Some x /\ (x == v)%Q
    /\ (forall k' y, (k' < j)%nat -> qs !! k' = Some y -> ~ (y == v)%Q)
    /\ (rising qs -> j = k).
Proof.
  intros Hk Hv.
  assert (Hne : qs <> []) by (intros ->; rewrite lookup_nil in Hk; discriminate).
  destruct (find_nearest_closest qs v Hne) as (j & x & Hj & Hx & Hmin & Hfirst).
  assert (H0 : (Qdist v v' == 0)%Q) by (apply Qdist_zero; exact Hv).
  assert (Hxv : (x == v)%Q).
  { apply Qdist_zero. pose proof (Hmin k v' Hk). pose proof (Qdist_nonneg v x). lra. }
  assert (Hle : (j <= k)%nat).
  { destruct (le_lt_dec j k) as [H | H]; [exact H|].
    pose proof (Hfirst k v' H Hk). pose proof (Qdist_nonneg v x). lra. }
  exists j, x. repeat split; auto.
  - intros k' y Hlt Hy E. apply Qdist_zero in E.
    pose proof (Hfirst k' y Hlt Hy). pose proof (Qdist_nonneg v x). lra.
  - intros Hrise. destruct (Nat.eq_dec j k) as [E | E]; [exact E|].
    assert (Hlt : (j < k)%nat) by lia.
    pose proof (Hrise j k x v' Hlt Hx Hk). lra.
Qed.

Lemma find_nearest_member_witness :
  Tools.find_nearest (map Fin demeo_grid) (Fin 0.55) = Ok 2%nat.
Proof.
  destruct (find_nearest_member demeo_grid 0.55 0.55 2) as (j & x & Hj & Hle & _).
  - reflexivity.
  - reflexivity.
  - rewrite Hj. f_equal. vm_compute in Hj. congruence.
Defined.

(** X20.  [find_nearest] raises [ValueError] on an empty array.  NaN is
    taken for the nearest value: with a target that is NaN it returns
    index 0 whatever the array holds, and on an array with a NaN after
    finite numbers only it returns the index of that NaN whatever the
    (finite) target is. *)
Theorem find_nearest_edges (value : float) :
  Tools.find_nearest [] value
  = Raise (ValueError [Txt "attempt to get argmin of an empty sequence"])
  /\ (forall x array, Tools.find_nearest (x :: array) NaN = Ok 0%nat)
  /\ (forall qs rest v,
        Tools.find_nearest (map Fin qs ++ NaN :: rest) (Fin v) = Ok (length qs)).
Proof.
  split; [reflexivity | split].
  - intros x array. unfold Tools.find_nearest. simpl.
    replace (Tools.fabs (x - NaN)) with NaN.
    + destruct (map _ array); reflexivity.
    + unfold fsub. simpl. rewrite fadd_nan_r. reflexivity.
  - intros qs rest v. unfold Tools.find_nearest.
    apply argmin_first_nan.
    + rewrite list_lookup_fmap, lookup_app_r by (rewrite length_map; lia).
      rewrite length_map, Nat.sub_diag. reflexivity.
    + intros k Hk. rewrite list_lookup_fmap, lookup_app_l by (rewrite length_map; lia).
      rewrite list_lookup_fmap.
      destruct (lookup_lt_is_Some_2 qs k Hk) as [q ->]. simpl. eauto.
Qed.

(** ** Loading spectra from the cache *)

Lemma for_each_inv {A B : Type} (body : A -> M B) (l : list A) (out : list B)
    (w w' : world) :
  Np.for_each body l w = (Ok out, w') ->
  Forall2 (fun x y => exists u u', body x u = (Ok y, u')) l out.
Proof.
  revert out w. induction l as [|x l IH]; intros out w H; simpl in H.
  - inversion H. constructor.
  - apply bind_inv in H as (y & u & Hy & H).
    apply bind_inv in H as (ys & u' & Hys & H).
    inversion H; subst. constructor; eauto.
Qed.

Section LoadSpectra.

Variable Spectrum : Type.
Variables load_akari_spectrum load_gaia_spectrum
          load_smass_spectrum load_ecas_spectrum : Cache.series -> M Spectrum.

Let loaded :=
  Cache.loaded Spectrum load_akari_spectrum load_gaia_spectrum
    load_smass_spectrum load_ecas_spectrum.

Lemma field_inv (spec : Cache.series) (a : string) (v : value) (w w' : world) :
  Cache.field spec a w = (Ok v, w') -> spec !! a = Some v /\ w' = w.
Proof.
  unfold Cache.field. destruct (spec !! a); intros H; inversion H; auto.
Qed.

Lemma loaded_inv (spec : Cache.series) (y : Cache.series + Spectrum) (w w' : world) :
  loaded spec w = (Ok y, w') ->
  exists source, spec !! "source" = Some source
    /\ if has_loader source then exists s, y = inr s else y = inl spec /\ w' = w.
Proof.
  intros H. unfold loaded, Cache.loaded in H.
  apply bind_inv in H as (source & u & Hs & H).
  apply field_inv in Hs as [Hs ->]. exists source. split; [exact Hs|].
  unfold has_loader.
  destruct (Cache.is_str source "AKARI").
  { apply bind_inv in H as (s & u & _ & H). inversion H. simpl. eauto. }
  apply bind_inv in H as (source' & u & Hs' & H).
  apply field_inv in Hs' as [Hs' ->]. rewrite Hs in Hs'. injection Hs' as <-.
  destruct (Cache.is_str source "Gaia").
  { apply bind_inv in H as (s & u & _ & H). inversion H. simpl. eauto. }
  apply bind_inv in H as (source' & u & Hs' & H).
  apply field_inv in Hs' as [Hs' ->]. rewrite Hs in Hs'. injection Hs' as <-.
  destruct (Cache.is_str source "SMASS").
  { apply bind_inv in H as (s & u & _ & H). inversion H. simpl. eauto. }
  apply bind_inv in H as (source' & u & Hs' & H).
  apply field_inv in Hs' as [Hs' ->]. rewrite Hs in Hs'. injection Hs' as <-.
  destruct (Cache.is_str source "ECAS").
  { apply bind_inv in H as (s & u & _ & H). inversion H. simpl. eauto. }
  inversion H. simpl. auto.
Qed.

End LoadSpectra.

(** X21.  A run of [load_spectra] that returns gives a list as long as
    the index, in the order of the index.  For a row whose source is
    AKARI, Gaia, SMASS or ECAS the list holds a spectrum; for a row of any
    other source, "Mahlke" among them, it holds the row of the index
    itself, and nothing is raised. *)
Theorem load_spectra_keeps_rows
    (Spectrum : Type)
    (load_akari_spectrum load_gaia_spectrum
     load_smass_spectrum load_ecas_spectrum : Cache.series -> M Spectrum)
    (idx_spectra : list Cache.series) (spectra : list (Cache.series + Spectrum))
    (w w' : world) :
  Cache.load_spectra Spectrum load_akari_spectrum load_gaia_spectrum
    load_smass_spectrum load_ecas_spectrum idx_spectra w = (Ok spectra, w') ->
  length spectra = length idx_spectra
  /\ forall i spec, idx_spectra !! i = Some spec ->
       exists source, spec !! "source" = Some source
         /\ if has_loader source then exists s, spectra !! i = Some (inr s)
            else spectra !! i = Some (inl spec).
Proof.
  intros H. apply for_each_inv in H.
  split; [symmetry; exact (Forall2_length _ _ _ H)|].
  intros i spec Hi.
  destruct (Forall2_lookup_l _ _ _ _ _ H Hi) as (y & Hy & u & u' & Hbody).
  destruct (loaded_inv _ _ _ _ _ _ _ _ _ Hbody) as (source & Hs & Hcase).
  exists source. split; [exact Hs|].
  destruct (has_loader source).
  - destruct Hcase as [s ->]. eauto.
  - destruct Hcase as [-> _]. exact Hy.
Qed.

Lemma load_spectra_keeps_rows_witness :
  length [inr "Gaia"; inl mahlke_entry : Cache.series + string] = 2%nat
  /\ exists source, mahlke_entry !! "source" = Some source /\ has_loader source = false.
Proof.
  destruct (load_spectra_keeps_rows string (toy_loader "AKARI") (toy_loader "Gaia")
              (toy_loader "SMASS") (toy_loader "ECAS")
              [gaia_entry "Ceres"; mahlke_entry] [inr "Gaia"; inl mahlke_entry]
              spectrum_new spectrum_new)
    as [Hlen Hrows].
  - reflexivity.
  - split; [exact Hlen|].
    destruct (Hrows 1%nat mahlke_entry eq_refl) as (source & Hs & Hcase).
    exists source. split; [exact Hs|].
    destruct (has_loader source); [destruct Hcase as [s Hcase]; discriminate Hcase | reflexivity].
Defined.

(** ** The correction of the Gaia spectra *)

Lemma imul_head_short (refl : list float) :
  (length refl < 5)%nat ->
  Cache.imul_head refl Cache.corr
  = Raise (ValueError [Txt "operands could not be broadcast together"]).
Proof.
  intros H. unfold Cache.imul_head. rewrite length_take.
  change (length Cache.corr) with 5%nat.
  destruct (Nat.eqb_spec (Nat.min 5 (length refl)) 5); [lia | reflexivity].
Qed.

Lemma imul_head_long (refl : list float) :
  (5 <= length refl)%nat ->
  Cache.imul_head refl Cache.corr
  = Ok (Np.zip_with_f fmul (take 5 refl) Cache.corr ++ drop 5 refl)%list.
Proof.
  intros H. unfold Cache.imul_head. rewrite length_take.
  change (length Cache.corr) with 5%nat.
  destruct (Nat.eqb_spec (Nat.min 5 (length refl)) 5); [reflexivity | lia].
Qed.

Lemma fmul_one (x : float) : same (x * Fin 1.00) x.
Proof.
  destruct x as [| |q|]; simpl; auto. unfold Qeq. simpl. lia.
Qed.

Lemma corrected_lookup (refl : list float) (i : nat) :
  (5 <= length refl)%nat ->
  (Np.zip_with_f fmul (take 5 refl) Cache.corr ++ drop 5 refl)%list !! i
  = match Cache.corr !! i with
    | Some c => (fun x => x * c) <$> refl !! i
    | None => refl !! i
    end.
Proof.
  intros Hlen.
  assert (Hl : length (Np.zip_with_f fmul (take 5 refl) Cache.corr) = 5%nat).
  { assert (Ht : length (take 5 refl) = 5%nat) by (rewrite length_take; lia).
    rewrite length_zip_with_f; [exact Ht | rewrite Ht; reflexivity]. }
  destruct (le_lt_dec 5 i) as [Hi | Hi].
  - rewrite lookup_app_r by lia. rewrite Hl, lookup_drop.
    replace (5 + (i - 5))%nat with i by lia.
    rewrite (lookup_ge_None_2 Cache.corr i) by (simpl; lia). reflexivity.
  - rewrite lookup_app_l by lia. rewrite lookup_zip_with_f, lookup_take_lt by lia.
    destruct (lookup_lt_is_Some_2 refl i ltac:(lia)) as [x ->].
    destruct (lookup_lt_is_Some_2 Cache.corr i ltac:(simpl; lia)) as [c ->].
    reflexivity.
Qed.

Section Gaia.

Variable read_csv : message -> M (list Cache.gaia_row).
Variable Spectrum : Type.
Variable core_Spectrum : list (string * value) -> M Spectrum.

Variable spec : Cache.series.
Variables filename name_ number_ : value.
Hypothesis spec_filename : spec !! "filename" = Some filename.
Hypothesis spec_name : spec !! "name" = Some name_.
Hypothesis spec_number : spec !! "number" = Some number_.

Variables w w1 : world.
Variable rows : list Cache.gaia_row.
Hypothesis file_read : read_csv [Txt "gaia/"; Val filename; Txt ".csv"] w = (Ok rows, w1).

Let obs := filter (fun r => Cache.value_eqb (Cache.name r) name_) rows.

Lemma load_gaia_entry :
  Cache.load_gaia_spectrum read_csv Spectrum core_Spectrum spec w
  = (refl ← Np.lift (Cache.imul_head (map Cache.reflectance_spectrum obs) Cache.corr);
     let wave := VArr (map (fun r => fdiv (Cache.wavelength r) 1000) obs) in
     source_id_ ← Cache.first (map Cache.source_id obs);
     number_mp ← Cache.first (map Cache.source_id obs);
     solution_id_ ← Cache.first (map Cache.solution_id obs);
     denomination_ ← Cache.first (map Cache.denomination obs);
     nb_samples_ ← Cache.first (map Cache.nb_samples obs);
     num_of_spectra_ ← Cache.first (map Cache.num_of_spectra obs);
     core_Spectrum
       [("wave", wave);
        ("wavelength", wave);
        ("refl", VArr refl);
        ("reflectance_spectrum", VArr refl);
        ("refl_err", VArr (map Cache.reflectance_spectrum_err obs));
        ("flag", Cache.ints (map Cache.reflectance_spectrum_flag obs));
        ("reflectance_spectrum_flag", Cache.ints (map Cache.reflectance_spectrum_flag obs));
        ("source", VStr "Gaia");
        ("name", VStr "Gaia");
        ("asteroid_name", name_);
        ("asteroid_number", number_);
        ("source_id", source_id_);
        ("number_mp", number_mp);
        ("solution_id", solution_id_);
        ("denomination", denomination_);
        ("nb_samples", nb_samples_);
        ("num_of_spectra", num_of_spectra_)]) w1.
Proof.
  unfold Cache.load_gaia_spectrum, Cache.field, Cache.item.
  rewrite spec_filename, spec_name, spec_number.
  unfold mbind at 1, M_bind at 1, mret at 1, M_ret at 1. cbv beta iota.
  unfold mbind at 1, M_bind at 1. rewrite file_read. cbv beta iota.
  unfold mbind at 1, M_bind at 1, mret at 1, M_ret at 1. cbv beta iota.
  fold obs.
  reflexivity.
Qed.

End Gaia.

Lemma first_of {A B : Type} (f : A -> B) (l : list A) (x : A) (l' : list A) :
  l = x :: l' -> Cache.first (map f l) = mret (f x).
Proof. intros ->. reflexivity. Qed.

(** X22.  [load_gaia_spectrum] multiplies the first five reflectances of
    the asteroid by 1.07, 1.05, 1.02, 1.01 and 1.00 and hands the result to
    the spectrum as [refl] and as [reflectance_spectrum], with the
    wavelengths divided by 1000: the fifth reflectance and all after it
    stay what they were, and the number of reflectances is kept.  When the
    file holds fewer than five rows of the asteroid, none among them, the
    product is refused with [ValueError] and no spectrum is made. *)
Theorem gaia_correction
    (read_csv : message -> M (list Cache.gaia_row)) (Spectrum : Type)
    (core_Spectrum : list (string * value) -> M Spectrum)
    (spec : Cache.series) (filename name_ number_ : value)
    (w w1 : world) (rows : list Cache.gaia_row) :
  spec !! "filename" = Some filename ->
  spec !! "name" = Some name_ ->
  spec !! "number" = Some number_ ->
  read_csv [Txt "gaia/"; Val filename; Txt ".csv"] w = (Ok rows, w1) ->
  let obs := filter (fun r => Cache.value_eqb (Cache.name r) name_) rows in
  let refl := map Cache.reflectance_spectrum obs in
  let load := Cache.load_gaia_spectrum read_csv Spectrum core_Spectrum spec in
  ((length obs < 5)%nat ->
     load w = (Raise (ValueError [Txt "operands could not be broadcast together"]), w1))
  /\ ((5 <= length obs)%nat ->
        exists refl' kwargs,
          load w = core_Spectrum kwargs w1
          /\ In ("refl", VArr refl') kwargs
          /\ In ("reflectance_spectrum", VArr refl') kwargs
          /\ In ("wave", VArr (map (fun r => fdiv (Cache.wavelength r) 1000) obs)) kwargs
          /\ length refl' = length obs
          /\ (forall i x c, refl !! i = Some x -> Cache.corr !! i = Some c ->
                refl' !! i = Some (x * c))
          /\ (forall i, (5 <= i)%nat -> refl' !! i = refl !! i)
          /\ (forall x, refl !! 4%nat = Some x ->
                exists y, refl' !! 4%nat = Some y /\ same y x)).
Proof.
  intros Hfile Hname Hnumber Hread obs refl load. subst load.
  rewrite (load_gaia_entry read_csv Spectrum core_Spectrum spec filename name_ number_
             Hfile Hname Hnumber w w1 rows Hread).
  fold obs. fold refl.
  assert (Hlen : length refl = length obs) by apply length_map.
  split.
  - intros Hshort. rewrite bind_run. unfold Np.lift at 1.
    rewrite imul_head_short by lia. reflexivity.
  - intros Hlong.
    assert (Hne : exists r obs', obs = r :: obs').
    { destruct obs as [|r obs']; [simpl in Hlong; lia | eauto]. }
    destruct Hne as (r & obs' & Eobs).
    exists (Np.zip_with_f fmul (take 5 refl) Cache.corr ++ drop 5 refl)%list.
    eexists. split.
    { rewrite bind_run. unfold Np.lift at 1.
      rewrite imul_head_long by lia. cbv beta iota zeta.
      rewrite !(first_of _ _ _ _ Eobs). reflexivity. }
    split; [simpl; tauto|]. split; [simpl; tauto|]. split; [simpl; tauto|].
    split.
    { rewrite length_app, length_drop, length_zip_with_f;
        rewrite length_take; [lia | simpl length; lia]. }
    split; [|split].
    + intros i x c Hx Hc. rewrite corrected_lookup by lia. rewrite Hc, Hx. reflexivity.
    + intros i Hi. rewrite corrected_lookup by lia.
      rewrite (lookup_ge_None_2 Cache.corr i) by (simpl; lia). reflexivity.
    + intros x Hx. rewrite corrected_lookup by lia. rewrite Hx. simpl.
      eexists. split; [reflexivity | apply fmul_one].
Qed.

Lemma gaia_correction_witness :
  exists refl' kwargs,
    Cache.load_gaia_spectrum toy_read_csv _ toy_Spectrum (gaia_entry "Ceres") spectrum_new
    = toy_Spectrum kwargs (World (attrs spectrum_new) [Call "pd.read_csv"])
    /\ In ("refl", VArr refl') kwargs
    /\ length refl' = 6%nat
    /\ refl' !! 0%nat = Some (Fin 1 * Fin 1.07)
    /\ Cache.load_gaia_spectrum toy_read_csv _ toy_Spectrum (gaia_entry "Pallas") spectrum_new
       = (Raise (ValueError [Txt "operands could not be broadcast together"]),
          World (attrs spectrum_new) [Call "pd.read_csv"]).
Proof.
  destruct (gaia_correction toy_read_csv _ toy_Spectrum (gaia_entry "Ceres")
              (VStr "part_00") (VStr "Ceres") (VNum (Fin 1))
              spectrum_new (World (attrs spectrum_new) [Call "pd.read_csv"]) gaia_file)
    as [_ H]; try reflexivity.
  destruct (gaia_correction toy_read_csv _ toy_Spectrum (gaia_entry "Pallas")
              (VStr "part_00") (VStr "Pallas") (VNum (Fin 1))
              spectrum_new (World (attrs spectrum_new) [Call "pd.read_csv"]) gaia_file)
    as [H' _]; try reflexivity.
  destruct H as (refl' & kwargs & Hload & Hrefl & _ & _ & Hlen & Hcorr & _).
  { simpl. lia. }
  exists refl', kwargs. split; [exact Hload|]. split; [exact Hrefl|].
  split; [exact Hlen|]. split.
  - apply (Hcorr 0%nat); reflexivity.
  - apply H'. simpl. lia.
Defined.

(** ** The flags of the Eight Color Asteroid Survey *)

Lemma neither_is_nan (x : float) (l : Q) :
  (x >? Fin l) = false -> (x <=? Fin l) = false -> isnan x = true.
Proof.
  destruct x as [| |q|]; simpl; try discriminate; try reflexivity.
  unfold Qltb. intros H1 H2. rewrite H2 in H1. discriminate.
Qed.

Lemma both_impossible (x : float) (l : Q) :
  (x >? Fin l) = true -> (x <=? Fin l) = true -> False.
Proof.
  destruct x as [| |q|]; simpl; try discriminate.
  unfold Qltb. intros H1 H2. rewrite H2 in H1. discriminate.
Qed.

(** X23.  In the table of mean colours that [retrieve_ecas_spectra]
    writes, the flag of a row is 1 exactly when the flag of one of its
    seven colours is 1: the two places that hold the seven limits agree.
    The flag of a colour is 1 or 0, but for a standard deviation that is
    missing (-9.999 in the survey, or NaN) it is left unset, as NaN. *)
Theorem ecas_quality_flags (STD_DEV : Ecas.colour -> float) :
  let flag := fst (Ecas.quality_flags STD_DEV) in
  let flags := snd (Ecas.quality_flags STD_DEV) in
  (flag = 1%Z <-> exists c, flags c = Fin 1)
  /\ (flag = 0%Z \/ flag = 1%Z)
  /\ (forall c, flags c = Fin 1 \/ flags c = Fin 0
                \/ (flags c = NaN
                    /\ isnan (fdiv (Ecas.replace_missing (STD_DEV c)) 1000) = true))
  /\ (forall c, (STD_DEV c =? -9.999) = true -> flags c = NaN).
Proof.
  cbv zeta.
  assert (Hc : forall c,
            snd (Ecas.quality_flags STD_DEV) c
            = let x := fdiv (Ecas.replace_missing (STD_DEV c)) 1000 in
              let l := match c with
                       | Ecas.S_V => 0.095 | Ecas.U_V => 0.074 | Ecas.B_V => 0.039
                       | Ecas.V_W => 0.034 | Ecas.V_X => 0.039 | Ecas.V_P => 0.044
                       | Ecas.V_Z => 0.051
                       end%Q in
              if x <=? Fin l then Fin 0 else if x >? Fin l then Fin 1 else NaN).
  { intros c. destruct c; cbv zeta; unfold Ecas.quality_flags, Ecas.assign_where;
      simpl; rewrite ?andb_false_l; reflexivity. }
  assert (Hf : fst (Ecas.quality_flags STD_DEV)
               = if existsb (fun c => snd (Ecas.quality_flags STD_DEV) c =? Fin 1)
                      [Ecas.S_V; Ecas.U_V; Ecas.B_V; Ecas.V_W; Ecas.V_X; Ecas.V_P; Ecas.V_Z]
                 then 1%Z else 0%Z).
  { cbn [existsb]. rewrite !Hc. cbv zeta. unfold Ecas.quality_flags. cbn [fst].
    repeat match goal with
    | |- context [fdiv (Ecas.replace_missing (STD_DEV ?c)) ?k] =>
        let x := fresh "x" in
        generalize (fdiv (Ecas.replace_missing (STD_DEV c)) k); intros x
    end.
    repeat match goal with
    | x : float |- _ =>
        match goal with
        | |- context [x <=? Fin ?l] =>
            let E1 := fresh in let E2 := fresh in
            destruct (x <=? Fin l) eqn:E1; destruct (x >? Fin l) eqn:E2;
            try (exfalso; exact (both_impossible x l E2 E1)); clear E1 E2 x
        end
    end; reflexivity. }
  repeat apply conj.
  - rewrite Hf. intros H.
    destruct (existsb _ _) eqn:E; [|discriminate].
    apply existsb_exists in E as (c & _ & E). exists c.
    rewrite Hc in *. cbv zeta in *.
    destruct (_ <=? _); [discriminate E|]. destruct (_ >? _); [reflexivity | discriminate E].
  - intros [c E]. rewrite Hf.
    assert (Hex : existsb (fun c => snd (Ecas.quality_flags STD_DEV) c =? Fin 1)
                    [Ecas.S_V; Ecas.U_V; Ecas.B_V; Ecas.V_W; Ecas.V_X; Ecas.V_P; Ecas.V_Z]
                  = true).
    { apply existsb_exists. exists c. split; [destruct c; simpl; tauto|].
      rewrite E. reflexivity. }
    rewrite Hex. reflexivity.
  - rewrite Hf. destruct (existsb _ _); auto.
  - intros c. rewrite Hc. cbv zeta.
    destruct (_ <=? _) eqn:E1; [auto|].
    destruct (_ >? _) eqn:E2; [auto|].
    right. right. split; [reflexivity|]. exact (neither_is_nan _ _ E2 E1).
  - intros c E. rewrite Hc. cbv zeta. unfold Ecas.replace_missing. rewrite E. reflexivity.
Qed.

Lemma ecas_quality_flags_witness :
  fst (Ecas.quality_flags std_missing) = 1%Z
  /\ snd (Ecas.quality_flags std_missing) Ecas.B_V = NaN.
Proof.
  destruct (ecas_quality_flags std_missing) as (H1 & _ & _ & H4).
  split.
  - apply H1. exists Ecas.V_Z. reflexivity.
  - apply H4. reflexivity.
Defined.

(** ** The table of scores that the Tholen classifier reads *)

Lemma replace_missing_other (x : float) :
  (x =? -9.999) = false -> Ecas.replace_missing x = x.
Proof. unfold Ecas.replace_missing. intros ->. reflexivity. Qed.

Lemma replace_missing_not (x : float) : (Ecas.replace_missing x =? -9.999) = false.
Proof.
  unfold Ecas.replace_missing. destruct (x =? -9.999) eqn:E; [reflexivity | exact E].
Qed.

Lemma replace_scores_whole (r : Tholen.ecas_row) :
  no_missing r -> Ecas.replace_scores r = r.
Proof.
  unfold no_missing, Tholen.values. intros H.
  repeat match goal with
  | H : Forall _ (_ :: _) |- _ => apply Forall_cons_1 in H as [? H]
  end.
  unfold Ecas.replace_scores. rewrite !replace_missing_other by assumption.
  destruct r; reflexivity.
Qed.

Lemma replace_scores_nan (r : Tholen.ecas_row) :
  Exists (fun x => (x =? -9.999) = true) (Tholen.values r) ->
  In NaN (Tholen.values (Ecas.replace_scores r)).
Proof.
  unfold Tholen.values, Ecas.replace_scores. simpl. intros H.
  repeat match goal with
  | H : Exists _ (_ :: _) |- _ =>
      apply Exists_cons in H as [H | H];
      [unfold Ecas.replace_missing; rewrite H; simpl; tauto|]
  end.
  apply Exists_nil in H. contradiction.
Qed.

Lemma kept_scores_cons (x : Tholen.ecas_row) (l : list Tholen.ecas_row) :
  Ecas.kept_scores (x :: l)
  = if isnan (Tholen.PC1 (Ecas.replace_scores x)) then Ecas.kept_scores l
    else Ecas.replace_scores x :: Ecas.kept_scores l.
Proof.
  unfold Ecas.kept_scores. simpl map. rewrite filter_cons.
  destruct (isnan (Tholen.PC1 (Ecas.replace_scores x))); reflexivity.
Qed.

Lemma kept_scores_prefix (scores : list Tholen.ecas_row) (j : nat) (r : Tholen.ecas_row) :
  scores !! j = Some r ->
  (forall k rk, (k < j)%nat -> scores !! k = Some rk -> finite_row rk /\ no_missing rk) ->
  isnan (Tholen.PC1 (Ecas.replace_scores r)) = false ->
  Ecas.kept_scores scores !! j = Some (Ecas.replace_scores r)
  /\ forall k rk, (k < j)%nat -> Ecas.kept_scores scores !! k = Some rk -> finite_row rk.
Proof.
  revert j. induction scores as [|x l IH]; intros j Hj Hbefore Hr.
  - rewrite lookup_nil in Hj. discriminate.
  - rewrite kept_scores_cons. destruct j as [|j]; simpl in Hj.
    + injection Hj as ->. rewrite Hr. split; [reflexivity | intros; lia].
    + destruct (Hbefore 0%nat x ltac:(lia) eq_refl) as [Hfin Hwhole].
      rewrite (replace_scores_whole x Hwhole).
      assert (Hx : isnan (Tholen.PC1 x) = false).
      { unfold finite_row, Tholen.values in Hfin. apply Forall_cons_1 in Hfin as [H _].
        destruct (Tholen.PC1 x); try discriminate H; reflexivity. }
      rewrite Hx.
      destruct (IH j Hj) as [H1 H2]; [|exact Hr|].
      { intros k rk Hk. apply (Hbefore (S k)). lia. }
      split; [exact H1|].
      intros [|k] rk Hk Hlook; simpl in Hlook.
      * injection Hlook as <-. exact Hfin.
      * apply (H2 k); [lia | exact Hlook].
Qed.

Lemma kept_scores_PC1 (scores : list Tholen.ecas_row) :
  Forall (fun r => isnan (Tholen.PC1 r) = false /\ (Tholen.PC1 r =? -9.999) = false)
         (Ecas.kept_scores scores).
Proof.
  induction scores as [|x l IH]; [constructor|].
  rewrite kept_scores_cons.
  destruct (isnan (Tholen.PC1 (Ecas.replace_scores x))) eqn:E; [exact IH|].
  constructor; [|exact IH]. split; [exact E|]. apply replace_missing_not.
Qed.

(** X24.  The table of scores that [retrieve_ecas_spectra] writes for the
    Tholen classifier holds no row whose first score is missing (-9.999 in
    the survey) or NaN.  A row that lacks another of its scores is kept,
    with NaN in its place; when the rows before it are whole and finite,
    the Tholen classifier gives the class of that row to every spectrum of
    seven finite scores. *)
Theorem ecas_scores_table (scores : list Tholen.ecas_row) :
  Forall (fun r => isnan (Tholen.PC1 r) = false /\ (Tholen.PC1 r =? -9.999) = false)
         (Ecas.kept_scores scores)
  /\ forall (sqrtQ : Q -> Q) (w : world) (tholen_scores : list float)
            (j : nat) (r : Tholen.ecas_row),
       attrs w !! "tholen_scores" = Some (VArr tholen_scores) ->
       length tholen_scores = 7%nat ->
       finite tholen_scores ->
       scores !! j = Some r ->
       (forall k rk, (k < j)%nat -> scores !! k = Some rk -> finite_row rk /\ no_missing rk) ->
       isnan (Ecas.replace_missing (Tholen.PC1 r)) = false ->
       Exists (fun x => (x =? -9.999) = true) (Tholen.values r) ->
       Tholen.closest_class (Ecas.kept_scores scores) sqrtQ w = (Ok (Tholen.class_ r), w).
Proof.
  split; [apply kept_scores_PC1|].
  intros sqrtQ w tholen_scores j r Hattr Hlen Hfin Hj Hbefore Hpc1 Hmiss.
  destruct (kept_scores_prefix scores j r Hj Hbefore Hpc1) as [Hrow Hrows].
  change (Tholen.class_ r) with (Tholen.class_ (Ecas.replace_scores r)).
  apply (closest_class_nan_row _ sqrtQ w tholen_scores j (Ecas.replace_scores r));
    auto using replace_scores_nan.
Qed.

Lemma ecas_scores_table_witness :
  length (Ecas.kept_scores ecas_scores_read) = 3%nat
  /\ Tholen.closest_class (Ecas.kept_scores ecas_scores_read) sqrt_floor
       (spectrum_at [0; 0; 0; 4; 0; 0; 0] None)
     = (Ok "M", spectrum_at [0; 0; 0; 4; 0; 0; 0] None).
Proof.
  split; [reflexivity|].
  apply (proj2 (ecas_scores_table ecas_scores_read) sqrt_floor
           (spectrum_at [0; 0; 0; 4; 0; 0; 0] None)
           (map Fin [0; 0; 0; 4; 0; 0; 0]%Q) 1%nat
           (row_of [0; 2; -9.999; 0; 0; 0; 0] "M")).
  - reflexivity.
  - reflexivity.
  - repeat constructor.
  - reflexivity.
  - intros [|k] rk Hk H; [|lia]. simpl in H. injection H as <-.
    split; repeat constructor.
  - reflexivity.
  - right. right. left. reflexivity.
Defined.

(** ** A spectrum of the Eight Color Asteroid Survey *)

(** An entry that is a finite number is not negative. *)
Definition not_negative (y : float) : Prop := forall x, y = Fin x -> (0 <= x)%Q.

Lemma fabs_product (a b : float) : not_negative (Tools.fabs a * Tools.fabs b).
Proof.
  intros x. destruct a as [| |p|], b as [| |q|]; simpl; try discriminate;
    unfold inf_times;
    repeat match goal with
    | |- context [if ?c then _ else _] => destruct c
    end; try discriminate.
  intros H. injection H as <-.
  apply Qmult_le_0_compat; apply Qabs_nonneg.
Qed.

Section EcasSpectrum.

Variable read_csv : M (list Ecas.mean_row).
Variable core_Spectrum : list (string * value) -> M (gmap string value).
Variable power10 : float -> float.
Variable log_10 : float.
Variable int : float -> result Z.

Lemma first_inv {A : Type} (l : list A) (x : A) (u u' : world) :
  Cache.first l u = (Ok x, u') -> u' = u /\ exists l', l = x :: l'.
Proof.
  destruct l as [|y l]; simpl; intros H; inversion H; subst. eauto.
Qed.

Lemma reflectance_inv (obs : list Ecas.mean_row) (exponent : float -> float)
    (color : Ecas.colour) (y : float * float) (u u' : world) :
  Ecas.reflectance power10 log_10 obs exponent color u = (Ok y, u') ->
  not_negative (snd y).
Proof.
  intros H. unfold Ecas.reflectance, Ecas.values0 in H.
  apply bind_inv in H as (refl_c & u1 & _ & H).
  apply bind_inv in H as (std & u2 & _ & H).
  inversion H; subst. simpl. apply fabs_product.
Qed.

Lemma reflectances_inv (obs : list Ecas.mean_row) (exponent : float -> float)
    (colors : list Ecas.colour) (ys : list (float * float)) (u u' : world) :
  Np.for_each (Ecas.reflectance power10 log_10 obs exponent) colors u = (Ok ys, u') ->
  length ys = length colors /\ Forall not_negative (map snd ys).
Proof.
  intros H. apply for_each_inv in H. split.
  - symmetry. exact (Forall2_length _ _ _ H).
  - induction H as [|c y cs ys (v & v' & Hy) _ IH]; simpl; constructor; auto.
    exact (reflectance_inv _ _ _ _ _ _ Hy).
Qed.

Ltac flag_step H :=
  let acc := fresh "acc" in
  let Hb := fresh "Hb" in
  apply bind_inv in H as (acc & ? & Hb & H);
  apply bind_inv in Hb as (? & ? & ? & Hb);
  inversion Hb; subst acc; clear Hb.

Lemma set_flags_inv (obs : list Ecas.mean_row) (self self' : gmap string value)
    (flags : list Z) (u u' : world) :
  Ecas.set_flags int obs self u = (Ok (self', flags), u') ->
  length flags = 8%nat
  /\ flags !! 3%nat = Some 0%Z
  /\ self' !! "flag_V_V" = Some (VNum (Fin 0))
  /\ forall k, ~ In k (map Ecas.flag_name
                         [Ecas.Colour Ecas.S_V; Ecas.Colour Ecas.U_V; Ecas.Colour Ecas.B_V;
                          Ecas.V_V; Ecas.Colour Ecas.V_W; Ecas.Colour Ecas.V_X;
                          Ecas.Colour Ecas.V_P; Ecas.Colour Ecas.V_Z]) ->
       self' !! k = self !! k.
Proof.
  intros H. unfold Ecas.set_flags in H. simpl in H.
  do 3 flag_step H.
  apply bind_inv in H as (acc & ? & Hb & H).
  inversion Hb; subst acc; clear Hb.
  do 4 flag_step H.
  inversion H; subst; clear H.
  split; [reflexivity|]. split; [reflexivity|]. split.
  - rewrite !lookup_insert_ne by discriminate. apply lookup_insert_eq.
  - intros k Hk. simpl in Hk.
    rewrite !lookup_insert_ne by (intros <-; apply Hk; tauto). reflexivity.
Qed.

End EcasSpectrum.

(** X25.  A run of [load_ecas_spectrum] that returns has made a spectrum
    of eight wavelengths, those of the Tholen scheme, with eight
    reflectances, eight errors and eight flags.  At the fourth, the filter
    V at 0.550 microns, the reflectance is 1, the error 0 and the flag 0,
    whatever the file holds; and no error is a negative number.  When the
    file holds no row of the asteroid, [IndexError] is raised and no
    spectrum is made. *)
Theorem ecas_spectrum_shape
    (read_csv : M (list Ecas.mean_row))
    (core_Spectrum : list (string * value) -> M (gmap string value))
    (power10 : float -> float) (log_10 : float) (int : float -> result Z)
    (spec : Cache.series) (w : world) :
  let load := Ecas.load_ecas_spectrum read_csv core_Spectrum power10 log_10 int spec in
  (forall out w', load w = (Ok out, w') ->
     exists kwargs refl refl_err flags self u u',
       core_Spectrum kwargs u = (Ok self, u')
       /\ In ("wave", VArr Tholen.WAVE) kwargs
       /\ In ("refl", VArr refl) kwargs
       /\ In ("refl_err", VArr refl_err) kwargs
       /\ length refl = 8%nat /\ length refl_err = 8%nat
       /\ refl !! 3%nat = Some (Fin 1) /\ refl_err !! 3%nat = Some (Fin 0)
       /\ Forall not_negative refl_err
       /\ out !! "flag" = Some (Cache.ints flags)
       /\ length flags = 8%nat /\ flags !! 3%nat = Some 0%Z
       /\ out !! "flag_V_V" = Some (VNum (Fin 0)))
  /\ (forall rows w1 name_,
        read_csv w = (Ok rows, w1) ->
        spec !! "name" = Some name_ ->
        filter (fun r => Cache.value_eqb (Ecas.name r) name_) rows = [] ->
        load w = (Raise (IndexError "index 0 is out of bounds"), w1)).
Proof.
  intros load. subst load. split.
  - intros out w' H. unfold Ecas.load_ecas_spectrum in H.
    apply bind_inv in H as (rows & u1 & _ & H).
    apply bind_inv in H as (name_ & u2 & _ & H).
    apply bind_inv in H as (blue & u3 & Hblue & H).
    apply bind_inv in H as (red & u4 & Hred & H).
    apply bind_inv in H as (asteroid_name & u5 & _ & H).
    apply bind_inv in H as (asteroid_number & u6 & _ & H).
    apply bind_inv in H as (nights & u7 & _ & H).
    apply bind_inv in H as (note & u8 & _ & H).
    apply bind_inv in H as (self & u9 & Hself & H).
    apply bind_inv in H as ([self' flags] & u10 & Hflags & H).
    inversion H; subst out w'; clear H.
    apply reflectances_inv in Hblue as [Lb Nb].
    apply reflectances_inv in Hred as [Lr Nr].
    apply (set_flags_inv power10 log_10) in Hflags as (Lf & F3 & FV & _).
    simpl in Lb, Lr.
    eexists _, _, _, flags, self, u8, u9. split; [exact Hself|].
    split; [simpl; tauto|]. split; [simpl; tauto|]. split; [simpl; tauto|].
    split; [rewrite length_app; simpl; rewrite !length_map; lia|].
    split; [rewrite length_app; simpl; rewrite !length_map; lia|].
    split.
    { rewrite lookup_app_r by (rewrite length_map; lia).
      rewrite length_map, Lb. reflexivity. }
    split.
    { rewrite lookup_app_r by (rewrite length_map; lia).
      rewrite length_map, Lb. reflexivity. }
    split.
    { apply Forall_app. split; [exact Nb|]. constructor; [|exact Nr].
      intros x E. injection E as <-. apply Qle_refl. }
    split; [apply lookup_insert_eq|]. split; [exact Lf|]. split; [exact F3|].
    rewrite lookup_insert_ne by discriminate. exact FV.
  - intros rows w1 name_ Hread Hname Hnone.
    unfold Ecas.load_ecas_spectrum.
    rewrite (bind_ok _ _ _ _ _ Hread).
    assert (Hitem : Cache.item spec "name" w1 = (Ok name_, w1)).
    { unfold Cache.item. rewrite Hname. reflexivity. }
    rewrite (bind_ok _ _ _ _ _ Hitem). cbv zeta.
    rewrite Hnone. reflexivity.
Qed.

Lemma ecas_spectrum_shape_witness :
  toy_load_ecas (gaia_entry "Pallas") spectrum_new
  = (Raise (IndexError "index 0 is out of bounds"),
     World (attrs spectrum_new) [Call "pd.read_csv"])
  /\ after (toy_load_ecas (gaia_entry "Ceres")) spectrum_new
     = World (attrs spectrum_new) [Call "pd.read_csv"]
  /\ exists out flags,
       run (toy_load_ecas (gaia_entry "Ceres")) spectrum_new = Ok out
       /\ out !! "flag" = Some (Cache.ints flags)
       /\ flags !! 3%nat = Some 0%Z.
Proof.
  destruct (ecas_spectrum_shape toy_read_mean toy_new_spectrum toy_power10 (Fin 2.302585)
              toy_int (gaia_entry "Pallas") spectrum_new) as [_ H2].
  destruct (ecas_spectrum_shape toy_read_mean toy_new_spectrum toy_power10 (Fin 2.302585)
              toy_int (gaia_entry "Ceres") spectrum_new) as [H1 _].
  split; [|split].
  - apply (H2 ecas_mean_file _ (VStr "Pallas")); reflexivity.
  - reflexivity.
  - destruct (toy_load_ecas (gaia_entry "Ceres") spectrum_new) as [[out|e] w'] eqn:E.
    + destruct (H1 out w' E)
        as (kw & refl & refl_err & flags & self & u & u' & _ & _ & _ & _ & _ & _ & _ & _
            & _ & Hflag & _ & H3 & _).
      exists out, flags. split; [unfold run; rewrite E; reflexivity | auto].
    + exfalso. apply (f_equal fst) in E. vm_compute in E. discriminate E.
Defined.
